(** * RemoteTaskModel / RemoteSolutionModel

    A shallow embedding of
    [visualization/motion_planning_tasks/src/remote_task_model.cpp]:
    the per-stage solution table ([RemoteSolutionModel]) and the stage tree
    synchronised from the description and statistics feeds
    ([RemoteTaskModel]).

    Conventions of the embedding
    - [uint32_t] values are [N]; the two places where the code does
      arithmetic on them ([++rank], [1 + data_.size()]) wrap at 2^32.
    - [float]/[double] values are [spec_float] (IEEE-754 values with
      their comparison); only [isnan] and [<] are used by the code.
    - [Node*] is an index into an arena of nodes; [DataList::iterator] is a
      position in [data_] (the list only grows at its end, so positions are
      as stable as list iterators).
    - Qt signals are appended to a log kept in the model.
    - A failing [Q_ASSERT] stops the call: the result is [Abort] and carries
      the state reached (with the signals emitted so far). *)

From stdpp Require Import base option list sorting gmap strings.
From Stdlib Require Import ZArith NArith Lia SpecFloat.

Local Open Scope N_scope.

(** ** Results of calls that can stop at an assertion *)

Inductive result (S A : Type) : Type :=
| Ok (a : A) (s : S)
| Abort (s : S).
Arguments Ok {S A} a s.
Arguments Abort {S A} s.

Definition state_of {S A} (r : result S A) : S :=
  match r with Ok _ s => s | Abort s => s end.

Definition completed {S A} (r : result S A) : bool :=
  match r with Ok _ _ => true | Abort _ => false end.

Definition bind {S A B} (r : result S A) (k : A -> S -> result S B) : result S B :=
  match r with Ok a s => k a s | Abort s => Abort s end.

(** [for (x : xs) body], stopping at the first assertion failure. *)
Fixpoint for_each {S X} (body : X -> S -> result S unit) (xs : list X) (s : S)
  : result S unit :=
  match xs with
  | [] => Ok tt s
  | x :: xs' => bind (body x s) (fun _ s' => for_each body xs' s')
  end.

Definition wrap32 (n : N) : N := n mod 2 ^ 32.

(** [std::sort(first, last, less)]: the algorithm is unspecified; on a
    comparator that orders the elements totally every algorithm returns the
    same sequence, and the model inserts the elements one by one. *)
Fixpoint insert_sorted {A} (less : A -> A -> bool) (x : A) (l : list A) : list A :=
  match l with
  | [] => [x]
  | y :: l' => if less x y then x :: l else y :: insert_sorted less x l'
  end.

Definition std_sort {A} (less : A -> A -> bool) (l : list A) : list A :=
  foldr (insert_sorted less) [] l.

(** ** RemoteSolutionModel *)

Definition isnan (x : spec_float) : bool :=
  match x with S754_nan => true | _ => false end.

(** [std::numeric_limits<float>::quiet_NaN()] and [infinity()]. *)
Definition quiet_NaN : spec_float := S754_nan.
Definition infinity : spec_float := S754_infinity false.

(** [RemoteSolutionModel::Data]. *)
Record Data : Type := mkData {
  id : N;
  cost : spec_float;
  name : string;
  creation_rank : N;
  cost_rank : N }.

(** Modelled from the spec: the constructor [Data(id, cost, creation_rank,
    cost_rank)] is declared in remote_task_model.h, which is not part of the
    sources at hand; a new record takes the supplied cost, the given creation
    rank and cost rank, and an empty name. *)
Definition Data_new (i : N) (c : spec_float) (creation cost_rk : N) : Data :=
  mkData i c EmptyString (wrap32 creation) cost_rk.

Inductive SortOrder : Type := AscendingOrder | DescendingOrder.

#[global] Instance SortOrder_eq_dec : EqDecision SortOrder.
Proof. solve_decision. Defined.

(** Signals of the table model. *)
Inductive TableSignal : Type :=
| layoutAboutToBeChanged
| layoutChanged.

Record RemoteSolutionModel : Type := mkSolutions {
  data_ : list Data;
  (** iterators into [data_], one per displayed row *)
  sorted_ : list nat;
  sort_column_ : Z;
  sort_order_ : SortOrder;
  max_cost_ : spec_float;
  (** [persistentIndexList()]: (row, column) of the handles observers hold *)
  persistent_ : list (Z * Z);
  table_signals : list TableSignal }.

(** Modelled from the spec: the in-class initialisers of [sort_column_],
    [sort_order_] and [max_cost_] are in remote_task_model.h (not at hand);
    a fresh table has no active sort column and an unbounded cost ceiling. *)
Definition new_RemoteSolutionModel : RemoteSolutionModel :=
  mkSolutions [] [] (-1) AscendingOrder infinity [] [].

Definition isVisible (m : RemoteSolutionModel) (item : Data) : bool :=
  isnan (cost item) || SFltb (cost item) (max_cost_ m).

(** [detail::findById(c, id) - c.begin()], [None] for [c.end()]. *)
Fixpoint findById (c : list Data) (i : N) : option nat :=
  match c with
  | [] => None
  | item :: c' => if id item =? i then Some 0%nat else S <$> findById c' i
  end.

(** [findById] over a vector of iterators into [data]. *)
Fixpoint findById_sorted (data : list Data) (c : list nat) (i : N) : option nat :=
  match c with
  | [] => None
  | it :: c' =>
      match data !! it with
      | Some item => if id item =? i then Some 0%nat
                     else S <$> findById_sorted data c' i
      | None => S <$> findById_sorted data c' i
      end
  end.

(** [QString::compare]: negative, zero or positive. *)
Definition QString_compare (a b : string) : Z :=
  match String.compare a b with Eq => 0 | Lt => -1 | Gt => 1 end%Z.

(** The comparator handed to [std::sort] in [sortInternal]. *)
Definition sort_comp (m : RemoteSolutionModel) (left right : Data) : Z :=
  let comp :=
    if (sort_column_ m =? 1)%Z then
      if cost_rank left <? cost_rank right then (-1)%Z
      else if cost_rank right <? cost_rank left then 1%Z
      else 0%Z
    else if (sort_column_ m =? 2)%Z then QString_compare (name left) (name right)
    else 0%Z in
  if (comp =? 0)%Z
  then (if creation_rank left <? creation_rank right then (-1)%Z else 1%Z)
  else comp.

Definition sort_less (m : RemoteSolutionModel) (left right : Data) : bool :=
  match sort_order_ m with
  | AscendingOrder => (sort_comp m left right <? 0)%Z
  | DescendingOrder => (0 <=? sort_comp m left right)%Z
  end.

(** The iterators of the visible records, each with the record it points to. *)
Definition visible_iterators (m : RemoteSolutionModel) : list (nat * Data) :=
  filter (fun p => isVisible m p.2 = true) (imap (fun i d => (i, d)) (data_ m)).

Definition new_sorted (m : RemoteSolutionModel) : list (nat * Data) :=
  if (0 <=? sort_column_ m)%Z
  then std_sort (fun l r => sort_less m l.2 r.2) (visible_iterators m)
  else visible_iterators m.

(** [QAbstractTableModel::index(row, column)]: valid inside the table only. *)
Definition table_index (rows : nat) (row column : Z) : option (Z * Z) :=
  if ((0 <=? row) && (row <? Z.of_nat rows) && (0 <=? column) && (column <? 3))%Z
  then Some (row, column) else None.

(** One round of the loop that maps old handles to new ones; [cache] is
    [old_to_new_row]. A row outside the old view cannot be held by a live
    handle; it is mapped like a hidden record. *)
Definition remap_index (data : list Data) (old_sorted new_sorted_ : list nat)
    (acc : gmap Z Z * list (option (Z * Z))) (old : Z * Z)
  : gmap Z Z * list (option (Z * Z)) :=
  let old_row := old.1 in
  let new_row :=
    match acc.1 !! old_row with
    | Some r => r
    | None =>
        match old_sorted !! Z.to_nat old_row ≫= (data !!.) with
        | Some item =>
            match findById_sorted data new_sorted_ (id item) with
            | Some r => Z.of_nat r
            | None => (-1)%Z
            end
        | None => (-1)%Z
        end
    end in
  (<[old_row := new_row]> acc.1,
   acc.2 ++ [table_index (length new_sorted_) new_row old.2]).

Definition sortInternal (m : RemoteSolutionModel) : RemoteSolutionModel :=
  let old_indexes := persistent_ m in
  let old_sorted_ := sorted_ m in
  let sorted' := (new_sorted m).*1 in
  let new_indexes :=
    (foldl (remap_index (data_ m) old_sorted_ sorted') (∅, []) old_indexes).2 in
  mkSolutions (data_ m) sorted' (sort_column_ m) (sort_order_ m) (max_cost_ m)
    (omap (fun x => x) new_indexes)
    (table_signals m ++ [layoutAboutToBeChanged; layoutChanged]).

(** [RemoteSolutionModel::sort]. *)
Definition sort (m : RemoteSolutionModel) (column : Z) (order : SortOrder)
  : RemoteSolutionModel :=
  if decide (sort_column_ m = column ∧ sort_order_ m = order) then m
  else sortInternal
         (mkSolutions (data_ m) (sorted_ m) column order (max_cost_ m)
            (persistent_ m) (table_signals m)).

(** Pairs every id with its 1-based position in the list ([++rank] on a
    [uint32_t]). *)
Fixpoint with_ranks (rank : N) (ids : list N) : list (N * N) :=
  match ids with
  | [] => []
  | i :: ids' => let rank' := wrap32 (rank + 1) in (i, rank') :: with_ranks rank' ids'
  end.

Definition ids_by_creation (ids : list N) : list (N * N) :=
  std_sort (fun left right => left.1 <? right.1) (with_ranks 0 ids).

Definition set_data_ (m : RemoteSolutionModel) (d : list Data) : RemoteSolutionModel :=
  mkSolutions d (sorted_ m) (sort_column_ m) (sort_order_ m) (max_cost_ m)
    (persistent_ m) (table_signals m).

Definition set_cost_rank (item : Data) (r : N) : Data :=
  mkData (id item) (cost item) (name item) (creation_rank item) r.

(** The body of the loop over [ids_by_creation]; the state is the table and
    [size_changed]. *)
Definition process_id (default_cost : spec_float) (p : N * N)
    (st : RemoteSolutionModel * bool) : result (RemoteSolutionModel * bool) unit :=
  let '(m, size_changed) := st in
  let is_new :=
    match last (data_ m) with
    | None => true                       (* data_.empty() *)
    | Some back => id back <? p.1
    end in
  if is_new then
    let item := Data_new p.1 default_cost (1 + N.of_nat (length (data_ m))) p.2 in
    Ok tt (set_data_ m (data_ m ++ [item]), size_changed || isVisible m item)
  else
    match findById (data_ m) p.1 with
    | None => Abort st                   (* Q_ASSERT(data_it != data_.end()) *)
    | Some pos =>
        match data_ m !! pos with
        | None => Abort st
        | Some item =>
            let was_visible := isVisible m item in
            let item' := set_cost_rank item p.2 in
            Ok tt (set_data_ m (<[pos := item']> (data_ m)),
                   size_changed || negb (Bool.eqb (isVisible m item') was_visible))
        end
    end.

Definition processSolutionIDs (m : RemoteSolutionModel) (ids : list N)
    (default_cost : spec_float) : result RemoteSolutionModel bool :=
  match for_each (process_id default_cost) (ids_by_creation ids) (m, false) with
  | Ok _ (m', size_changed) => Ok size_changed (sortInternal m')
  | Abort (m', _) => Abort m'
  end.

(** Modelled from the spec: [numSuccessful()] and [numFailed()] are defined in
    remote_task_model.h (not at hand). The data model marks a failed solution
    by the cost +Infinity; the failure count is the number of such records and
    the success count the number of the others. *)
Definition is_failed (item : Data) : bool :=
  match cost item with S754_infinity false => true | _ => false end.

Definition numFailed (m : RemoteSolutionModel) : nat :=
  length (filter (fun d => is_failed d = true) (data_ m)).

Definition numSuccessful (m : RemoteSolutionModel) : nat :=
  length (filter (fun d => is_failed d = false) (data_ m)).

(** ** RemoteTaskModel *)

(** [NodeFlag] *)
Definition WAS_VISITED : N := 0x01.
Definition NAME_CHANGED : N := 0x02.

(** Modelled from the spec: [InterfaceFlag] (stage.h) and the model flag
    [IS_DESTROYED] (task_list_model.h) are declared in headers that are not
    at hand; the description feed carries "a bitset over READS_START,
    READS_END, WRITES_NEXT_START, WRITES_PREV_END", four distinct bits. *)
Definition READS_START : N := 0x01.
Definition READS_END : N := 0x02.
Definition WRITES_NEXT_START : N := 0x04.
Definition WRITES_PREV_END : N := 0x08.
Definition IS_DESTROYED : N := 0x02.

(** [flags & f] as a condition. *)
Definition has_flag (flags f : N) : bool := negb (N.land flags f =? 0).

(** [struct RemoteTaskModel::Node]; a [Node*] is a position in the arena,
    [None] is [nullptr]. The table is owned by the node and kept in it. *)
Record Node : Type := mkNode {
  parent_ : option nat;
  children_ : list nat;
  name_ : string;
  interface_flags_ : N;
  node_flags_ : N;
  solutions_ : RemoteSolutionModel }.

Definition new_Node (parent : option nat) : Node :=
  mkNode parent [] EmptyString 0 0 new_RemoteSolutionModel.

(** [Node::setName] *)
Definition setName (n : Node) (nm : string) : Node * bool :=
  if decide (nm = name_ n) then (n, false)
  else (mkNode (parent_ n) (children_ n) nm (interface_flags_ n) (node_flags_ n)
          (solutions_ n), true).

Definition set_node_flag (f : N) (n : Node) : Node :=
  mkNode (parent_ n) (children_ n) (name_ n) (interface_flags_ n)
    (N.lor (node_flags_ n) f) (solutions_ n).

Definition set_interface_flags (f : N) (n : Node) : Node :=
  mkNode (parent_ n) (children_ n) (name_ n) f (node_flags_ n) (solutions_ n).

Definition set_solutions (t : RemoteSolutionModel) (n : Node) : Node :=
  mkNode (parent_ n) (children_ n) (name_ n) (interface_flags_ n) (node_flags_ n) t.

Definition push_child (c : nat) (n : Node) : Node :=
  mkNode (parent_ n) (children_ n ++ [c]) (name_ n) (interface_flags_ n)
    (node_flags_ n) (solutions_ n).

(** [QModelIndex]: invalid, or a row and column with the internal pointer
    (the parent node) and whether [index.model()] is this model. *)
Inductive QModelIndex : Type :=
| InvalidIndex
| Index (row column : Z) (internalPointer : nat) (this_model : bool).

#[global] Instance QModelIndex_eq_dec : EqDecision QModelIndex.
Proof. solve_decision. Defined.

Definition row (i : QModelIndex) : Z :=
  match i with InvalidIndex => -1 | Index r _ _ _ => r end.
Definition column (i : QModelIndex) : Z :=
  match i with InvalidIndex => -1 | Index _ c _ _ => c end.

(** [QModelIndex::sibling(row, column)] is Qt's: the index of that row and
    column under the same parent. The code asks for a column of the row the
    index was made for. *)
Definition sibling (i : QModelIndex) (r c : Z) : QModelIndex :=
  match i with
  | InvalidIndex => InvalidIndex
  | Index _ _ p own => Index r c p own
  end.

Inductive Signal : Type :=
| rowsAboutToBeInserted (parent : QModelIndex) (first last : Z)
| rowsInserted (parent : QModelIndex) (first last : Z)
| dataChanged (topLeft bottomRight : QModelIndex).

Record RemoteTaskModel : Type := mkModel {
  (** the nodes allocated so far *)
  heap : list Node;
  id_to_stage_ : gmap N nat;
  flags_ : N;
  signals : list Signal }.

(** The root is the first node allocated. *)
Definition root_ : nat := 0%nat.

(** The constructor: the root node has ID 0. *)
Definition new_RemoteTaskModel : RemoteTaskModel :=
  mkModel [new_Node None] {[ 0 := root_ ]} 0 [].

Definition emit (sig : Signal) (m : RemoteTaskModel) : RemoteTaskModel :=
  mkModel (heap m) (id_to_stage_ m) (flags_ m) (signals m ++ [sig]).

Definition set_heap (h : list Node) (m : RemoteTaskModel) : RemoteTaskModel :=
  mkModel h (id_to_stage_ m) (flags_ m) (signals m).

Definition update_node (n : nat) (f : Node -> Node) (m : RemoteTaskModel)
  : RemoteTaskModel :=
  set_heap (alter f n (heap m)) m.

Definition register (i : N) (n : nat) (m : RemoteTaskModel) : RemoteTaskModel :=
  mkModel (heap m) (<[i := n]> (id_to_stage_ m)) (flags_ m) (signals m).

Definition set_flags_ (f : N) (m : RemoteTaskModel) : RemoteTaskModel :=
  mkModel (heap m) (id_to_stage_ m) f (signals m).

Definition was_visited (m : RemoteTaskModel) (n : nat) : bool :=
  match heap m !! n with
  | Some nd => has_flag (node_flags_ nd) WAS_VISITED
  | None => false
  end.

(** The row [r] of a child list, for an [int] row. *)
Definition child_at (children : list nat) (r : Z) : option nat :=
  if (r <? 0)%Z then None else children !! Z.to_nat r.

(** [node(const QModelIndex&)]: [Some None] is [nullptr], [None] a failed
    assertion. *)
Definition node (m : RemoteTaskModel) (index : QModelIndex) : option (option nat) :=
  match index with
  | InvalidIndex => Some (Some root_)
  | Index r _ parent own =>
      if negb own then Some None
      else match heap m !! parent ≫= (fun p => child_at (children_ p) r) with
           | Some n => Some (Some n)
           | None => None
           end
  end.

(** [node(uint32_t stage_id)] *)
Definition node_by_id (m : RemoteTaskModel) (stage_id : N) : option nat :=
  id_to_stage_ m !! stage_id.

(** The first row at which [n] is found in a child list. *)
Fixpoint row_of (children : list nat) (n : nat) : option nat :=
  match children with
  | [] => None
  | c :: cs => if decide (c = n) then Some 0%nat else S <$> row_of cs n
  end.

(** [index(const Node* n)]; [None] when the node is not found among its
    parent's children ([Q_ASSERT(false)]). *)
Definition index_of (m : RemoteTaskModel) (n : nat) : option QModelIndex :=
  if decide (n = root_) then Some InvalidIndex
  else
    nd ← heap m !! n;
    parent ← parent_ nd;
    p ← heap m !! parent;
    r ← row_of (children_ p) n;
    Some (Index (Z.of_nat r) 0 parent true).

(** Modelled from the spec: [columnCount()] is inherited from BaseTaskModel
    (not at hand); the column count is fixed at 3. *)
Definition columnCount : Z := 3.

(** [index(int row, int column, const QModelIndex& parent)]; marks the node
    of the row as visited. *)
Definition index (m : RemoteTaskModel) (r c : Z) (parent : QModelIndex)
  : result RemoteTaskModel QModelIndex :=
  if ((c <? 0) || (columnCount <=? c))%Z then Ok InvalidIndex m
  else
    match node m parent with
    | None => Abort m
    | Some None => Ok InvalidIndex m
    | Some (Some p) =>
        match heap m !! p ≫= (fun nd => child_at (children_ nd) r) with
        | None => Ok InvalidIndex m
        | Some child =>
            Ok (Index r c p true) (update_node child (set_node_flag WAS_VISITED) m)
        end
    end.

(** [rowCount(parent)] *)
Definition rowCount (m : RemoteTaskModel) (parent : QModelIndex) : Z :=
  if (0 <? column parent)%Z then 0%Z
  else match node m parent with
       | Some (Some n) =>
           match heap m !! n with
           | Some nd => Z.of_nat (length (children_ nd))
           | None => 0%Z
           end
       | _ => 0%Z
       end.

Inductive ItemDataRole : Type :=
| DisplayRole | EditRole | ForegroundRole | OtherRole.

#[global] Instance ItemDataRole_eq_dec : EqDecision ItemDataRole.
Proof. solve_decision. Defined.

(** The values [data] returns. *)
Inductive QVariant : Type :=
| QString_value (s : string)
| uint_value (n : nat)
| red
| palette_text_color
| BaseTaskModel_data.

(** [QModelIndex::parent().isValid()] for an index of this model. *)
Definition parent_is_valid (i : QModelIndex) : bool :=
  match i with
  | InvalidIndex => false
  | Index _ _ p own => own && negb (bool_decide (p = root_))
  end.

(** [data(index, role)]; [None] is the empty [QVariant()]. *)
Definition data (m : RemoteTaskModel) (i : QModelIndex) (role : ItemDataRole)
  : option QVariant :=
  match node m i with
  | Some (Some n) =>
      match heap m !! n with
      | None => None
      | Some nd =>
          match role with
          | EditRole | DisplayRole =>
              if (column i =? 0)%Z then Some (QString_value (name_ nd))
              else if (column i =? 1)%Z then Some (uint_value (numSuccessful (solutions_ nd)))
              else if (column i =? 2)%Z then Some (uint_value (numFailed (solutions_ nd)))
              else Some BaseTaskModel_data
          | ForegroundRole =>
              if ((column i =? 0)%Z && negb (parent_is_valid i))
              then Some (if has_flag (flags_ m) IS_DESTROYED then red
                         else palette_text_color)
              else Some BaseTaskModel_data
          | OtherRole => Some BaseTaskModel_data
          end
      end
  | _ => None
  end.

(** [setData(index, value, role)], [value.toString()] being [value]. *)
Definition setData (m : RemoteTaskModel) (i : QModelIndex) (value : string)
    (role : ItemDataRole) : result RemoteTaskModel bool :=
  match node m i with
  | None => Abort m
  | Some None => Ok false m
  | Some (Some n) =>
      if negb (column i =? 0)%Z || negb (bool_decide (role = EditRole))
      then Ok false m
      else
        let m1 := update_node n (fun nd => (setName nd value).1) m in
        let m2 := update_node n (set_node_flag NAME_CHANGED) m1 in
        Ok true (emit (dataChanged i i) m2)
  end.

(** *** The feeds *)

(** An entry of [TaskDescription::stages]. *)
Module StageDescription.
Record t : Type := mk { id : N; parent_id : N; name : string; flags : N }.
End StageDescription.

(** An entry of [TaskStatistics::stages]. *)
Module StageStatistics.
Record t : Type := mk { id : N; solved : list N; failed : list N }.
End StageStatistics.

Definition emit_if (b : bool) (sig : Signal) (m : RemoteTaskModel) : RemoteTaskModel :=
  if b then emit sig m else m.

(** The branch [if (!n)] of [processStageDescriptions]: a new node under
    [parent], registered under the stage id [i]. *)
Definition create_node (parent : nat) (i : N) (m : RemoteTaskModel)
  : result RemoteTaskModel nat :=
  match heap m !! parent, index_of m parent with
  | Some pnode, Some parentIdx =>
      let notify := has_flag (node_flags_ pnode) WAS_VISITED in
      let r := Z.of_nat (length (children_ pnode)) in
      let n := length (heap m) in
      let m1 := emit_if notify (rowsAboutToBeInserted parentIdx r r) m in
      let m2 := set_heap (alter (push_child n) parent (heap m1)
                          ++ [new_Node (Some parent)]) m1 in
      let m3 := emit_if notify (rowsInserted parentIdx r r) m2 in
      Ok n (register i n m3)
  | _, _ => Abort m
  end.

(** The loop over the four interface flags. *)
Definition interface_flags_from (flags : N) : N :=
  foldl (fun acc f => if has_flag flags f then N.lor acc f else N.ldiff acc f)
    0 [READS_START; READS_END; WRITES_NEXT_START; WRITES_PREV_END].

(** "set content of stage": the new name and interface flags of a node, and
    whether anything changed. [QString::fromStdString] is the identity on the
    strings of the model. *)
Definition update_content (s : StageDescription.t) (nd : Node) : Node * bool :=
  let '(nd1, changed1) :=
    if has_flag (node_flags_ nd) NAME_CHANGED then (nd, false)
    else setName nd (StageDescription.name s) in
  let old_flags := interface_flags_ nd1 in
  let nd2 :=
    set_interface_flags (interface_flags_from (StageDescription.flags s)) nd1 in
  (nd2, changed1 || negb (interface_flags_ nd2 =? old_flags)).

(** The rest of the loop body once [n] is known: the parent assertion, the
    update and the notification. *)
Definition set_content (s : StageDescription.t) (parent n : nat) (m : RemoteTaskModel)
  : result RemoteTaskModel unit :=
  match heap m !! n with
  | None => Abort m
  | Some nd =>
      if negb (bool_decide (parent_ nd = Some parent)) then Abort m
      else
        let '(nd2, changed) := update_content s nd in
        let m' := set_heap (<[n := nd2]> (heap m)) m in
        if changed && has_flag (node_flags_ nd2) WAS_VISITED then
          match index_of m' n with
          | None => Abort m'
          | Some idx => Ok tt (emit (dataChanged idx (sibling idx (row idx) 2)) m')
          end
        else Ok tt m'
  end.

(** The body of the loop of [processStageDescriptions]. *)
Definition process_description (s : StageDescription.t) (m : RemoteTaskModel)
  : result RemoteTaskModel unit :=
  match id_to_stage_ m !! StageDescription.parent_id s with
  | None => Ok tt m                         (* no parent found: continue *)
  | Some parent =>
      bind (match id_to_stage_ m !! StageDescription.id s with
            | Some n => Ok n m
            | None => create_node parent (StageDescription.id s) m
            end)
           (set_content s parent)
  end.

Definition processStageDescriptions (m : RemoteTaskModel)
    (msg : list StageDescription.t) : result RemoteTaskModel unit :=
  bind (for_each process_description msg m) (fun _ m1 =>
    match msg with
    | [] =>
        let m2 := set_flags_ (N.lor (flags_ m1) IS_DESTROYED) m1 in
        bind (index m2 0 0 InvalidIndex) (fun topLeft m3 =>
        bind (index m3 0 2 InvalidIndex) (fun bottomRight m4 =>
        Ok tt (emit (dataChanged topLeft bottomRight) m4)))
    | _ :: _ => Ok tt m1
    end).

(** A call on the table owned by node [n]. *)
Definition on_solutions (n : nat)
    (call : RemoteSolutionModel -> result RemoteSolutionModel bool)
    (m : RemoteTaskModel) : result RemoteTaskModel bool :=
  match heap m !! n with
  | None => Abort m
  | Some nd =>
      match call (solutions_ nd) with
      | Ok b t => Ok b (update_node n (set_solutions t) m)
      | Abort t => Abort (update_node n (set_solutions t) m)
      end
  end.

(** [processSolutionIDs(s.solved, NaN) || processSolutionIDs(s.failed, inf)]
    on the table of node [n]: the second call is evaluated only when the
    first one returns false. *)
Definition update_solutions (s : StageStatistics.t) (n : nat) (m : RemoteTaskModel)
  : result RemoteTaskModel bool :=
  bind (on_solutions n
          (fun t => processSolutionIDs t (StageStatistics.solved s) quiet_NaN) m)
    (fun solved_changed m1 =>
       if solved_changed then Ok true m1
       else on_solutions n
              (fun t => processSolutionIDs t (StageStatistics.failed s) infinity) m1).

(** The body of the loop of [processStageStatistics]. *)
Definition process_statistics (s : StageStatistics.t) (m : RemoteTaskModel)
  : result RemoteTaskModel unit :=
  match id_to_stage_ m !! StageStatistics.id s with
  | None => Ok tt m                         (* no stage: continue *)
  | Some n =>
      bind (update_solutions s n m) (fun changed m2 =>
        if changed && was_visited m2 n then
          match index_of m2 n with
          | None => Abort m2
          | Some idx =>
              Ok tt (emit (dataChanged (sibling idx (row idx) 1)
                                       (sibling idx (row idx) 2)) m2)
          end
        else Ok tt m2)
  end.

Definition processStageStatistics (m : RemoteTaskModel)
    (msg : list StageStatistics.t) : result RemoteTaskModel unit :=
  for_each process_statistics msg m.

(** * Auxiliary definitions of the statements *)

(** The record stored under id [i]. *)
Definition record_of (m : RemoteSolutionModel) (i : N) : option Data :=
  findById (data_ m) i ≫= (data_ m !!.).

(** The record displayed in row [r] of the sorted view. *)
Definition row_record (m : RemoteSolutionModel) (r : nat) : option Data :=
  sorted_ m !! r ≫= (data_ m !!.).

(** Scenario 3 of the specification. *)
Definition scenario3_first : result RemoteSolutionModel bool :=
  processSolutionIDs new_RemoteSolutionModel [30; 10; 20] quiet_NaN.

Definition scenario3_second : result RemoteSolutionModel bool :=
  processSolutionIDs (state_of scenario3_first) [10; 20; 30] quiet_NaN.

Definition creation_ranks (m : RemoteSolutionModel) (ids : list N) : list (option N) :=
  (fun i => creation_rank <$> record_of m i) <$> ids.

Definition cost_ranks (m : RemoteSolutionModel) (ids : list N) : list (option N) :=
  (fun i => cost_rank <$> record_of m i) <$> ids.

(** A stage whose solutions 1 and 3 succeeded and whose solution 2 failed:
    the solved ids arrive first, the failed id afterwards. *)
Definition interleaved_ids : result RemoteSolutionModel bool :=
  bind (processSolutionIDs new_RemoteSolutionModel [1; 3] quiet_NaN)
       (fun _ t => processSolutionIDs t [2] infinity).

(** The comparison of the active sort column alone. *)
Definition key_compare (m : RemoteSolutionModel) (a b : Data) : comparison :=
  if (sort_column_ m =? 1)%Z then N.compare (cost_rank a) (cost_rank b)
  else if (sort_column_ m =? 2)%Z then String.compare (name a) (name b)
  else Eq.

(** The sort column, then the creation rank. *)
Definition lex_compare (m : RemoteSolutionModel) (a b : Data) : comparison :=
  match key_compare m a b with
  | Eq => N.compare (creation_rank a) (creation_rank b)
  | c => c
  end.

Definition is_Lt (c : comparison) : bool :=
  match c with Lt => true | _ => false end.

(** Two records with the same value in the active sort column. *)
Definition same_sort_key (m : RemoteSolutionModel) (a b : Data) : Prop :=
  (sort_column_ m = 1%Z /\ cost_rank a = cost_rank b)
  \/ (sort_column_ m = 2%Z /\ name a = name b).

(** A table with two solutions, sorted by name in descending order. *)
Definition two_unnamed_descending : RemoteSolutionModel :=
  state_of (processSolutionIDs (sort new_RemoteSolutionModel 2 DescendingOrder)
              [1; 2] quiet_NaN).

(** *** Relations between a model and a later one *)

(** What the feeds leave alone in a node: its flags, its parent, a manually
    set name, and the children it already has. *)
Definition node_le (nd nd' : Node) : Prop :=
  node_flags_ nd' = node_flags_ nd
  /\ parent_ nd' = parent_ nd
  /\ (has_flag (node_flags_ nd) NAME_CHANGED = true -> name_ nd' = name_ nd)
  /\ children_ nd `prefix_of` children_ nd'.

(** [m'] extends [m]: the nodes of [m] are still there, new nodes carry no
    flag, registered ids keep their node and new ids name new nodes. *)
Definition ext (m m' : RemoteTaskModel) : Prop :=
  (forall n nd, heap m !! n = Some nd ->
     exists nd', heap m' !! n = Some nd' /\ node_le nd nd')
  /\ (forall n nd', heap m !! n = None -> heap m' !! n = Some nd' ->
        node_flags_ nd' = 0)
  /\ (forall i h, id_to_stage_ m !! i = Some h -> id_to_stage_ m' !! i = Some h)
  /\ (forall i h, id_to_stage_ m !! i = None -> id_to_stage_ m' !! i = Some h ->
        heap m !! h = None).

(** The tree is well formed: registered ids name allocated nodes, no node has
    two ids, and parents are allocated. *)
Definition wf (m : RemoteTaskModel) : Prop :=
  (forall i h, id_to_stage_ m !! i = Some h -> is_Some (heap m !! h))
  /\ (forall i j h, id_to_stage_ m !! i = Some h -> id_to_stage_ m !! j = Some h -> i = j)
  /\ (forall n nd p, heap m !! n = Some nd -> parent_ nd = Some p ->
        is_Some (heap m !! p)).

(** Node [n] carries the name [v], set by hand. *)
Definition manually_named (m : RemoteTaskModel) (n : nat) (v : string) : Prop :=
  exists nd, heap m !! n = Some nd /\ name_ nd = v
             /\ has_flag (node_flags_ nd) NAME_CHANGED = true.

(** What happens to a model between two renamings: batches of the two feeds
    and observers asking for indexes. *)
Inductive Event : Type :=
| descriptions (msg : list StageDescription.t)
| statistics (msg : list StageStatistics.t)
| traversal (r c : Z) (parent : QModelIndex).

Definition apply_event (m : RemoteTaskModel) (e : Event) : RemoteTaskModel :=
  match e with
  | descriptions msg => state_of (processStageDescriptions m msg)
  | statistics msg => state_of (processStageStatistics m msg)
  | traversal r c parent => state_of (index m r c parent)
  end.

Definition apply_events (m : RemoteTaskModel) (events : list Event) : RemoteTaskModel :=
  foldl apply_event m events.

(** A sequence of description batches. *)
Definition apply_descriptions (m : RemoteTaskModel)
    (batches : list (list StageDescription.t)) : RemoteTaskModel :=
  foldl (fun m' msg => state_of (processStageDescriptions m' msg)) m batches.

(** The node of row 0 under the root, if there is one. *)
Definition first_top_level (m : RemoteTaskModel) : option nat :=
  heap m !! root_ ≫= (fun nd => child_at (children_ nd) 0).

(** [index(0, c)] as the empty batch computes it. *)
Definition top_row_index (m : RemoteTaskModel) (c : Z) : QModelIndex :=
  match first_top_level m with
  | Some _ => Index 0 c root_ true
  | None => InvalidIndex
  end.

(** Scenario 1 of the specification: one stage under the root, never
    visited. *)
Definition root_stage : StageDescription.t :=
  StageDescription.mk 1 0 "root-stage" 0.

Definition one_stage : RemoteTaskModel :=
  state_of (processStageDescriptions new_RemoteTaskModel [root_stage]).

(** The same tree after an observer asked for the index of the stage. *)
Definition one_stage_visited : RemoteTaskModel :=
  state_of (index one_stage 0 0 InvalidIndex).

(** The node of the stage in [one_stage]. *)
Definition root_stage_node : Node :=
  mkNode (Some root_) [] "root-stage" 0 0 new_RemoteSolutionModel.

(** The index a signal is about. *)
Definition signal_index (sig : Signal) : QModelIndex :=
  match sig with
  | rowsAboutToBeInserted parent _ _ => parent
  | rowsInserted parent _ _ => parent
  | dataChanged topLeft _ => topLeft
  end.

(** The signal, emitted by a call that took the model from [m] to [m'], is
    about a node that was marked as visited before the call. *)
Definition about_visited (m m' : RemoteTaskModel) (sig : Signal) : Prop :=
  exists n, node m' (signal_index sig) = Some (Some n) /\ was_visited m n = true.

(** The table of a node. *)
Definition table_of (m : RemoteTaskModel) (n : nat) : option RemoteSolutionModel :=
  solutions_ <$> heap m !! n.

(** Statistics of the stage of scenario 1: solution 1 solved, solution 2
    failed; and: solution 2 failed, nothing solved. *)
Definition solved_and_failed : StageStatistics.t := StageStatistics.mk 1 [1] [2].
Definition failed_only : StageStatistics.t := StageStatistics.mk 1 [] [2].

(** Two descriptions of the same stage in one batch. *)
Definition described_twice : list StageDescription.t :=
  [StageDescription.mk 1 0 "a" 0; StageDescription.mk 1 0 "b" 0].

(** The signals emitted between [m] and [m'] are all about nodes that were
    visited in [m]. *)
Definition only_visited_notified (m m' : RemoteTaskModel) : Prop :=
  exists new : list Signal,
    signals m' = signals m ++ new /\ Forall (about_visited m m') new.

Definition gated_step (m m' : RemoteTaskModel) : Prop :=
  ext m m' /\ only_visited_notified m m'.

(** [m'] differs from [m] in solution tables only. *)
Definition same_tree (m m' : RemoteTaskModel) : Prop :=
  set_solutions new_RemoteSolutionModel <$> heap m'
  = set_solutions new_RemoteSolutionModel <$> heap m
  /\ id_to_stage_ m' = id_to_stage_ m
  /\ flags_ m' = flags_ m
  /\ signals m' = signals m.

(** The stage of the description [s] exists and already has its content. *)
Definition described (s : StageDescription.t) (m : RemoteTaskModel) : Prop :=
  exists n nd,
    id_to_stage_ m !! StageDescription.id s = Some n
    /\ heap m !! n = Some nd
    /\ interface_flags_ nd = interface_flags_from (StageDescription.flags s)
    /\ (has_flag (node_flags_ nd) NAME_CHANGED = true
        \/ name_ nd = StageDescription.name s).

(** The creation ranks of a table count its records: 1, 2, 3, ... *)
Definition ranks_in_order (t : RemoteSolutionModel) : Prop :=
  creation_rank <$> data_ t
  = (fun k => wrap32 (N.of_nat (S k))) <$> seq 0 (length (data_ t)).

(** * The rest of the model *)

(** ** Navigation in the tree *)

(** An index as a caller hands it to [parent]: an index whose internal
    pointer is set (or the invalid index), or a valid index whose internal
    pointer is null, as the indexes of a table model are. *)
Inductive ReceivedIndex : Type :=
| with_pointer (i : QModelIndex)
| null_pointer (row column : Z) (this_model : bool).

(** [parent(const QModelIndex& child)]; [None] when [Q_ASSERT(p)] fails on a
    null internal pointer, which is tested before the model of the index,
    and when [index(p)] fails its assertion. *)
Definition parent (m : RemoteTaskModel) (child : ReceivedIndex)
  : option QModelIndex :=
  match child with
  | with_pointer InvalidIndex => Some InvalidIndex
  | null_pointer _ _ _ => None
  | with_pointer (Index _ _ p own) =>
      if negb own || bool_decide (p = root_) then Some InvalidIndex
      else index_of m p
  end.

(** [flags(index)]: whether [Qt::ItemIsEditable] is added to the flags of
    [BaseTaskModel]. *)
Definition flags_adds_ItemIsEditable (i : QModelIndex) : bool := (column i =? 0)%Z.

(** [getSolutionModel(uint32_t stage_id)] and
    [getSolutionModel(const QModelIndex& index)]: the node that owns the table,
    [None] for [nullptr]. *)
Definition getSolutionModel_by_id (m : RemoteTaskModel) (stage_id : N) : option nat :=
  node_by_id m stage_id.

Definition getSolutionModel (m : RemoteTaskModel) (i : QModelIndex)
  : option (option nat) :=
  node m i.

(** The tree is consistent: the root has no parent and every other node has
    one; a node is a child of its parent, exactly once, and the parent
    pointer of a child is the node that lists it; every node is registered. *)
Definition tree_ok (m : RemoteTaskModel) : Prop :=
  (exists rn, heap m !! root_ = Some rn /\ parent_ rn = None)
  /\ (forall n nd, heap m !! n = Some nd -> n <> root_ ->
        exists p pn, parent_ nd = Some p /\ heap m !! p = Some pn
                     /\ n ∈ children_ pn)
  /\ (forall p pn c, heap m !! p = Some pn -> c ∈ children_ pn ->
        exists cn, heap m !! c = Some cn /\ parent_ cn = Some p)
  /\ (forall p pn, heap m !! p = Some pn -> NoDup (children_ pn))
  /\ (forall n, is_Some (heap m !! n) -> exists i, id_to_stage_ m !! i = Some n).

(** Well formed and consistent. *)
Definition consistent (m : RemoteTaskModel) : Prop := wf m /\ tree_ok m.

(** Everything an observer or a feed can do to the tree. *)
Inductive Operation : Type :=
| op_descriptions (msg : list StageDescription.t)
| op_statistics (msg : list StageStatistics.t)
| op_index (r c : Z) (parent : QModelIndex)
| op_setData (i : QModelIndex) (value : string) (role : ItemDataRole).

Definition apply_operation (m : RemoteTaskModel) (o : Operation) : RemoteTaskModel :=
  match o with
  | op_descriptions msg => state_of (processStageDescriptions m msg)
  | op_statistics msg => state_of (processStageStatistics m msg)
  | op_index r c parent => state_of (index m r c parent)
  | op_setData i value role => state_of (setData m i value role)
  end.

Definition apply_operations (m : RemoteTaskModel) (ops : list Operation)
  : RemoteTaskModel :=
  foldl apply_operation m ops.

(** Two stages under the root and a child of the first one; the first stage
    has been visited. *)
Definition small_tree : RemoteTaskModel :=
  apply_operations new_RemoteTaskModel
    [op_descriptions [StageDescription.mk 1 0 "first" 1;
                      StageDescription.mk 2 0 "second" 2;
                      StageDescription.mk 3 1 "inner" 4];
     op_index 0 0 InvalidIndex].

(** What no operation undoes in a node: its parent, the rows of its
    children, and the two node flags once they are set. *)
Definition node_grows (nd nd' : Node) : Prop :=
  parent_ nd' = parent_ nd
  /\ children_ nd `prefix_of` children_ nd'
  /\ (has_flag (node_flags_ nd) WAS_VISITED = true ->
      has_flag (node_flags_ nd') WAS_VISITED = true)
  /\ (has_flag (node_flags_ nd) NAME_CHANGED = true ->
      has_flag (node_flags_ nd') NAME_CHANGED = true).

Definition grows (m m' : RemoteTaskModel) : Prop :=
  (forall n nd, heap m !! n = Some nd ->
     exists nd', heap m' !! n = Some nd' /\ node_grows nd nd')
  /\ (forall i h, id_to_stage_ m !! i = Some h -> id_to_stage_ m' !! i = Some h)
  /\ (has_flag (flags_ m) IS_DESTROYED = true ->
      has_flag (flags_ m') IS_DESTROYED = true).

(** ** The rest of the solution table *)

Definition isinf (x : spec_float) : bool :=
  match x with S754_infinity _ => true | _ => false end.

(** [RemoteSolutionModel::rowCount] and [columnCount]. *)
Definition table_rowCount (t : RemoteSolutionModel) : Z := Z.of_nat (length (sorted_ t)).
Definition table_columnCount : Z := 3.

(** The roles [RemoteSolutionModel::data] distinguishes, and the values it
    returns. *)
Inductive TableRole : Type :=
| UserRole | ToolTipRole | table_DisplayRole | table_ForegroundRole
| TextAlignmentRole | table_OtherRole.

Inductive TableVariant : Type :=
| uint32_variant (n : N)
| float_variant (c : spec_float)
| QString_variant (s : string)
| infinity_sign
| red_variant
| AlignLeft
| AlignRight.

(** [RemoteSolutionModel::data(index, role)] for the index [(row, column)] of
    the table, [None] being the invalid index. The outer [None] is a failed
    assertion or a row outside [sorted_]; the inner [None] is [QVariant()].
    A display column outside 0..2 falls through to the foreground case. *)
Definition table_data (t : RemoteSolutionModel) (i : option (Z * Z)) (role : TableRole)
  : option (option TableVariant) :=
  '(row, col) ← i;
  item ← (if (row <? 0)%Z then None else sorted_ t !! Z.to_nat row) ≫= (data_ t !!.);
  let foreground := if isinf (cost item) then Some red_variant else None in
  Some
    match role with
    | UserRole | ToolTipRole => Some (uint32_variant (id item))
    | table_DisplayRole =>
        if (col =? 0)%Z then Some (uint32_variant (creation_rank item))
        else if (col =? 1)%Z then
          if isinf (cost item) then Some infinity_sign
          else if isnan (cost item) then None
          else Some (float_variant (cost item))
        else if (col =? 2)%Z then Some (QString_variant (name item))
        else foreground
    | table_ForegroundRole => foreground
    | TextAlignmentRole => Some (if (col =? 2)%Z then AlignLeft else AlignRight)
    | table_OtherRole => None
    end.

(** The signal [dataChanged(topLeft, bottomRight)] of the table; it is only
    emitted for a valid [topLeft]. *)
Inductive TableDataChanged : Type :=
| table_dataChanged (topLeft : Z * Z) (bottomRight : option (Z * Z)).

Definition set_cost (item : Data) (c : spec_float) : Data :=
  mkData (id item) c (name item) (creation_rank item) (cost_rank item).

Definition set_name (item : Data) (nm : string) : Data :=
  mkData (id item) (cost item) nm (creation_rank item) (cost_rank item).

(** [RemoteSolutionModel::setData(id, cost, name)]; the signal it emits, if
    any, is returned beside the table. [item.cost != cost] is the comparison
    of floats: it holds whenever one of the two is NaN. *)
Definition table_setData (t : RemoteSolutionModel) (i : N) (c : spec_float)
    (nm : string) : RemoteSolutionModel * option TableDataChanged :=
  match findById (data_ t) i ≫= (fun pos => (fun item => (pos, item)) <$> data_ t !! pos) with
  | None => (t, None)
  | Some (pos, item) =>
      let found :=
        match findById_sorted (data_ t) (sorted_ t) i with
        | Some r => Z.of_nat r
        | None => Z.of_nat (length (sorted_ t))
        end in
      let row := if (table_rowCount t <=? found)%Z then (-1)%Z else found in
      let index := table_index (length (sorted_ t)) row in
      let cost_differs := negb (SFeqb (cost item) c) in
      let name_differs := negb (bool_decide (name item = nm)) in
      let item1 := if cost_differs then set_cost item c else item in
      let tl1 := if cost_differs then index 1%Z else None in
      let item2 := if name_differs then set_name item1 nm else item1 in
      let br2 := if name_differs then index 2%Z else tl1 in
      let tl2 := if name_differs then (if tl1 is Some _ then tl1 else br2) else tl1 in
      (set_data_ t (<[pos := item2]> (data_ t)),
       match tl2 with
       | Some tl => Some (table_dataChanged tl br2)
       | None => None
       end)
  end.

(** The ids of the table are strictly ascending. *)
Definition ascending_ids (t : RemoteSolutionModel) : Prop :=
  StronglySorted N.lt (id <$> data_ t).

(** Two records that differ in their cost rank at most. *)
Definition same_solution (a b : Data) : Prop :=
  id a = id b /\ cost a = cost b /\ name a = name b
  /\ creation_rank a = creation_rank b.

(** Everything that can happen to a table. *)
Inductive TableOperation : Type :=
| table_processSolutionIDs (ids : list N) (default_cost : spec_float)
| table_sort (column : Z) (order : SortOrder)
| table_detail (i : N) (c : spec_float) (nm : string).

Definition apply_table_operation (t : RemoteSolutionModel) (o : TableOperation)
  : RemoteSolutionModel :=
  match o with
  | table_processSolutionIDs ids default_cost =>
      state_of (processSolutionIDs t ids default_cost)
  | table_sort column order => sort t column order
  | table_detail i c nm => (table_setData t i c nm).1
  end.

Definition apply_table_operations (t : RemoteSolutionModel)
    (ops : list TableOperation) : RemoteSolutionModel :=
  foldl apply_table_operation t ops.

(** The records that [isVisible] lets through. *)
Definition visible_records (t : RemoteSolutionModel) : list Data :=
  filter (fun d => isVisible t d = true) (data_ t).

(** A table with the solutions 1 and 3. *)
Definition table_1_3 : RemoteSolutionModel :=
  state_of (processSolutionIDs new_RemoteSolutionModel [3; 1] quiet_NaN).

(** What a pass over solution ids may do to a table: every stored record
    keeps its position, id, cost, name and creation rank; a record behind the
    old end carries the default cost, no name and its 1-based position as
    creation rank; the sort parameters and the cost ceiling stay. *)
Definition records_kept (default_cost : spec_float) (t t' : RemoteSolutionModel)
  : Prop :=
  (forall pos item, data_ t !! pos = Some item ->
     exists item', data_ t' !! pos = Some item' /\ same_solution item item')
  /\ (forall pos item', data_ t' !! pos = Some item' ->
        (length (data_ t) <= pos)%nat ->
        cost item' = default_cost /\ name item' = EmptyString
        /\ creation_rank item' = wrap32 (1 + N.of_nat pos))
  /\ sort_column_ t' = sort_column_ t
  /\ sort_order_ t' = sort_order_ t
  /\ max_cost_ t' = max_cost_ t.

(** The solutions 1 and 3 of [table_1_3] with the cost column as sort
    column: solution 3 has the better cost rank. *)
Definition by_cost_table : RemoteSolutionModel :=
  sort table_1_3 1 AscendingOrder.

(** [table_1_3] with a handle on column 1 of its first row at the moment
    [sort] hands over to [sortInternal]. *)
Definition table_with_handle : RemoteSolutionModel :=
  mkSolutions (data_ table_1_3) (sorted_ table_1_3) 1 AscendingOrder
    (max_cost_ table_1_3) [(0, 1)%Z] [].

(** The row in which the view [new_view] displays the record of row
    [old_row] of the view of [m]; -1 if it displays it nowhere. *)
Definition new_row_of (m : RemoteSolutionModel) (new_view : list nat) (old_row : Z)
  : Z :=
  match sorted_ m !! Z.to_nat old_row ≫= (data_ m !!.) with
  | Some item =>
      match findById_sorted (data_ m) new_view (id item) with
      | Some r => Z.of_nat r
      | None => (-1)%Z
      end
  | None => (-1)%Z
  end.

(** The view is sound: no position is displayed twice and every displayed
    position holds a record. *)
Definition view_ok (t : RemoteSolutionModel) : Prop :=
  NoDup (sorted_ t) /\ Forall (fun pos => (pos < length (data_ t))%nat) (sorted_ t).

(** [item.cost != cost] and [item.name != name] in [setData]. *)
Definition cost_differs (item : Data) (c : spec_float) : bool :=
  negb (SFeqb (cost item) c).

Definition name_differs (item : Data) (nm : string) : bool :=
  negb (bool_decide (name item = nm)).

(** [by_cost_table] after a change of the cost of solution 1. *)
Definition table_after_detail : RemoteSolutionModel :=
  apply_table_operations new_RemoteSolutionModel
    [table_processSolutionIDs [3; 1] quiet_NaN;
     table_sort 1 AscendingOrder;
     table_detail 1 (S754_finite false 3 0) "approach"].

(** ** Solutions in full *)

(** Modelled from the spec: the messages of [moveit_task_constructor_msgs]
    are declared outside the sources at hand. The code reads of a
    sub-solution its id, its stage id and its cost, and of a sub-trajectory
    its id, its stage id, its cost and its name. *)
Module SubSolution.
Record t : Type := mk { id : N; stage_id : N; cost : spec_float }.
End SubSolution.

Module SubTrajectory.
Record t : Type := mk { id : N; stage_id : N; cost : spec_float; name : string }.
End SubTrajectory.

Module Solution.
Record t : Type :=
  mk { sub_solution : list SubSolution.t; sub_trajectory : list SubTrajectory.t }.
End Solution.

(** Modelled from the spec: [DisplaySolution] is declared outside the sources
    at hand. The code builds such an object in two ways: from a message
    ([setFromMessage], against the one planning scene of the model), and as
    the part [i] of another object ([DisplaySolution(s, i)]). *)
Inductive DisplaySolution : Type :=
| setFromMessage (msg : Solution.t)
| sub_display (s : DisplaySolution) (i : N).

(** The model with the part of its state the solutions need:
    [id_to_solution_], whose pointers are never null, and the [dataChanged]
    signals of the tables, each with the node that owns the table. *)
Record SolutionStore : Type := mkStore {
  model_ : RemoteTaskModel;
  id_to_solution_ : gmap N DisplaySolution;
  table_changes : list (nat * TableDataChanged) }.

Definition new_SolutionStore (m : RemoteTaskModel) : SolutionStore :=
  mkStore m ∅ [].

Definition cache_solution (i : N) (s : DisplaySolution) (d : SolutionStore)
  : SolutionStore :=
  mkStore (model_ d) (<[i := s]> (id_to_solution_ d)) (table_changes d).

(** [node(stage_id)->solutions_->setData(i, c, nm)], skipped when no node has
    the stage id. A registered pointer to a node that was never allocated
    cannot be followed. *)
Definition solutions_setData (stage : N) (i : N) (c : spec_float) (nm : string)
    (d : SolutionStore) : result SolutionStore unit :=
  match node_by_id (model_ d) stage with
  | None => Ok tt d
  | Some n =>
      match heap (model_ d) !! n with
      | None => Abort d
      | Some nd =>
          let r := table_setData (solutions_ nd) i c nm in
          Ok tt (mkStore (update_node n (set_solutions r.1) (model_ d))
                   (id_to_solution_ d)
                   (table_changes d
                    ++ match r.2 with Some sig => [(n, sig)] | None => [] end))
      end
  end.

(** The sub-solution that makes a message a top-level solution:
    the first one, if it belongs to stage 1 and has an id other than 0. *)
Definition top_level (msg : Solution.t) : option SubSolution.t :=
  match Solution.sub_solution msg with
  | [] => None
  | front :: _ =>
      if negb (SubSolution.stage_id front =? 1) || (SubSolution.id front =? 0)
      then None else Some front
  end.

(** The body of the loop over [msg.sub_solution]. *)
Definition store_sub_solution (sub : SubSolution.t) (d : SolutionStore)
  : result SolutionStore unit :=
  solutions_setData (SubSolution.stage_id sub) (SubSolution.id sub)
    (SubSolution.cost sub) EmptyString d.

(** The body of the loop over [msg.sub_trajectory]; [i] is the local
    variable of that name, which the loop never changes. [insert] leaves an
    entry that exists as it is. *)
Definition store_sub_trajectory (s : DisplaySolution) (i : N)
    (t : SubTrajectory.t) (d : SolutionStore) : result SolutionStore unit :=
  if SubTrajectory.id t =? 0 then Ok tt d
  else
    match id_to_solution_ d !! SubTrajectory.id t with
    | Some _ => Ok tt d
    | None =>
        solutions_setData (SubTrajectory.stage_id t) (SubTrajectory.id t)
          (SubTrajectory.cost t) (SubTrajectory.name t)
          (cache_solution (SubTrajectory.id t) (sub_display s i) d)
    end.

(** [RemoteTaskModel::processSolutionMessage]. *)
Definition processSolutionMessage (d : SolutionStore) (msg : Solution.t)
  : result SolutionStore DisplaySolution :=
  let s := setFromMessage msg in
  match top_level msg with
  | None => Ok s d
  | Some front =>
      bind (for_each store_sub_solution (Solution.sub_solution msg)
              (cache_solution (SubSolution.id front) s d)) (fun _ d1 =>
      bind (for_each (store_sub_trajectory s 0) (Solution.sub_trajectory msg) d1)
        (fun _ d2 => Ok s d2))
  end.

(** [QVariant::toUInt]. *)
Definition toUInt (v : option TableVariant) : N :=
  match v with Some (uint32_variant n) => n | _ => 0 end.

(** [RemoteTaskModel::getSolution(index)]. The index is one of the table of
    a node: the node and the row and column, [None] for an invalid index.
    [client] is [get_solution_client_] and answers a request for an id with a
    message, or fails. The sibling in column 0 is invalid when the row is
    not in the table, and the data of an invalid index are an invalid
    [QVariant]. *)
Definition getSolution (d : SolutionStore) (client : option (N -> option Solution.t))
    (index : option (nat * (Z * Z))) : result SolutionStore (option DisplaySolution) :=
  match index with
  | None => Abort d                      (* Q_ASSERT(index.isValid()) *)
  | Some (n, (r, _)) =>
      match heap (model_ d) !! n with
      | None => Abort d
      | Some nd =>
          let t := solutions_ nd in
          let value :=
            match table_index (length (sorted_ t)) r 0 with
            | None => Some None
            | Some sibling => table_data t (Some sibling) UserRole
            end in
          match value with
          | None => Abort d
          | Some v =>
              let i := toUInt v in
              match id_to_solution_ d !! i with
              | Some s => Ok (Some s) d
              | None =>
                  match client with
                  | None => Ok None d
                  | Some call =>
                      match call i with
                      | None => Ok None d
                      | Some response =>
                          bind (processSolutionMessage d response)
                            (fun s d' => Ok (Some s) d')
                      end
                  end
              end
          end
      end
  end.

(** What [setData] may change in a table: costs and names. *)
Definition details_only (t t' : RemoteSolutionModel) : Prop :=
  (fun item => (id item, creation_rank item, cost_rank item)) <$> data_ t'
  = (fun item => (id item, creation_rank item, cost_rank item)) <$> data_ t
  /\ sorted_ t' = sorted_ t
  /\ persistent_ t' = persistent_ t
  /\ sort_column_ t' = sort_column_ t
  /\ sort_order_ t' = sort_order_ t
  /\ max_cost_ t' = max_cost_ t
  /\ table_signals t' = table_signals t.

(** A store whose stage 1 has the solutions 1 and 3, and a message with the
    top-level solution 3 and two sub-trajectories of a stage 2 that is not
    known. *)
Definition store_1_3 : SolutionStore :=
  new_SolutionStore
    (state_of (processStageStatistics one_stage [StageStatistics.mk 1 [3; 1] []])).

Definition solution_3 : Solution.t :=
  Solution.mk [SubSolution.mk 3 1 (S754_finite false 3 0)]
    [SubTrajectory.mk 7 2 (S754_finite false 1 0) "approach";
     SubTrajectory.mk 8 2 (S754_finite false 1 1) "grasp"].

(** What the solution messages may change in a model: costs and names in the
    tables of its nodes. *)
Definition only_details (m m' : RemoteTaskModel) : Prop :=
  same_tree m m'
  /\ forall n nd, heap m !! n = Some nd ->
       exists nd', heap m' !! n = Some nd'
                   /\ details_only (solutions_ nd) (solutions_ nd').

(** A service that knows the solution 3 only. *)
Definition service_3 (i : N) : option Solution.t :=
  if i =? 3 then Some solution_3 else None.

(** ** The model as a whole *)

(** A table with ascending ids and a sound view; every table of a model. *)
Definition table_ok (t : RemoteSolutionModel) : Prop :=
  ascending_ids t /\ view_ok t.

Definition tables_ok (m : RemoteTaskModel) : Prop :=
  forall n nd, heap m !! n = Some nd -> table_ok (solutions_ nd).

(** Everything that can happen to a model and its solutions: the operations
    on the tree, a solution message, and a request for the solution of a
    row. *)
Inductive StoreOperation : Type :=
| on_tree (o : Operation)
| solution_message (msg : Solution.t)
| solution_request (client : option (N -> option Solution.t))
    (index : option (nat * (Z * Z))).

Definition apply_store_operation (d : SolutionStore) (o : StoreOperation)
  : SolutionStore :=
  match o with
  | on_tree o =>
      mkStore (apply_operation (model_ d) o) (id_to_solution_ d) (table_changes d)
  | solution_message msg => state_of (processSolutionMessage d msg)
  | solution_request client index => state_of (getSolution d client index)
  end.

Definition apply_store_operations (d : SolutionStore) (ops : list StoreOperation)
  : SolutionStore :=
  foldl apply_store_operation d ops.

(** The visited stage of [one_stage_visited] described under a new name and
    with new interface flags, and a child of it described for the first
    time. *)
Definition renamed_with_child : list StageDescription.t :=
  [StageDescription.mk 1 0 "renamed" 3; StageDescription.mk 2 1 "child" 0].
(** * Properties of the solution table *)


Section Visibility.
Variable m : RemoteSolutionModel.
Variable item : Data.

Lemma isVisible_nan : cost item = S754_nan -> isVisible m item = true.
Proof. intros H. unfold isVisible. now rewrite H. Qed.

(** A cost that is a number (finite or zero) is compared with the ceiling. *)
Lemma isVisible_number :
  isnan (cost item) = false ->
  isVisible m item = SFltb (cost item) (max_cost_ m).
Proof. intros H. unfold isVisible. now rewrite H. Qed.

Lemma isVisible_failed : cost item = infinity -> isVisible m item = false.
Proof.
  intros H. unfold isVisible, SFltb, SFcompare, infinity in *. rewrite H.
  simpl. now destruct (max_cost_ m) as [| [] | |].
Qed.
End Visibility.

(** C3: the visibility law fails for failed solutions. A record that
    [processSolutionIDs] creates for a failed solution has the cost +Infinity;
    [isVisible] hides it under every ceiling, the unbounded ceiling +Infinity
    included, because [+Infinity < +Infinity] is false. *)
Theorem C3_failed_record_hidden_under_every_ceiling :
  forall (m : RemoteSolutionModel) (i creation rk : N),
    isVisible m (Data_new i infinity creation rk) = false
    /\ isVisible new_RemoteSolutionModel (Data_new i infinity creation rk) = false
    /\ max_cost_ new_RemoteSolutionModel = infinity.
Proof.
  intros m i creation rk. split; [|split].
  - now apply isVisible_failed.
  - reflexivity.
  - reflexivity.
Qed.


(** C2, as stated, does not hold: after the two calls of scenario 3 the
    creation ranks of the ids 10, 20, 30 are not 2, 3, 1. *)
Lemma C2_creation_rank_is_not_first_sight :
  ~ (creation_ranks (state_of scenario3_first) [10; 20; 30] = [Some 2; Some 3; Some 1]
     /\ creation_ranks (state_of scenario3_second) [10; 20; 30] = [Some 2; Some 3; Some 1]
     /\ cost_ranks (state_of scenario3_second) [10; 20; 30] = [Some 1; Some 2; Some 3]).
Proof. intros [H _]. vm_compute in H. discriminate H. Qed.

(** C2, amended: the ids of a call are ordered by id before they are stored,
    so the creation rank follows the id. In scenario 3 both calls complete,
    the ids 10, 20, 30 have the creation ranks 1, 2, 3 after the first and
    after the second call, and the cost ranks 2, 3, 1 after the first and
    1, 2, 3 after the second call. *)
Theorem C2_creation_rank_follows_id :
  completed scenario3_first = true
  /\ completed scenario3_second = true
  /\ creation_ranks (state_of scenario3_first) [10; 20; 30] = [Some 1; Some 2; Some 3]
  /\ creation_ranks (state_of scenario3_second) [10; 20; 30] = [Some 1; Some 2; Some 3]
  /\ cost_ranks (state_of scenario3_first) [10; 20; 30] = [Some 2; Some 3; Some 1]
  /\ cost_ranks (state_of scenario3_second) [10; 20; 30] = [Some 1; Some 2; Some 3].
Proof. repeat split; vm_compute; reflexivity. Qed.


(** C5: the assertion after the lookup is reachable. Id 2 is new and does not
    exceed the last stored id 3; the lookup finds nothing and the call stops
    at [Q_ASSERT(data_it != data_.end())], with no record stored for id 2. *)
Theorem C5_lookup_assertion_reachable :
  completed interleaved_ids = false
  /\ record_of (state_of interleaved_ids) 2 = None
  /\ id <$> data_ (state_of interleaved_ids) = [1; 3].
Proof. repeat split; vm_compute; reflexivity. Qed.

(** ** The sorted view *)

Section StdSort.
Context {A : Type} (less : A -> A -> bool) (tie : A -> N).

Let R (x y : A) : Prop := less x y = true.

Hypothesis less_trans : forall x y z, R x y -> R y z -> R x z.
Hypothesis less_total : forall x y, tie x <> tie y -> less x y = false -> R y x.

Lemma insert_sorted_perm (x : A) (l : list A) : insert_sorted less x l ≡ₚ x :: l.
Proof.
  induction l as [|y l IH]; simpl; [done|].
  destruct (less x y); [done|]. rewrite IH. apply Permutation_swap.
Qed.

Lemma std_sort_perm (l : list A) : std_sort less l ≡ₚ l.
Proof.
  induction l as [|x l IH]; simpl; [done|].
  rewrite insert_sorted_perm. now rewrite IH.
Qed.

Lemma insert_sorted_sorted (x : A) (l : list A) :
  StronglySorted R l ->
  (forall y, y ∈ l -> tie x <> tie y) ->
  StronglySorted R (insert_sorted less x l).
Proof.
  induction 1 as [|y l Hl IH Hy]; intros Hne; simpl.
  - repeat constructor.
  - destruct (less x y) eqn:Hxy.
    + constructor; [now constructor|].
      constructor; [exact Hxy|].
      eapply Forall_impl; [exact Hy|]. intros z Hz. now apply (less_trans x y z).
    + constructor.
      * apply IH. intros z Hz. apply Hne. now right.
      * rewrite insert_sorted_perm. constructor; [|exact Hy].
        apply less_total; [|exact Hxy]. apply Hne. now left.
Qed.

Lemma std_sort_sorted (l : list A) :
  NoDup (tie <$> l) -> StronglySorted R (std_sort less l).
Proof.
  induction l as [|x l IH]; simpl; intros Hnd.
  - constructor.
  - apply NoDup_cons in Hnd as [Hx Hnd].
    apply insert_sorted_sorted; [now apply IH|].
    intros y Hy Heq. apply Hx. rewrite Heq.
    apply list_elem_of_fmap_2. now rewrite <- (std_sort_perm l).
Qed.

Lemma sorted_rows_ordered (l : list A) (i j : nat) (a b : A) :
  StronglySorted R l -> (i < j)%nat -> l !! i = Some a -> l !! j = Some b -> R a b.
Proof.
  intros Hs. revert i j. induction Hs as [|x l Hs IH Hx]; intros i j Hij Hi Hj.
  - now rewrite lookup_nil in Hi.
  - destruct j as [|j]; [lia|]. simpl in Hj. destruct i as [|i]; simpl in Hi.
    + injection Hi as ->. rewrite Forall_forall in Hx. apply Hx.
      eapply list_elem_of_lookup_2, Hj.
    + apply (IH i j); [lia|done..].
Qed.
End StdSort.

(** [String.compare] is a total order. *)
Lemma ascii_compare_trans (a b c : Ascii.ascii) :
  Ascii.compare a b = Lt -> Ascii.compare b c = Lt -> Ascii.compare a c = Lt.
Proof.
  unfold Ascii.compare. rewrite !N.compare_lt_iff. lia.
Qed.

Lemma string_compare_trans (a b c : string) :
  String.compare a b = Lt -> String.compare b c = Lt -> String.compare a c = Lt.
Proof.
  revert b c. induction a as [|x a IH]; intros [|y b] [|z c]; simpl; try done.
  destruct (Ascii.compare x y) eqn:Hxy; try done;
    destruct (Ascii.compare y z) eqn:Hyz; try done; intros Hab Hbc.
  - apply Ascii.compare_eq_iff in Hxy as ->. apply Ascii.compare_eq_iff in Hyz as ->.
    assert (Ascii.compare z z = Eq) as ->
      by (unfold Ascii.compare; apply N.compare_refl).
    now apply (IH b c).
  - apply Ascii.compare_eq_iff in Hxy as ->. now rewrite Hyz.
  - apply Ascii.compare_eq_iff in Hyz as ->. now rewrite Hxy.
  - now rewrite (ascii_compare_trans x y z).
Qed.

Lemma string_compare_refl (a : string) : String.compare a a = Eq.
Proof.
  induction a as [|x a IH]; simpl; [done|].
  assert (Ascii.compare x x = Eq) as ->
    by (unfold Ascii.compare; apply N.compare_refl).
  exact IH.
Qed.

Section SortOrder.
Variable m : RemoteSolutionModel.

Lemma key_compare_antisym (a b : Data) :
  key_compare m a b = CompOpp (key_compare m b a).
Proof.
  unfold key_compare. destruct (sort_column_ m =? 1)%Z.
  - apply N.compare_antisym.
  - destruct (sort_column_ m =? 2)%Z; [apply String.compare_antisym | done].
Qed.

Lemma key_compare_trans (a b c : Data) :
  key_compare m a b = Lt -> key_compare m b c = Lt -> key_compare m a c = Lt.
Proof.
  unfold key_compare. destruct (sort_column_ m =? 1)%Z.
  - rewrite !N.compare_lt_iff. lia.
  - destruct (sort_column_ m =? 2)%Z; [apply string_compare_trans | done].
Qed.

Lemma key_compare_eq_l (a b c : Data) :
  key_compare m a b = Eq -> key_compare m a c = key_compare m b c.
Proof.
  unfold key_compare. destruct (sort_column_ m =? 1)%Z.
  - intros ->%N.compare_eq_iff. done.
  - destruct (sort_column_ m =? 2)%Z; [|done].
    intros ->%String.compare_eq_iff. done.
Qed.

Lemma key_compare_eq_r (a b c : Data) :
  key_compare m b c = Eq -> key_compare m a b = key_compare m a c.
Proof.
  intros H. rewrite (key_compare_antisym a b), (key_compare_antisym a c).
  f_equal. now apply key_compare_eq_l.
Qed.

Lemma same_sort_key_compare (a b : Data) :
  same_sort_key m a b -> key_compare m a b = Eq.
Proof.
  unfold key_compare. intros [[-> ->]|[-> ->]]; simpl.
  - apply N.compare_refl.
  - apply string_compare_refl.
Qed.

Lemma lex_compare_antisym (a b : Data) :
  lex_compare m a b = CompOpp (lex_compare m b a).
Proof.
  unfold lex_compare. rewrite (key_compare_antisym a b).
  destruct (key_compare m b a); simpl; try done. apply N.compare_antisym.
Qed.

Lemma lex_compare_trans (a b c : Data) :
  lex_compare m a b = Lt -> lex_compare m b c = Lt -> lex_compare m a c = Lt.
Proof.
  unfold lex_compare.
  destruct (key_compare m a b) eqn:Hab; try done;
    destruct (key_compare m b c) eqn:Hbc; try done.
  - rewrite (key_compare_eq_l a b c Hab), Hbc, !N.compare_lt_iff. lia.
  - now rewrite (key_compare_eq_l a b c Hab), Hbc.
  - now rewrite <- (key_compare_eq_r a b c Hbc), Hab.
  - now rewrite (key_compare_trans a b c Hab Hbc).
Qed.

Lemma lex_compare_eq_l (a b c : Data) :
  lex_compare m a b = Eq -> lex_compare m a c = lex_compare m b c.
Proof.
  unfold lex_compare. destruct (key_compare m a b) eqn:Hab; try done.
  intros ->%N.compare_eq_iff. now rewrite (key_compare_eq_l a b c Hab).
Qed.

(** [sort_less] compares the sort column and then the creation rank; the
    descending order is the complement of the ascending one. *)
Lemma sort_less_lex (a b : Data) :
  sort_less m a b =
  match sort_order_ m with
  | AscendingOrder => is_Lt (lex_compare m a b)
  | DescendingOrder => negb (is_Lt (lex_compare m a b))
  end.
Proof.
  unfold sort_less, sort_comp, lex_compare, key_compare, QString_compare.
  assert (Hcr : (if creation_rank a <? creation_rank b then (-1)%Z else 1%Z)
                = if is_Lt (N.compare (creation_rank a) (creation_rank b))
                  then (-1)%Z else 1%Z).
  { destruct (N.compare_spec (creation_rank a) (creation_rank b)) as [->|H|H];
      simpl.
    - now rewrite N.ltb_irrefl.
    - apply N.ltb_lt in H. now rewrite H.
    - assert ((creation_rank a <? creation_rank b) = false) as ->
        by (apply N.ltb_ge; lia). done. }
  rewrite Hcr. clear Hcr.
  destruct (sort_column_ m =? 1)%Z.
  - destruct (N.compare_spec (cost_rank a) (cost_rank b)) as [->|H|H].
    + rewrite N.ltb_irrefl. simpl.
      destruct (sort_order_ m); destruct (creation_rank a ?= creation_rank b); done.
    + apply N.ltb_lt in H. rewrite H. now destruct (sort_order_ m).
    + assert ((cost_rank a <? cost_rank b) = false) as ->
        by (apply N.ltb_ge; lia).
      apply N.ltb_lt in H. rewrite H. now destruct (sort_order_ m).
  - destruct (sort_column_ m =? 2)%Z.
    + destruct (String.compare (name a) (name b)); simpl;
        destruct (sort_order_ m); destruct (creation_rank a ?= creation_rank b); done.
    + simpl.
      destruct (sort_order_ m); destruct (creation_rank a ?= creation_rank b); done.
Qed.

Lemma sort_less_trans (a b c : Data) :
  sort_less m a b = true -> sort_less m b c = true -> sort_less m a c = true.
Proof.
  rewrite !sort_less_lex. destruct (sort_order_ m).
  - destruct (lex_compare m a b) eqn:Hab; try done.
    destruct (lex_compare m b c) eqn:Hbc; try done.
    now rewrite (lex_compare_trans a b c Hab Hbc).
  - destruct (lex_compare m a b) eqn:Hab; try done.
    + now rewrite (lex_compare_eq_l a b c Hab).
    + destruct (lex_compare m b c) eqn:Hbc; try done; intros _ _.
      * rewrite lex_compare_antisym, (lex_compare_eq_l c b a).
        -- now rewrite lex_compare_antisym, Hab.
        -- now rewrite lex_compare_antisym, Hbc.
      * rewrite lex_compare_antisym, (lex_compare_trans c b a); [done|..].
        -- now rewrite lex_compare_antisym, Hbc.
        -- now rewrite lex_compare_antisym, Hab.
Qed.

Lemma sort_less_total (a b : Data) :
  creation_rank a <> creation_rank b ->
  sort_less m a b = false -> sort_less m b a = true.
Proof.
  intros Hne. rewrite !sort_less_lex, (lex_compare_antisym b a).
  assert (lex_compare m a b <> Eq).
  { unfold lex_compare. destruct (key_compare m a b); try done.
    intros ?%N.compare_eq_iff. done. }
  destruct (sort_order_ m), (lex_compare m a b); done.
Qed.

(** Records in the same sort column are ordered by the creation rank, in
    the direction of the sort order. *)
Lemma sort_less_tie (a b : Data) :
  key_compare m a b = Eq ->
  creation_rank a <> creation_rank b ->
  sort_less m a b = true ->
  match sort_order_ m with
  | AscendingOrder => creation_rank a < creation_rank b
  | DescendingOrder => creation_rank b < creation_rank a
  end.
Proof.
  rewrite sort_less_lex. unfold lex_compare. intros -> Hne.
  destruct (sort_order_ m);
    destruct (N.compare_spec (creation_rank a) (creation_rank b));
    simpl; intros; try done; lia.
Qed.
End SortOrder.

Section SortedView.
Variable m : RemoteSolutionModel.

Lemma visible_iterators_lookup (x : nat * Data) :
  x ∈ visible_iterators m -> data_ m !! x.1 = Some x.2 /\ isVisible m x.2 = true.
Proof.
  unfold visible_iterators. rewrite list_elem_of_filter, elem_of_lookup_imap.
  intros [Hv (i & d & -> & Hd)]. done.
Qed.

Lemma visible_iterators_ranks :
  NoDup (creation_rank <$> data_ m) ->
  NoDup ((fun x : nat * Data => creation_rank x.2) <$> visible_iterators m).
Proof.
  intros Hnd. eapply sublist_NoDup; [exact Hnd|].
  unfold visible_iterators.
  replace (creation_rank <$> data_ m)
    with ((fun x : nat * Data => creation_rank x.2)
            <$> imap (fun i d => (i, d)) (data_ m)).
  - apply fmap_sublist, sublist_filter.
  - rewrite fmap_imap. unfold compose. simpl. apply imap_const.
Qed.

Lemma new_sorted_perm : new_sorted m ≡ₚ visible_iterators m.
Proof.
  unfold new_sorted. destruct (0 <=? sort_column_ m)%Z; [|done].
  apply std_sort_perm.
Qed.

Lemma row_record_sortInternal (r : nat) (a : Data) :
  row_record (sortInternal m) r = Some a ->
  exists p, new_sorted m !! r = Some (p, a) /\ isVisible m a = true.
Proof.
  unfold row_record, sortInternal. simpl. rewrite list_lookup_fmap.
  destruct (new_sorted m !! r) as [[p d]|] eqn:Hr; simpl; [|done].
  intros Ha. exists p.
  destruct (visible_iterators_lookup (p, d)) as [Hd Hv].
  { rewrite <- new_sorted_perm. eapply list_elem_of_lookup_2, Hr. }
  simpl in *. rewrite Ha in Hd. injection Hd as ->. done.
Qed.
End SortedView.

(** A failed solution is in no row of the view that [sortInternal] builds. *)
Lemma failed_record_in_no_row (m : RemoteSolutionModel) (r : nat) (item : Data) :
  row_record (sortInternal m) r = Some item -> cost item <> infinity.
Proof.
  intros (p & _ & Hv)%row_record_sortInternal Hc.
  now rewrite (isVisible_failed m item Hc) in Hv.
Qed.

(** C4, as stated, does not hold under the descending order: in a table
    sorted by name in descending order, two solutions with the same (empty)
    name are displayed with the larger creation rank first. *)
Lemma C4_descending_reverses_creation_rank :
  ~ (forall (i j : nat) (a b : Data),
        (i < j)%nat ->
        row_record (sortInternal two_unnamed_descending) i = Some a ->
        row_record (sortInternal two_unnamed_descending) j = Some b ->
        same_sort_key two_unnamed_descending a b ->
        creation_rank a < creation_rank b).
Proof.
  intros H.
  specialize (H 0%nat 1%nat (mkData 2 S754_nan EmptyString 2 2)
                (mkData 1 S754_nan EmptyString 1 1)).
  assert (2 < 1) as Hlt; [|lia].
  apply H; [lia | reflexivity | reflexivity |].
  right. split; reflexivity.
Qed.

(** C4, amended: in the view produced by [sortInternal] every displayed record
    is visible, whatever the sort column and the sort order are, and two
    displayed records with the same value in the active sort column (cost
    rank for column 1, name for column 2) are ordered by their creation rank
    in the direction of the sort order: the smaller creation rank first
    under the ascending order, the larger one first under the descending
    order. Creation ranks are distinct, as [processSolutionIDs] assigns them
    ([processSolutionIDs_ranks], [ranks_in_order_NoDup]). *)
Theorem C4_ties_follow_the_sort_order :
  forall m : RemoteSolutionModel,
    (forall (r : nat) (a : Data),
        row_record (sortInternal m) r = Some a -> isVisible m a = true)
    /\ (forall (i j : nat) (a b : Data),
          NoDup (creation_rank <$> data_ m) ->
          (i < j)%nat ->
          row_record (sortInternal m) i = Some a ->
          row_record (sortInternal m) j = Some b ->
          same_sort_key m a b ->
          match sort_order_ m with
          | AscendingOrder => creation_rank a < creation_rank b
          | DescendingOrder => creation_rank b < creation_rank a
          end).
Proof.
  intros m. split.
  { intros r a Ha. now apply row_record_sortInternal in Ha as (pa & _ & Hva). }
  intros i j a b Hnd Hij Ha Hb Hkey.
  apply row_record_sortInternal in Ha as (pa & Ha & Hva).
  apply row_record_sortInternal in Hb as (pb & Hb & Hvb).
  pose proof (visible_iterators_ranks m Hnd) as Hranks.
  rewrite <- (new_sorted_perm m) in Hranks.
  assert (Hne : creation_rank a <> creation_rank b).
  { intros Heq.
    assert (i = j); [|lia].
    eapply NoDup_lookup; [exact Hranks|..];
      rewrite list_lookup_fmap; [rewrite Ha|rewrite Hb]; simpl; [done|].
    now rewrite Heq. }
  apply sort_less_tie; [now apply same_sort_key_compare | exact Hne |].
  assert (Hcol : (0 <=? sort_column_ m)%Z = true).
  { destruct Hkey as [[-> _]|[-> _]]; reflexivity. }
  unfold new_sorted in Ha, Hb, Hranks. rewrite Hcol in Ha, Hb, Hranks.
  rewrite (std_sort_perm _ (visible_iterators m)) in Hranks.
  eapply (sorted_rows_ordered (fun l r : nat * Data => sort_less m l.2 r.2)
            _ i j (pa, a) (pb, b)); [|exact Hij|exact Ha|exact Hb].
  apply (std_sort_sorted _ (fun x : nat * Data => creation_rank x.2)).
  - intros x y z. apply sort_less_trans.
  - intros x y. apply sort_less_total.
  - exact Hranks.
Qed.

(** The rows of a table sorted by name in descending order, and the one row
    of a table without sort column. *)
Lemma C4_ties_follow_the_sort_order_witness :
  isVisible two_unnamed_descending (mkData 2 S754_nan EmptyString 2 2) = true
  /\ isVisible two_unnamed_descending (mkData 1 S754_nan EmptyString 1 1) = true
  /\ creation_rank (mkData 1 S754_nan EmptyString 1 1)
     < creation_rank (mkData 2 S754_nan EmptyString 2 2)
  /\ isVisible (state_of scenario3_first) (mkData 10 S754_nan EmptyString 1 2) = true.
Proof.
  destruct (C4_ties_follow_the_sort_order two_unnamed_descending) as [Hvis Htie].
  split_and!.
  - exact (Hvis 0%nat _ eq_refl).
  - exact (Hvis 1%nat _ eq_refl).
  - refine (Htie 0%nat 1%nat (mkData 2 S754_nan EmptyString 2 2)
              (mkData 1 S754_nan EmptyString 1 1) _ _ eq_refl eq_refl _).
    + compute_done.
    + lia.
    + right. split; reflexivity.
  - exact (proj1 (C4_ties_follow_the_sort_order (state_of scenario3_first))
             0%nat _ eq_refl).
Defined.

(** * Properties of the stage tree *)

(** ** Flags *)

Lemma has_flag_bit (x k : N) : has_flag x (2 ^ k) = N.testbit x k.
Proof.
  unfold has_flag. destruct (N.testbit x k) eqn:Hk.
  - apply negb_true_iff, N.eqb_neq. intros H0.
    assert (N.testbit (N.land x (2 ^ k)) k = true) as Hb
      by (now rewrite N.land_spec, Hk, N.pow2_bits_true).
    rewrite H0 in Hb. now rewrite N.bits_0 in Hb.
  - apply negb_false_iff, N.eqb_eq, N.bits_inj. intros n.
    rewrite N.land_spec, N.pow2_bits_eqb, N.bits_0.
    destruct (N.eqb_spec k n) as [<-|]; [now rewrite Hk | apply andb_false_r].
Qed.

Lemma has_flag_lor (x j k : N) :
  has_flag (N.lor x (2 ^ j)) (2 ^ k) = has_flag x (2 ^ k) || (j =? k).
Proof. now rewrite !has_flag_bit, N.lor_spec, N.pow2_bits_eqb. Qed.

Lemma has_flag_0 (f : N) : has_flag 0 f = false.
Proof. reflexivity. Qed.

Lemma name_changed_after_visit (x : N) :
  has_flag (N.lor x WAS_VISITED) NAME_CHANGED = has_flag x NAME_CHANGED.
Proof. etransitivity; [exact (has_flag_lor x 0 1) | apply orb_false_r]. Qed.

Lemma name_changed_set (x : N) : has_flag (N.lor x NAME_CHANGED) NAME_CHANGED = true.
Proof. etransitivity; [exact (has_flag_lor x 1 1) | apply orb_true_r]. Qed.

Lemma was_visited_set (x : N) : has_flag (N.lor x WAS_VISITED) WAS_VISITED = true.
Proof. etransitivity; [exact (has_flag_lor x 0 0) | apply orb_true_r]. Qed.

Lemma was_visited_after_rename (x : N) :
  has_flag (N.lor x NAME_CHANGED) WAS_VISITED = has_flag x WAS_VISITED.
Proof. etransitivity; [exact (has_flag_lor x 1 0) | apply orb_false_r]. Qed.

(** ** The content update of a node *)

Lemma setName_fields (nd : Node) (v : string) :
  name_ (setName nd v).1 = v
  /\ parent_ (setName nd v).1 = parent_ nd
  /\ children_ (setName nd v).1 = children_ nd
  /\ interface_flags_ (setName nd v).1 = interface_flags_ nd
  /\ node_flags_ (setName nd v).1 = node_flags_ nd
  /\ solutions_ (setName nd v).1 = solutions_ nd.
Proof.
  unfold setName. destruct (decide (v = name_ nd)) as [->|]; simpl; repeat split.
Qed.

Lemma setName_same (nd : Node) : setName nd (name_ nd) = (nd, false).
Proof. unfold setName. now rewrite decide_True. Qed.

Lemma setName_changed (nd : Node) (v : string) :
  (setName nd v).2 = negb (bool_decide (v = name_ nd)).
Proof.
  unfold setName. destruct (decide (v = name_ nd)); simpl.
  - now rewrite bool_decide_eq_true_2.
  - now rewrite bool_decide_eq_false_2.
Qed.

Lemma update_content_fields (s : StageDescription.t) (nd : Node) :
  parent_ (update_content s nd).1 = parent_ nd
  /\ children_ (update_content s nd).1 = children_ nd
  /\ node_flags_ (update_content s nd).1 = node_flags_ nd
  /\ solutions_ (update_content s nd).1 = solutions_ nd
  /\ interface_flags_ (update_content s nd).1
     = interface_flags_from (StageDescription.flags s)
  /\ name_ (update_content s nd).1
     = if has_flag (node_flags_ nd) NAME_CHANGED then name_ nd
       else StageDescription.name s.
Proof.
  unfold update_content. destruct (has_flag (node_flags_ nd) NAME_CHANGED).
  - simpl. repeat split.
  - destruct (setName_fields nd (StageDescription.name s)) as (?&?&?&?&?&?).
    destruct (setName nd (StageDescription.name s)) as [nd1 c]. simpl in *.
    repeat split; done.
Qed.

(** The update reports a change exactly when the name or the interface
    flags of the node become different. *)
Lemma update_content_changed (s : StageDescription.t) (nd : Node) :
  (update_content s nd).2 =
  (negb (has_flag (node_flags_ nd) NAME_CHANGED)
   && negb (bool_decide (StageDescription.name s = name_ nd)))
  || negb (interface_flags_from (StageDescription.flags s) =? interface_flags_ nd).
Proof.
  unfold update_content. destruct (has_flag (node_flags_ nd) NAME_CHANGED); simpl.
  - reflexivity.
  - pose proof (setName_changed nd (StageDescription.name s)) as Hc.
    destruct (setName_fields nd (StageDescription.name s)) as (_&_&_&Hi&_&_).
    destruct (setName nd (StageDescription.name s)) as [nd1 c]. simpl in *.
    now rewrite Hc, Hi.
Qed.

Lemma update_content_same (s : StageDescription.t) (nd : Node) :
  (update_content s nd).2 = false -> (update_content s nd).1 = nd.
Proof.
  rewrite update_content_changed. intros [Hn Hf]%orb_false_iff.
  apply negb_false_iff, N.eqb_eq in Hf.
  unfold update_content. destruct (has_flag (node_flags_ nd) NAME_CHANGED); simpl in *.
  - rewrite Hf. now destruct nd.
  - apply negb_false_iff, bool_decide_eq_true in Hn.
    rewrite Hn, setName_same. simpl. rewrite Hf. now destruct nd.
Qed.

Lemma update_content_node_le (s : StageDescription.t) (nd : Node) :
  node_le nd (update_content s nd).1.
Proof.
  destruct (update_content_fields s nd) as (Hp & Hc & Hf & _ & _ & Hn).
  repeat split; try done.
  - intros H. now rewrite Hn, H.
  - now rewrite Hc.
Qed.

(** ** Extension of a model *)

Lemma node_le_refl (nd : Node) : node_le nd nd.
Proof. repeat split; done. Qed.

Lemma node_le_trans (a b c : Node) : node_le a b -> node_le b c -> node_le a c.
Proof.
  intros (Hf1 & Hp1 & Hn1 & Hc1) (Hf2 & Hp2 & Hn2 & Hc2). repeat split.
  - congruence.
  - congruence.
  - intros H. rewrite Hn2, Hn1; [done..|]. now rewrite Hf1.
  - now transitivity (children_ b).
Qed.

Lemma ext_refl (m : RemoteTaskModel) : ext m m.
Proof.
  repeat split.
  - intros n nd H. exists nd. split; [done | apply node_le_refl].
  - congruence.
  - done.
  - congruence.
Qed.

Lemma ext_trans (a b c : RemoteTaskModel) : ext a b -> ext b c -> ext a c.
Proof.
  intros (Hn1 & Hz1 & Hi1 & Hr1) (Hn2 & Hz2 & Hi2 & Hr2). repeat split.
  - intros n nd H. destruct (Hn1 n nd H) as (nd' & H' & Hle).
    destruct (Hn2 n nd' H') as (nd'' & H'' & Hle').
    exists nd''. split; [done | now apply (node_le_trans nd nd' nd'')].
  - intros n nd'' Ha Hc. destruct (heap b !! n) as [nd'|] eqn:Hb.
    + destruct (Hn2 n nd' Hb) as (x & Hx & (Hf & _)).
      rewrite Hc in Hx. injection Hx as <-. rewrite Hf. now apply (Hz1 n).
    + now apply (Hz2 n).
  - auto.
  - intros i h Ha Hc. destruct (id_to_stage_ b !! i) as [h'|] eqn:Hb.
    + rewrite (Hi2 i h' Hb) in Hc. injection Hc as <-. now apply (Hr1 i).
    + specialize (Hr2 i h Hb Hc). destruct (heap a !! h) as [nd|] eqn:Hh; [|done].
      destruct (Hn1 h nd Hh) as (x & Hx & _). congruence.
Qed.

(** Changes that keep the heap and the registry extend the model. *)
Lemma ext_same (m m' : RemoteTaskModel) :
  heap m' = heap m -> id_to_stage_ m' = id_to_stage_ m -> ext m m'.
Proof.
  intros Hh Hi. unfold ext. rewrite Hh, Hi. apply ext_refl.
Qed.

Lemma ext_visited (m m' : RemoteTaskModel) (n : nat) :
  ext m m' -> was_visited m' n = true ->
  was_visited m n = true /\ is_Some (heap m !! n).
Proof.
  intros (Hn & Hz & _ & _). unfold was_visited.
  destruct (heap m' !! n) as [nd'|] eqn:H'; [|done].
  destruct (heap m !! n) as [nd|] eqn:H.
  - destruct (Hn n nd H) as (x & Hx & (Hf & _)).
    rewrite H' in Hx. injection Hx as <-. rewrite Hf. eauto.
  - rewrite (Hz n nd' H H'). done.
Qed.

Lemma ext_visited_later (m m' : RemoteTaskModel) (n : nat) :
  ext m m' -> was_visited m n = true -> was_visited m' n = true.
Proof.
  intros (Hn & _) . unfold was_visited.
  destruct (heap m !! n) as [nd|] eqn:H; [|done].
  destruct (Hn n nd H) as (x & -> & (Hf & _)). now rewrite Hf.
Qed.

(** ** The steps of [processStageDescriptions] *)

Lemma create_node_Abort (parent : nat) (i : N) (m m' : RemoteTaskModel) :
  create_node parent i m = Abort m' -> m' = m.
Proof.
  unfold create_node.
  destruct (heap m !! parent); [destruct (index_of m parent)|]; congruence.
Qed.

Lemma create_node_Ok (parent : nat) (i : N) (m m' : RemoteTaskModel) (n : nat) :
  create_node parent i m = Ok n m' ->
  exists pnode pidx,
    heap m !! parent = Some pnode /\ index_of m parent = Some pidx
    /\ n = length (heap m)
    /\ heap m' = alter (push_child n) parent (heap m) ++ [new_Node (Some parent)]
    /\ id_to_stage_ m' = <[i := n]> (id_to_stage_ m)
    /\ flags_ m' = flags_ m
    /\ signals m' = signals m ++
         (if has_flag (node_flags_ pnode) WAS_VISITED
          then [rowsAboutToBeInserted pidx (Z.of_nat (length (children_ pnode)))
                  (Z.of_nat (length (children_ pnode)));
                rowsInserted pidx (Z.of_nat (length (children_ pnode)))
                  (Z.of_nat (length (children_ pnode)))]
          else []).
Proof.
  unfold create_node.
  destruct (heap m !! parent) as [pnode|]; [|done].
  destruct (index_of m parent) as [pidx|]; [|done].
  intros [= <- <-]. exists pnode, pidx.
  destruct (has_flag (node_flags_ pnode) WAS_VISITED); simpl; split_and!; try done.
  - now rewrite <- app_assoc.
  - now rewrite app_nil_r.
Qed.

Lemma push_child_node_le (c : nat) (nd : Node) : node_le nd (push_child c nd).
Proof. repeat split; simpl; try done. now apply prefix_app_r. Qed.

Lemma create_node_ext (parent : nat) (i : N) (m m' : RemoteTaskModel) (n : nat) :
  id_to_stage_ m !! i = None -> create_node parent i m = Ok n m' -> ext m m'.
Proof.
  intros Hi (pnode & pidx & Hp & _ & -> & Hh & Hr & _ & _)%create_node_Ok.
  unfold ext. rewrite Hh, Hr. repeat split.
  - intros k nd Hk. rewrite lookup_app_l
      by (rewrite length_alter; eapply lookup_lt_Some, Hk).
    destruct (decide (k = parent)) as [->|Hne].
    + rewrite list_lookup_alter_eq, Hk. simpl. eexists. split; [done|].
      apply push_child_node_le.
    + rewrite list_lookup_alter_ne by done. exists nd. split; [done|].
      apply node_le_refl.
  - intros k nd' Hk. apply lookup_ge_None in Hk.
    rewrite lookup_app_r by (now rewrite length_alter).
    rewrite length_alter. destruct (k - length (heap m))%nat; simpl; [|done].
    now intros [= <-].
  - intros j h Hj. rewrite lookup_insert_ne; [done|]. congruence.
  - intros j h Hj. destruct (decide (i = j)) as [->|Hne].
    + rewrite lookup_insert_eq. intros [= <-]. now apply lookup_ge_None.
    + rewrite lookup_insert_ne by done. congruence.
Qed.

Lemma set_content_inv (s : StageDescription.t) (parent n : nat)
    (m : RemoteTaskModel) (r : result RemoteTaskModel unit) :
  set_content s parent n m = r ->
  r = Abort m
  \/ exists nd,
      heap m !! n = Some nd /\ parent_ nd = Some parent
      /\ let m' := set_heap (<[n := (update_content s nd).1]> (heap m)) m in
         let notify :=
           (update_content s nd).2 && has_flag (node_flags_ nd) WAS_VISITED in
         (notify = false /\ r = Ok tt m')
         \/ (notify = true /\ index_of m' n = None /\ r = Abort m')
         \/ (notify = true
             /\ exists idx, index_of m' n = Some idx
                /\ r = Ok tt (emit (dataChanged idx (sibling idx (row idx) 2)) m')).
Proof.
  unfold set_content. destruct (heap m !! n) as [nd|]; [|now left].
  destruct (bool_decide (parent_ nd = Some parent)) eqn:Hp; simpl; [|now left].
  apply bool_decide_eq_true in Hp. intros <-. right. exists nd.
  split; [done|]. split; [done|].
  destruct (update_content_fields s nd) as (_ & _ & Hf & _).
  destruct (update_content s nd) as [nd2 changed]. simpl in *. rewrite Hf.
  destruct (changed && has_flag (node_flags_ nd) WAS_VISITED); [|now left].
  right. destruct (index_of _ n) as [idx|]; [right|left]; eauto.
Qed.

Lemma insert_node_ext (m : RemoteTaskModel) (n : nat) (nd nd' : Node) :
  heap m !! n = Some nd -> node_le nd nd' ->
  ext m (set_heap (<[n := nd']> (heap m)) m).
Proof.
  intros Hn Hle. repeat split; simpl.
  - intros k x Hk. destruct (decide (k = n)) as [->|Hne].
    + rewrite list_lookup_insert_eq by (eapply lookup_lt_Some, Hn).
      exists nd'. split; [done|]. congruence.
    + rewrite list_lookup_insert_ne by done. exists x. split; [done|].
      apply node_le_refl.
  - intros k x Hk Hx. apply lookup_ge_None in Hk. apply lookup_lt_Some in Hx.
    rewrite length_insert in Hx. lia.
  - done.
  - congruence.
Qed.

Lemma set_content_ext (s : StageDescription.t) (parent n : nat) (m : RemoteTaskModel) :
  ext m (state_of (set_content s parent n m)).
Proof.
  destruct (set_content_inv s parent n m _ eq_refl) as [->|(nd & Hn & _ & H)];
    [apply ext_refl|].
  assert (He := insert_node_ext m n nd _ Hn (update_content_node_le s nd)).
  destruct H as [[_ ->]|[(_ & _ & ->)|(_ & idx & _ & ->)]]; exact He.
Qed.

Lemma process_description_inv (s : StageDescription.t) (m : RemoteTaskModel) :
  (id_to_stage_ m !! StageDescription.parent_id s = None
   /\ process_description s m = Ok tt m)
  \/ exists parent,
      id_to_stage_ m !! StageDescription.parent_id s = Some parent
      /\ ((exists n, id_to_stage_ m !! StageDescription.id s = Some n
                     /\ process_description s m = set_content s parent n m)
          \/ (id_to_stage_ m !! StageDescription.id s = None
              /\ create_node parent (StageDescription.id s) m = Abort m
              /\ process_description s m = Abort m)
          \/ (id_to_stage_ m !! StageDescription.id s = None
              /\ exists n m1,
                  create_node parent (StageDescription.id s) m = Ok n m1
                  /\ process_description s m = set_content s parent n m1)).
Proof.
  unfold process_description.
  destruct (id_to_stage_ m !! StageDescription.parent_id s) as [parent|];
    [right; exists parent; split; [done|] | now left].
  destruct (id_to_stage_ m !! StageDescription.id s) as [n|]; [left; eauto|].
  right. destruct (create_node parent (StageDescription.id s) m) as [n m1|m1] eqn:Hc.
  - right. split; [done|]. eauto.
  - left. apply create_node_Abort in Hc as ->. done.
Qed.

Lemma process_description_ext (s : StageDescription.t) (m : RemoteTaskModel) :
  ext m (state_of (process_description s m)).
Proof.
  destruct (process_description_inv s m)
    as [[_ ->]|(parent & _ & [(n & _ & ->)|[(_ & _ & ->)|(Hi & n & m1 & Hc & ->)]])].
  - apply ext_refl.
  - apply set_content_ext.
  - apply ext_refl.
  - eapply ext_trans; [eapply create_node_ext; eauto | apply set_content_ext].
Qed.

(** A loop whose body extends the model extends it. *)
Lemma for_each_ext {X : Type} (body : X -> RemoteTaskModel -> result RemoteTaskModel unit)
    (xs : list X) (m : RemoteTaskModel) :
  (forall x m', ext m' (state_of (body x m'))) ->
  ext m (state_of (for_each body xs m)).
Proof.
  intros Hbody. revert m. induction xs as [|x xs IH]; intros m; simpl.
  - apply ext_refl.
  - specialize (Hbody x m) as Hx. destruct (body x m) as [[] m1|m1]; simpl in *.
    + eapply ext_trans; [exact Hx | apply IH].
    + exact Hx.
Qed.

(** ** Manual renaming *)

Lemma manually_named_ext (m m' : RemoteTaskModel) (n : nat) (v : string) :
  ext m m' -> manually_named m n v -> manually_named m' n v.
Proof.
  intros (Hn & _) (nd & Hnd & Hv & Hf).
  destruct (Hn n nd Hnd) as (nd' & Hnd' & (Hf' & _ & Hname & _)).
  exists nd'. split; [done|]. split; [now rewrite Hname | now rewrite Hf'].
Qed.

Lemma manually_named_visit (m : RemoteTaskModel) (n c : nat) (v : string) :
  manually_named m n v ->
  manually_named (update_node c (set_node_flag WAS_VISITED) m) n v.
Proof.
  intros (nd & Hnd & Hv & Hf). unfold manually_named, update_node. simpl.
  destruct (decide (n = c)) as [->|Hne].
  - rewrite list_lookup_alter_eq, Hnd. simpl. eexists. split; [done|]. simpl.
    split; [done|]. now rewrite name_changed_after_visit.
  - rewrite list_lookup_alter_ne by done. eauto.
Qed.

(** What [index(row, column, parent)] does to the model. *)
Lemma index_inv (m : RemoteTaskModel) (r c : Z) (parent : QModelIndex) :
  (state_of (index m r c parent) = m
   /\ (index m r c parent = Ok InvalidIndex m \/ index m r c parent = Abort m))
  \/ exists p child,
      node m parent = Some (Some p)
      /\ heap m !! p ≫= (fun nd => child_at (children_ nd) r) = Some child
      /\ index m r c parent
         = Ok (Index r c p true) (update_node child (set_node_flag WAS_VISITED) m).
Proof.
  unfold index. destruct ((c <? 0)%Z || (columnCount <=? c)%Z); [left; auto|].
  destruct (node m parent) as [[p|]|]; [|left; auto..].
  destruct (heap m !! p ≫= _) as [child|] eqn:Hc; [|left; auto].
  right. exists p, child. auto.
Qed.

Lemma manually_named_index (m : RemoteTaskModel) (r c : Z) (parent : QModelIndex)
    (n : nat) (v : string) :
  manually_named m n v -> manually_named (state_of (index m r c parent)) n v.
Proof.
  intros H. destruct (index_inv m r c parent) as [[-> _]|(p & child & _ & _ & ->)];
    [done|]. now apply manually_named_visit.
Qed.

Lemma processStageDescriptions_cons (m : RemoteTaskModel)
    (s : StageDescription.t) (msg : list StageDescription.t) :
  processStageDescriptions m (s :: msg)
  = for_each process_description (s :: msg) m.
Proof.
  unfold processStageDescriptions.
  now destruct (for_each process_description (s :: msg) m) as [[] m1|m1].
Qed.

Lemma processStageDescriptions_nil (m : RemoteTaskModel) :
  processStageDescriptions m []
  = bind (index (set_flags_ (N.lor (flags_ m) IS_DESTROYED) m) 0 0 InvalidIndex)
      (fun topLeft m3 =>
         bind (index m3 0 2 InvalidIndex)
           (fun bottomRight m4 => Ok tt (emit (dataChanged topLeft bottomRight) m4))).
Proof. reflexivity. Qed.

Lemma manually_named_descriptions (m : RemoteTaskModel)
    (msg : list StageDescription.t) (n : nat) (v : string) :
  manually_named m n v ->
  manually_named (state_of (processStageDescriptions m msg)) n v.
Proof.
  intros H. destruct msg as [|s msg].
  - rewrite processStageDescriptions_nil.
    set (m2 := set_flags_ _ m). assert (H2 : manually_named m2 n v) by exact H.
    apply (manually_named_index m2 0 0 InvalidIndex) in H2.
    destruct (index m2 0 0 InvalidIndex) as [tl m3|m3]; simpl in *; [|done].
    apply (manually_named_index m3 0 2 InvalidIndex) in H2.
    destruct (index m3 0 2 InvalidIndex) as [br m4|m4]; simpl in *; done.
  - rewrite processStageDescriptions_cons.
    eapply manually_named_ext; [|exact H].
    apply for_each_ext. apply process_description_ext.
Qed.

(** The name shown for a manually named node. *)
Lemma manually_named_data (m : RemoteTaskModel) (n : nat) (v : string)
    (j : QModelIndex) :
  manually_named m n v -> node m j = Some (Some n) -> column j = 0%Z ->
  data m j DisplayRole = Some (QString_value v).
Proof.
  intros (nd & Hnd & Hv & _) Hj Hc. unfold data. now rewrite Hj, Hnd, Hc, Hv.
Qed.

Lemma setData_rename (m : RemoteTaskModel) (i : QModelIndex) (value : string)
    (n : nat) (nd : Node) :
  node m i = Some (Some n) -> heap m !! n = Some nd -> column i = 0%Z ->
  setData m i value EditRole
  = Ok true (emit (dataChanged i i)
               (set_heap (<[n := set_node_flag NAME_CHANGED (setName nd value).1]>
                            (heap m)) m)).
Proof.
  intros Hi Hn Hc. unfold setData. rewrite Hi, Hc. simpl.
  do 2 f_equal. unfold update_node, set_heap. simpl. f_equal.
  apply list_eq. intros k. destruct (decide (k = n)) as [->|Hne].
  - rewrite !list_lookup_alter_eq, Hn,
      list_lookup_insert_eq by (eapply lookup_lt_Some, Hn). done.
  - now rewrite !list_lookup_alter_ne, list_lookup_insert_ne by done.
Qed.

(** ** The empty description batch *)

Lemma first_top_level_visit (m : RemoteTaskModel) (c : nat) (f : N) :
  first_top_level (update_node c (set_node_flag f) m) = first_top_level m.
Proof.
  unfold first_top_level, update_node. simpl.
  destruct (decide (root_ = c)) as [<-|Hne].
  - rewrite list_lookup_alter_eq. now destruct (heap m !! root_).
  - now rewrite list_lookup_alter_ne.
Qed.

Lemma index_top_row (m : RemoteTaskModel) (c : Z) :
  (c = 0 \/ c = 2)%Z ->
  index m 0 c InvalidIndex
  = Ok (top_row_index m c)
      (match first_top_level m with
       | Some child => update_node child (set_node_flag WAS_VISITED) m
       | None => m
       end).
Proof.
  intros Hc. unfold index, top_row_index, first_top_level.
  assert (((c <? 0)%Z || (columnCount <=? c)%Z) = false) as ->
    by (destruct Hc as [->| ->]; reflexivity).
  simpl. now destruct (heap m !! root_ ≫= _).
Qed.

(** The model after the empty batch, in closed form. *)
Lemma processStageDescriptions_empty (m : RemoteTaskModel) :
  processStageDescriptions m []
  = Ok tt
      (emit (dataChanged (top_row_index m 0) (top_row_index m 2))
         (let m2 := set_flags_ (N.lor (flags_ m) IS_DESTROYED) m in
          match first_top_level m with
          | Some child =>
              update_node child (set_node_flag WAS_VISITED)
                (update_node child (set_node_flag WAS_VISITED) m2)
          | None => m2
          end)).
Proof.
  rewrite processStageDescriptions_nil.
  set (m2 := set_flags_ _ m).
  assert (Hft : first_top_level m2 = first_top_level m) by reflexivity.
  assert (Ht : forall c, top_row_index m2 c = top_row_index m c) by reflexivity.
  rewrite (index_top_row m2 0 (or_introl eq_refl)). simpl. rewrite Ht, Hft.
  destruct (first_top_level m) as [child|] eqn:Hc.
  - rewrite (index_top_row (update_node child (set_node_flag WAS_VISITED) m2) 2
               (or_intror eq_refl)).
    simpl. unfold top_row_index. rewrite first_top_level_visit, Hft, Hc. done.
  - rewrite (index_top_row m2 2 (or_intror eq_refl)). simpl.
    unfold top_row_index. rewrite Hft, Hc. done.
Qed.

Lemma is_destroyed_set (x : N) : has_flag (N.lor x IS_DESTROYED) IS_DESTROYED = true.
Proof. etransitivity; [exact (has_flag_lor x 1 1) | apply orb_true_r]. Qed.

(** C9, as stated, does not hold: an empty batch on the tree of scenario 1
    (one stage, never visited) modifies that stage, whose visited flag gets
    set while the index of row 0 is built for the notification. *)
Lemma C9_empty_batch_marks_first_stage_visited :
  ~ (has_flag (flags_ (state_of (processStageDescriptions one_stage []))) IS_DESTROYED
     = true
     /\ (exists topLeft bottomRight,
           signals (state_of (processStageDescriptions one_stage []))
           = signals one_stage ++ [dataChanged topLeft bottomRight])
     /\ id_to_stage_ (state_of (processStageDescriptions one_stage []))
        = id_to_stage_ one_stage
     /\ heap (state_of (processStageDescriptions one_stage [])) = heap one_stage).
Proof.
  intros (_ & _ & _ & H).
  assert (Hv : was_visited (state_of (processStageDescriptions one_stage [])) 1
               = was_visited one_stage 1)
    by (unfold was_visited; now rewrite H).
  vm_compute in Hv. discriminate Hv.
Qed.

(** C9, amended: the empty batch always completes; it sets the destroyed
    flag, emits one [dataChanged] spanning columns 0 to 2 of row 0 under the
    root (invalid indexes when the root has no child), keeps the registry and
    the number of nodes, and leaves every node as it was (parent, children,
    name, interface flags, solution table, manual-name flag), except that the
    node of row 0 under the root is marked as visited. That row then shows
    the destroyed colour. *)
Theorem C9_empty_batch_destroys_the_model :
  forall m : RemoteTaskModel,
    let r := processStageDescriptions m [] in
    completed r = true
    /\ has_flag (flags_ (state_of r)) IS_DESTROYED = true
    /\ signals (state_of r)
       = signals m ++ [dataChanged (top_row_index m 0) (top_row_index m 2)]
    /\ id_to_stage_ (state_of r) = id_to_stage_ m
    /\ length (heap (state_of r)) = length (heap m)
    /\ (forall (n : nat) (nd : Node),
          heap m !! n = Some nd ->
          exists nd' : Node,
            heap (state_of r) !! n = Some nd'
            /\ parent_ nd' = parent_ nd
            /\ children_ nd' = children_ nd
            /\ name_ nd' = name_ nd
            /\ interface_flags_ nd' = interface_flags_ nd
            /\ solutions_ nd' = solutions_ nd
            /\ has_flag (node_flags_ nd') NAME_CHANGED
               = has_flag (node_flags_ nd) NAME_CHANGED
            /\ node_flags_ nd'
               = if decide (first_top_level m = Some n)
                 then N.lor (node_flags_ nd) WAS_VISITED
                 else node_flags_ nd)
    /\ (forall (n : nat) (nd : Node),
          first_top_level m = Some n -> heap m !! n = Some nd ->
          data (state_of r) (Index 0 0 root_ true) ForegroundRole = Some red).
Proof.
  intros m r. subst r. rewrite processStageDescriptions_empty. simpl.
  assert (Hnode : forall (n : nat) (nd : Node),
    heap m !! n = Some nd ->
    heap (match first_top_level m with
          | Some child =>
              update_node child (set_node_flag WAS_VISITED)
                (update_node child (set_node_flag WAS_VISITED)
                   (set_flags_ (N.lor (flags_ m) IS_DESTROYED) m))
          | None => set_flags_ (N.lor (flags_ m) IS_DESTROYED) m
          end) !! n
    = Some (if decide (first_top_level m = Some n)
            then set_node_flag WAS_VISITED nd else nd)).
  { intros n nd Hn. destruct (first_top_level m) as [child|].
    - destruct (decide (Some child = Some n)) as [[= ->]|Hne]; simpl.
      + rewrite !list_lookup_alter_eq, Hn. simpl. f_equal.
        unfold set_node_flag. simpl. f_equal.
        now rewrite <- N.lor_assoc, N.lor_diag.
      + rewrite !list_lookup_alter_ne by congruence. done.
    - rewrite decide_False by done. done. }
  split_and!.
  - done.
  - destruct (first_top_level m); simpl; apply is_destroyed_set.
  - now destruct (first_top_level m).
  - now destruct (first_top_level m).
  - destruct (first_top_level m); simpl; [|done]. now rewrite !length_alter.
  - intros n nd Hn. rewrite (Hnode n nd Hn). eexists. split; [done|].
    destruct (decide (first_top_level m = Some n)); simpl; split_and!; try done.
    apply name_changed_after_visit.
  - intros n nd Hft Hn. unfold data, node. simpl.
    assert (Hroot : forall m' : RemoteTaskModel,
              first_top_level m' = heap m' !! root_
                                   ≫= (fun p => child_at (children_ p) 0))
      by reflexivity.
    rewrite <- Hroot. rewrite Hft. rewrite !first_top_level_visit.
    change (first_top_level (set_flags_ (N.lor (flags_ m) IS_DESTROYED) m))
      with (first_top_level m).
    rewrite Hft. specialize (Hnode n nd Hn). rewrite Hft in Hnode.
    rewrite Hnode. simpl. now rewrite is_destroyed_set.
Qed.

(** The empty batch on the tree of scenario 1. *)
Lemma C9_empty_batch_destroys_the_model_witness :
  data (state_of (processStageDescriptions one_stage [])) (Index 0 0 root_ true)
    ForegroundRole = Some red.
Proof.
  refine (proj2 (proj2 (proj2 (proj2 (proj2 (proj2
            (C9_empty_batch_destroys_the_model one_stage))))))
            1%nat root_stage_node _ _).
  - reflexivity.
  - reflexivity.
Defined.

(** ** The statistics feed *)

(** When the solved ids report a change, the failed ids are not looked at. *)
Lemma update_solutions_short_circuit (s : StageStatistics.t) (n : nat)
    (m m1 : RemoteTaskModel) :
  on_solutions n
    (fun t => processSolutionIDs t (StageStatistics.solved s) quiet_NaN) m
  = Ok true m1 ->
  update_solutions s n m = Ok true m1.
Proof. intros H. unfold update_solutions. now rewrite H. Qed.

(** C1: the failed ids are not always fed into the table. For a stage with
    one solved and one failed solution the first call reports a change, so
    [||] does not evaluate the second call: after the batch the table of the
    stage is the one the solved ids alone produce, and id 2 has no record. *)
Theorem C1_failed_ids_skipped_when_solved_ids_change :
  completed (processStageStatistics one_stage [solved_and_failed]) = true
  /\ table_of (state_of (processStageStatistics one_stage [solved_and_failed])) 1
     = Some (state_of (processSolutionIDs new_RemoteSolutionModel [1] quiet_NaN))
  /\ (table_of (state_of (processStageStatistics one_stage [solved_and_failed])) 1
      ≫= (fun t => record_of t 2)) = None
  /\ processSolutionIDs new_RemoteSolutionModel [1] quiet_NaN
     = Ok true (state_of (processSolutionIDs new_RemoteSolutionModel [1] quiet_NaN)).
Proof. repeat split; vm_compute; reflexivity. Qed.

(** ** Notifications and the visited flag *)

Lemma row_of_lookup (children : list nat) (n r : nat) :
  row_of children n = Some r -> children !! r = Some n.
Proof.
  revert r. induction children as [|c cs IH]; intros r; simpl; [done|].
  destruct (decide (c = n)) as [->|Hne].
  - now intros [= <-].
  - destruct (row_of cs n) as [r'|]; simpl; [|done]. intros [= <-]. now apply IH.
Qed.

Lemma index_of_inv (m : RemoteTaskModel) (n : nat) (idx : QModelIndex) :
  index_of m n = Some idx ->
  (n = root_ /\ idx = InvalidIndex)
  \/ exists nd parent p r,
      heap m !! n = Some nd /\ parent_ nd = Some parent
      /\ heap m !! parent = Some p /\ row_of (children_ p) n = Some r
      /\ idx = Index (Z.of_nat r) 0 parent true.
Proof.
  unfold index_of. destruct (decide (n = root_)) as [->|Hne].
  - intros [= <-]. now left.
  - destruct (heap m !! n) as [nd|]; simpl; [|done].
    destruct (parent_ nd) as [parent|] eqn:Hp; simpl; [|done].
    destruct (heap m !! parent) as [p|] eqn:Hpar; simpl; [|done].
    destruct (row_of (children_ p) n) as [r|] eqn:Hr; simpl; [|done].
    intros [= <-]. right. exists nd, parent, p, r. done.
Qed.

Lemma child_at_of_nat (children : list nat) (r : nat) :
  child_at children (Z.of_nat r) = children !! r.
Proof.
  unfold child_at. destruct (Z.ltb_spec (Z.of_nat r) 0); [lia|].
  now rewrite Nat2Z.id.
Qed.

(** The index made for a node resolves to that node. *)
Lemma index_of_node (m : RemoteTaskModel) (n : nat) (idx : QModelIndex) :
  index_of m n = Some idx -> node m idx = Some (Some n).
Proof.
  intros [[-> ->]|(nd & parent & p & r & _ & _ & Hp & Hr & ->)]%index_of_inv;
    [done|].
  simpl. rewrite Hp. simpl.
  now rewrite child_at_of_nat, (row_of_lookup _ _ _ Hr).
Qed.

Lemma node_sibling (m : RemoteTaskModel) (idx : QModelIndex) (c : Z) (n : nat) :
  node m idx = Some (Some n) -> node m (sibling idx (row idx) c) = Some (Some n).
Proof. now destruct idx. Qed.

(** An index keeps its node when the model is extended. *)
Lemma node_ext (a b : RemoteTaskModel) (idx : QModelIndex) (n : nat) :
  ext a b -> node a idx = Some (Some n) -> node b idx = Some (Some n).
Proof.
  intros (Hn & _). destruct idx as [|r c p own]; simpl; [done|].
  destruct own; simpl; [|done].
  destruct (heap a !! p) as [nd|] eqn:Hp; simpl; [|done].
  destruct (Hn p nd Hp) as (nd' & -> & (_ & _ & _ & [k Hk])). simpl.
  rewrite Hk. unfold child_at. destruct (r <? 0)%Z; [done|].
  destruct (children_ nd !! Z.to_nat r) as [x|] eqn:Hx; [|done].
  now rewrite (lookup_app_l_Some _ _ _ _ Hx).
Qed.

Lemma about_visited_later (a b c : RemoteTaskModel) (sig : Signal) :
  ext b c -> about_visited a b sig -> about_visited a c sig.
Proof. intros He (n & Hn & Hv). exists n. split; [now apply (node_ext b c)|done]. Qed.

Lemma about_visited_earlier (a b c : RemoteTaskModel) (sig : Signal) :
  ext a b -> about_visited b c sig -> about_visited a c sig.
Proof.
  intros He (n & Hn & Hv). exists n. split; [done|].
  now apply (ext_visited a b n He).
Qed.

Lemma gated_step_refl (m : RemoteTaskModel) : gated_step m m.
Proof.
  split; [apply ext_refl|]. exists []. split; [now rewrite app_nil_r | constructor].
Qed.

Lemma gated_step_trans (a b c : RemoteTaskModel) :
  gated_step a b -> gated_step b c -> gated_step a c.
Proof.
  intros (He1 & new1 & Hs1 & Hf1) (He2 & new2 & Hs2 & Hf2).
  split; [now apply (ext_trans a b c)|].
  exists (new1 ++ new2). split; [now rewrite Hs2, Hs1, app_assoc|].
  apply Forall_app. split.
  - eapply Forall_impl; [exact Hf1|]. intros sig. now apply about_visited_later.
  - eapply Forall_impl; [exact Hf2|]. intros sig. now apply about_visited_earlier.
Qed.

(** A step that emits nothing. *)
Lemma gated_step_silent (m m' : RemoteTaskModel) :
  ext m m' -> signals m' = signals m -> gated_step m m'.
Proof.
  intros He Hs. split; [done|]. exists []. split; [now rewrite app_nil_r | constructor].
Qed.

Lemma create_node_gated (parent : nat) (i : N) (m m' : RemoteTaskModel) (n : nat) :
  id_to_stage_ m !! i = None -> create_node parent i m = Ok n m' -> gated_step m m'.
Proof.
  intros Hi Hc. pose proof (create_node_ext parent i m m' n Hi Hc) as He.
  split; [exact He|].
  apply create_node_Ok in Hc as (pnode & pidx & Hp & Hidx & _ & _ & _ & _ & Hs).
  eexists. split; [exact Hs|].
  destruct (has_flag (node_flags_ pnode) WAS_VISITED) eqn:Hv; [|constructor].
  assert (Ha : forall sig, signal_index sig = pidx -> about_visited m m' sig).
  { intros sig Hsig. exists parent. rewrite Hsig. split.
    - apply (node_ext m m' _ _ He). now apply index_of_node.
    - unfold was_visited. now rewrite Hp. }
  repeat constructor; now apply Ha.
Qed.

Lemma set_content_gated (s : StageDescription.t) (parent n : nat) (m : RemoteTaskModel) :
  gated_step m (state_of (set_content s parent n m)).
Proof.
  pose proof (set_content_ext s parent n m) as He.
  destruct (set_content_inv s parent n m _ eq_refl) as [Hr|(nd & Hn & _ & H)].
  - rewrite Hr. apply gated_step_refl.
  - destruct H as [[_ Hr]|[(_ & _ & Hr)|(Hnotify & idx & Hidx & Hr)]];
      rewrite Hr in *; simpl in *; try (now apply gated_step_silent).
    split; [exact He|]. eexists. split; [reflexivity|].
    repeat constructor. exists n. split.
    + simpl. apply index_of_node in Hidx. exact Hidx.
    + apply andb_true_iff in Hnotify as [_ Hv]. unfold was_visited. now rewrite Hn.
Qed.

Lemma process_description_gated (s : StageDescription.t) (m : RemoteTaskModel) :
  gated_step m (state_of (process_description s m)).
Proof.
  destruct (process_description_inv s m)
    as [[_ ->]|(parent & _ & [(n & _ & ->)|[(_ & _ & ->)|(Hi & n & m1 & Hc & ->)]])].
  - apply gated_step_refl.
  - apply set_content_gated.
  - apply gated_step_refl.
  - eapply gated_step_trans; [eapply create_node_gated; eauto|].
    apply set_content_gated.
Qed.

Lemma for_each_gated {X : Type}
    (body : X -> RemoteTaskModel -> result RemoteTaskModel unit)
    (xs : list X) (m : RemoteTaskModel) :
  (forall x m', gated_step m' (state_of (body x m'))) ->
  gated_step m (state_of (for_each body xs m)).
Proof.
  intros Hbody. revert m. induction xs as [|x xs IH]; intros m; simpl.
  - apply gated_step_refl.
  - specialize (Hbody x m) as Hx. destruct (body x m) as [[] m1|m1]; simpl in *.
    + eapply gated_step_trans; [exact Hx | apply IH].
    + exact Hx.
Qed.

Lemma index_of_same (m m' : RemoteTaskModel) (k : nat) :
  (forall j, parent_ <$> heap m' !! j = parent_ <$> heap m !! j) ->
  (forall j, children_ <$> heap m' !! j = children_ <$> heap m !! j) ->
  index_of m' k = index_of m k.
Proof.
  intros Hp Hc. unfold index_of. destruct (decide (k = root_)); [done|].
  specialize (Hp k).
  destruct (heap m' !! k) as [nd'|]; destruct (heap m !! k) as [nd|];
    simpl in *; try done.
  injection Hp as Hp. rewrite Hp. destruct (parent_ nd) as [parent|]; simpl; [|done].
  specialize (Hc parent).
  destruct (heap m' !! parent); destruct (heap m !! parent); simpl in *; try done.
  injection Hc as ->. done.
Qed.

Section SameTree.
Variables m m' : RemoteTaskModel.
Hypothesis Hsame : same_tree m m'.

Lemma same_tree_lookup (k : nat) :
  set_solutions new_RemoteSolutionModel <$> heap m' !! k
  = set_solutions new_RemoteSolutionModel <$> heap m !! k.
Proof. destruct Hsame as (Hh & _). now rewrite <- !list_lookup_fmap, Hh. Qed.

Lemma same_tree_field {A : Type} (f : Node -> A) (k : nat) :
  (forall nd, f (set_solutions new_RemoteSolutionModel nd) = f nd) ->
  f <$> heap m' !! k = f <$> heap m !! k.
Proof.
  intros Hf. pose proof (same_tree_lookup k) as Hk.
  destruct (heap m' !! k) as [a|]; destruct (heap m !! k) as [b|]; try done.
  apply (inj Some) in Hk. change (Some (f a) = Some (f b)). f_equal.
  now rewrite <- (Hf a), Hk, Hf.
Qed.

Lemma same_tree_index_of (k : nat) : index_of m' k = index_of m k.
Proof. apply index_of_same; intros j; now apply same_tree_field. Qed.

Lemma same_tree_visited (k : nat) : was_visited m' k = was_visited m k.
Proof.
  unfold was_visited. pose proof (same_tree_field node_flags_ k (fun _ => eq_refl)) as H.
  destruct (heap m' !! k); destruct (heap m !! k); try done.
  apply (inj Some) in H. now rewrite H.
Qed.

Lemma same_tree_ext : ext m m'.
Proof.
  destruct Hsame as (_ & Hi & _ & _). unfold ext. rewrite Hi. split_and!; try done.
  - intros k nd Hk.
    pose proof (same_tree_field node_flags_ k (fun _ => eq_refl)) as Hf.
    pose proof (same_tree_field parent_ k (fun _ => eq_refl)) as Hp.
    pose proof (same_tree_field name_ k (fun _ => eq_refl)) as Hn.
    pose proof (same_tree_field children_ k (fun _ => eq_refl)) as Hc.
    rewrite Hk in Hf, Hp, Hn, Hc.
    destruct (heap m' !! k) as [nd'|]; [|done].
    apply (inj Some) in Hf, Hp, Hn, Hc. exists nd'. split; [done|].
    repeat split; try done. now rewrite Hc.
  - intros k nd' Hk Hk'. pose proof (same_tree_lookup k) as H.
    rewrite Hk, Hk' in H. done.
  - congruence.
Qed.
End SameTree.

Lemma same_tree_refl (m : RemoteTaskModel) : same_tree m m.
Proof. repeat split. Qed.

Lemma same_tree_trans (a b c : RemoteTaskModel) :
  same_tree a b -> same_tree b c -> same_tree a c.
Proof.
  intros (H1 & H2 & H3 & H4) (H1' & H2' & H3' & H4').
  repeat split; congruence.
Qed.

Lemma same_tree_set_solutions (m : RemoteTaskModel) (n : nat) (t : RemoteSolutionModel) :
  same_tree m (update_node n (set_solutions t) m).
Proof.
  repeat split. simpl. apply list_eq. intros k. rewrite !list_lookup_fmap.
  destruct (decide (k = n)) as [->|Hne].
  - rewrite list_lookup_alter_eq. now destruct (heap m !! n).
  - now rewrite list_lookup_alter_ne.
Qed.

Lemma on_solutions_same_tree (n : nat)
    (call : RemoteSolutionModel -> result RemoteSolutionModel bool)
    (m : RemoteTaskModel) :
  same_tree m (state_of (on_solutions n call m)).
Proof.
  unfold on_solutions. destruct (heap m !! n) as [nd|]; [|apply same_tree_refl].
  destruct (call (solutions_ nd)); apply same_tree_set_solutions.
Qed.

Lemma update_solutions_same_tree (s : StageStatistics.t) (n : nat)
    (m : RemoteTaskModel) :
  same_tree m (state_of (update_solutions s n m)).
Proof.
  unfold update_solutions.
  pose proof (on_solutions_same_tree n
    (fun t => processSolutionIDs t (StageStatistics.solved s) quiet_NaN) m) as H1.
  destruct (on_solutions n _ m) as [[] m1|m1]; simpl in *; try exact H1.
  eapply same_tree_trans; [exact H1|]. apply on_solutions_same_tree.
Qed.

(** The statistics of one stage: the signal emitted, if any. *)
Lemma process_statistics_visited (s : StageStatistics.t) (m m2 : RemoteTaskModel)
    (n : nat) (idx : QModelIndex) (changed : bool) :
  id_to_stage_ m !! StageStatistics.id s = Some n ->
  was_visited m n = true ->
  index_of m n = Some idx ->
  update_solutions s n m = Ok changed m2 ->
  process_statistics s m
  = Ok tt (if changed
           then emit (dataChanged (sibling idx (row idx) 1) (sibling idx (row idx) 2)) m2
           else m2).
Proof.
  intros Hn Hv Hidx Hu. unfold process_statistics. rewrite Hn, Hu. simpl.
  pose proof (update_solutions_same_tree s n m) as Hsame. rewrite Hu in Hsame.
  simpl in Hsame.
  rewrite (same_tree_visited m m2 Hsame), (same_tree_index_of m m2 Hsame), Hv, Hidx.
  now destruct changed.
Qed.

Lemma process_statistics_gated (s : StageStatistics.t) (m : RemoteTaskModel) :
  gated_step m (state_of (process_statistics s m)).
Proof.
  unfold process_statistics.
  destruct (id_to_stage_ m !! StageStatistics.id s) as [n|]; [|apply gated_step_refl].
  pose proof (update_solutions_same_tree s n m) as Hsame.
  destruct (update_solutions s n m) as [changed m2|m2]; simpl in *.
  - pose proof (same_tree_ext m m2 Hsame) as He.
    assert (Hs : signals m2 = signals m) by apply Hsame.
    rewrite (same_tree_visited m m2 Hsame), (same_tree_index_of m m2 Hsame).
    destruct (changed && was_visited m n) eqn:Hc;
      [|now apply gated_step_silent].
    destruct (index_of m n) as [idx|] eqn:Hidx; [|now apply gated_step_silent].
    split; [exact He|]. unfold only_visited_notified. simpl. rewrite Hs.
    eexists. split; [reflexivity|].
    repeat constructor. exists n. simpl. split.
    + apply node_sibling. apply (index_of_node m2 n idx).
      now rewrite (same_tree_index_of m m2 Hsame).
    + now apply andb_true_iff in Hc as [_ Hv].
  - apply gated_step_silent; [now apply same_tree_ext | apply Hsame].
Qed.

(** The description of one existing, visited stage: the signal emitted, if
    any. *)
Lemma process_description_visited (s : StageDescription.t) (m : RemoteTaskModel)
    (parent n : nat) (nd : Node) (idx : QModelIndex) :
  id_to_stage_ m !! StageDescription.parent_id s = Some parent ->
  id_to_stage_ m !! StageDescription.id s = Some n ->
  heap m !! n = Some nd ->
  parent_ nd = Some parent ->
  has_flag (node_flags_ nd) WAS_VISITED = true ->
  index_of m n = Some idx ->
  process_description s m
  = Ok tt (let m' := set_heap (<[n := (update_content s nd).1]> (heap m)) m in
           if (update_content s nd).2
           then emit (dataChanged (sibling idx (row idx) 0) (sibling idx (row idx) 2)) m'
           else m').
Proof.
  intros Hpar Hn Hnd Hp Hv Hidx. unfold process_description. rewrite Hpar, Hn. simpl.
  unfold set_content. rewrite Hnd, Hp, bool_decide_eq_true_2 by done. simpl.
  destruct (update_content_fields s nd) as (Hp2 & Hc2 & Hf2 & _).
  destruct (update_content s nd) as [nd2 changed]. simpl in *.
  rewrite Hf2, Hv, andb_true_r. destruct changed; [|done].
  rewrite (index_of_same m _ n), Hidx.
  - do 3 f_equal.
    apply index_of_inv in Hidx as [[_ ->]|(?&?&?&?&_&_&_&_&->)]; done.
  - intros j. simpl. destruct (decide (j = n)) as [->|Hne].
    + rewrite list_lookup_insert_eq by (eapply lookup_lt_Some, Hnd).
      rewrite Hnd. simpl. now rewrite Hp2.
    + now rewrite list_lookup_insert_ne.
  - intros j. simpl. destruct (decide (j = n)) as [->|Hne].
    + rewrite list_lookup_insert_eq by (eapply lookup_lt_Some, Hnd).
      rewrite Hnd. simpl. now rewrite Hc2.
    + now rewrite list_lookup_insert_ne.
Qed.

(** ** Manual names last *)

Lemma manually_named_event (m : RemoteTaskModel) (e : Event) (n : nat) (v : string) :
  manually_named m n v -> manually_named (apply_event m e) n v.
Proof.
  intros H. destruct e as [msg|msg|r c parent]; simpl.
  - now apply manually_named_descriptions.
  - eapply manually_named_ext; [|exact H].
    apply (for_each_gated process_statistics msg m process_statistics_gated).
  - now apply manually_named_index.
Qed.

Lemma manually_named_apply (m : RemoteTaskModel) (events : list Event)
    (n : nat) (v : string) :
  manually_named m n v -> manually_named (apply_events m events) n v.
Proof.
  revert m. induction events as [|e events IH]; intros m H; simpl; [done|].
  apply IH. now apply manually_named_event.
Qed.


(** C7: manual-rename stickiness. Once [setData] on column 0 with the edit
    role has set the name of a node, the node is marked as manually named and
    keeps that name through every sequence of description batches (the empty
    batch included, and also when a batch stops at an assertion), whatever
    statistics batches and index traversals come in between; the name
    displayed for it stays the one the observer gave. *)
Theorem C7_manual_rename_is_sticky :
  forall (m m1 : RemoteTaskModel) (i : QModelIndex) (value : string)
         (n : nat) (nd : Node) (events : list Event),
    node m i = Some (Some n) ->
    heap m !! n = Some nd ->
    setData m i value EditRole = Ok true m1 ->
    manually_named m1 n value
    /\ manually_named (apply_events m1 events) n value
    /\ forall j : QModelIndex,
         node (apply_events m1 events) j = Some (Some n) ->
         column j = 0%Z ->
         data (apply_events m1 events) j DisplayRole
         = Some (QString_value value).
Proof.
  intros m m1 i value n nd events Hi Hn Hset.
  assert (Hc : column i = 0%Z).
  { unfold setData in Hset. rewrite Hi in Hset.
    destruct (column i =? 0)%Z eqn:Hc; [now apply Z.eqb_eq in Hc | done]. }
  rewrite (setData_rename m i value n nd Hi Hn Hc) in Hset. injection Hset as <-.
  assert (H1 : manually_named
                 (emit (dataChanged i i)
                    (set_heap (<[n := set_node_flag NAME_CHANGED (setName nd value).1]>
                                 (heap m)) m)) n value).
  { eexists. simpl. rewrite list_lookup_insert_eq by (eapply lookup_lt_Some, Hn).
    split; [done|]. simpl. split; [apply setName_fields | apply name_changed_set]. }
  split; [exact H1|].
  pose proof (manually_named_apply _ events n value H1) as H2.
  split; [exact H2|]. intros j. now apply manually_named_data.
Qed.

(** The stage of scenario 2, renamed by the observer to "mine"; the server
    then describes it as "renamed". *)
Lemma C7_manual_rename_is_sticky_witness :
  manually_named
    (apply_events
       (state_of (setData one_stage_visited (Index 0 0 root_ true) "mine" EditRole))
       [descriptions [StageDescription.mk 1 0 "renamed" 0]]) 1 "mine".
Proof.
  refine (proj1 (proj2 (C7_manual_rename_is_sticky one_stage_visited _
            (Index 0 0 root_ true) "mine" 1%nat
            (set_node_flag WAS_VISITED root_stage_node)
            [descriptions [StageDescription.mk 1 0 "renamed" 0]] _ _ _))).
  - reflexivity.
  - reflexivity.
  - reflexivity.
Defined.

(** C10: renaming a node to the name it already has. [setData] on column 0
    with the edit role returns true, stores no new name, marks the node as
    manually named and emits [dataChanged(index, index)]; from then on no
    description batch changes the name, whatever statistics batches and index
    traversals come in between. Nothing else in the model changes. *)
Theorem C10_rename_to_the_same_name :
  forall (m : RemoteTaskModel) (i : QModelIndex) (n : nat) (nd : Node),
    node m i = Some (Some n) ->
    heap m !! n = Some nd ->
    column i = 0%Z ->
    exists m' : RemoteTaskModel,
      setData m i (name_ nd) EditRole = Ok true m'
      /\ heap m' = <[n := set_node_flag NAME_CHANGED nd]> (heap m)
      /\ id_to_stage_ m' = id_to_stage_ m
      /\ flags_ m' = flags_ m
      /\ signals m' = signals m ++ [dataChanged i i]
      /\ manually_named m' n (name_ nd)
      /\ forall events : list Event,
           manually_named (apply_events m' events) n (name_ nd).
Proof.
  intros m i n nd Hi Hn Hc. eexists.
  split; [exact (setData_rename m i (name_ nd) n nd Hi Hn Hc)|].
  rewrite setName_same. simpl. split_and!; try done.
  - eexists. simpl. rewrite list_lookup_insert_eq by (eapply lookup_lt_Some, Hn).
    split; [done|]. split; [done | apply name_changed_set].
  - intros events. apply manually_named_apply.
    eexists. simpl. rewrite list_lookup_insert_eq by (eapply lookup_lt_Some, Hn).
    split; [done|]. split; [done | apply name_changed_set].
Qed.

(** The visited stage of scenario 2, renamed to "root-stage", its name. *)
Lemma C10_rename_to_the_same_name_witness :
  exists m' : RemoteTaskModel,
    setData one_stage_visited (Index 0 0 root_ true)
      (name_ (set_node_flag WAS_VISITED root_stage_node)) EditRole = Ok true m'
    /\ heap m' = <[1%nat := set_node_flag NAME_CHANGED
                              (set_node_flag WAS_VISITED root_stage_node)]>
                   (heap one_stage_visited)
    /\ id_to_stage_ m' = id_to_stage_ one_stage_visited
    /\ flags_ m' = flags_ one_stage_visited
    /\ signals m' = signals one_stage_visited
                    ++ [dataChanged (Index 0 0 root_ true) (Index 0 0 root_ true)]
    /\ manually_named m' 1 (name_ (set_node_flag WAS_VISITED root_stage_node))
    /\ forall events : list Event,
         manually_named (apply_events m' events) 1
           (name_ (set_node_flag WAS_VISITED root_stage_node)).
Proof.
  apply (C10_rename_to_the_same_name one_stage_visited (Index 0 0 root_ true) 1%nat
           (set_node_flag WAS_VISITED root_stage_node)); reflexivity.
Defined.

(** ** Well-formed trees *)

Lemma wf_new : wf new_RemoteTaskModel.
Proof.
  unfold wf, new_RemoteTaskModel. simpl. split_and!.
  - intros i h [<- <-]%lookup_singleton_Some. simpl. eauto.
  - intros i j h [<- <-]%lookup_singleton_Some [<- _]%lookup_singleton_Some. done.
  - intros [|n] nd p; simpl; [|done]. now intros [= <-].
Qed.

(** Operations that keep the registry, the number of nodes and the parent of
    every node keep the tree well formed. *)
Lemma wf_same_shape (m m' : RemoteTaskModel) :
  id_to_stage_ m' = id_to_stage_ m ->
  (forall k, parent_ <$> heap m' !! k = parent_ <$> heap m !! k) ->
  wf m -> wf m'.
Proof.
  intros Hi Hp (W1 & W2 & W3).
  assert (Hsome : forall k, is_Some (heap m !! k) -> is_Some (heap m' !! k)).
  { intros k [nd Hk]. specialize (Hp k). rewrite Hk in Hp.
    destruct (heap m' !! k); [eauto|done]. }
  unfold wf. rewrite Hi. split_and!.
  - intros i h Hh. apply Hsome. eauto.
  - exact W2.
  - intros n nd' p Hn Hpar. specialize (Hp n). rewrite Hn in Hp.
    destruct (heap m !! n) as [nd|] eqn:Hk; [|done].
    apply (inj Some) in Hp. apply Hsome. apply (W3 n nd p Hk). congruence.
Qed.

Lemma wf_insert_node (m : RemoteTaskModel) (n : nat) (nd nd' : Node) :
  heap m !! n = Some nd -> parent_ nd' = parent_ nd ->
  wf m -> wf (set_heap (<[n := nd']> (heap m)) m).
Proof.
  intros Hn Hp. apply wf_same_shape; [done|]. intros k. simpl.
  destruct (decide (k = n)) as [->|Hne].
  - rewrite list_lookup_insert_eq by (eapply lookup_lt_Some, Hn).
    rewrite Hn. simpl. now rewrite Hp.
  - now rewrite list_lookup_insert_ne.
Qed.

Lemma wf_update_node (m : RemoteTaskModel) (n : nat) (f : Node -> Node) :
  (forall nd, parent_ (f nd) = parent_ nd) -> wf m -> wf (update_node n f m).
Proof.
  intros Hf. apply wf_same_shape; [done|]. intros k. simpl.
  destruct (decide (k = n)) as [->|Hne].
  - rewrite list_lookup_alter_eq. destruct (heap m !! n); simpl; [|done].
    now rewrite Hf.
  - now rewrite list_lookup_alter_ne.
Qed.

Lemma wf_emit (m : RemoteTaskModel) (sig : Signal) : wf m -> wf (emit sig m).
Proof. done. Qed.

Lemma wf_create_node (parent : nat) (i : N) (m m' : RemoteTaskModel) (n : nat) :
  id_to_stage_ m !! i = None -> create_node parent i m = Ok n m' -> wf m -> wf m'.
Proof.
  intros Hi (pnode & pidx & Hp & _ & -> & Hh & Hr & _ & _)%create_node_Ok
    (W1 & W2 & W3).
  assert (Hlen : length (heap m') = S (length (heap m)))
    by (rewrite Hh, length_app, length_alter; simpl; lia).
  unfold wf. rewrite Hr. split_and!.
  - intros j h. destruct (decide (i = j)) as [<-|Hne].
    + rewrite lookup_insert_eq. intros [= <-]. apply lookup_lt_is_Some. lia.
    + rewrite lookup_insert_ne by done. intros Hj%W1%lookup_lt_is_Some.
      apply lookup_lt_is_Some. lia.
  - intros j1 j2 h.
    destruct (decide (i = j1)) as [<-|Hne1]; destruct (decide (i = j2)) as [<-|Hne2];
      try done.
    + rewrite lookup_insert_eq, lookup_insert_ne by done.
      intros [= <-] Hj%W1%lookup_lt_is_Some. lia.
    + rewrite lookup_insert_eq, lookup_insert_ne by done.
      intros Hj%W1%lookup_lt_is_Some [= <-]. lia.
    + rewrite !lookup_insert_ne by done. apply W2.
  - intros k nd p Hk Hpar. apply lookup_lt_is_Some. rewrite Hlen.
    rewrite Hh in Hk. destruct (decide (k < length (heap m))%nat) as [Hlt|Hge].
    + rewrite lookup_app_l in Hk by (now rewrite length_alter).
      destruct (decide (k = parent)) as [->|Hne].
      * rewrite list_lookup_alter_eq, Hp in Hk. simpl in Hk. injection Hk as <-.
        simpl in Hpar. apply (W3 parent pnode p Hp), lookup_lt_is_Some in Hpar. lia.
      * rewrite list_lookup_alter_ne in Hk by done.
        apply (W3 k nd p Hk), lookup_lt_is_Some in Hpar. lia.
    + rewrite lookup_app_r in Hk by (rewrite length_alter; lia).
      rewrite length_alter in Hk.
      destruct (k - length (heap m))%nat; simpl in Hk; [|done].
      injection Hk as <-. simpl in Hpar. injection Hpar as <-.
      apply lookup_lt_Some in Hp. lia.
Qed.

Lemma wf_set_content (s : StageDescription.t) (parent n : nat) (m : RemoteTaskModel) :
  wf m -> wf (state_of (set_content s parent n m)).
Proof.
  intros Hwf.
  destruct (set_content_inv s parent n m _ eq_refl) as [->|(nd & Hn & _ & H)];
    [done|].
  assert (Hw := wf_insert_node m n nd (update_content s nd).1 Hn
                  (proj1 (update_content_fields s nd)) Hwf).
  destruct H as [[_ ->]|[(_ & _ & ->)|(_ & idx & _ & ->)]]; exact Hw.
Qed.

Lemma wf_process_description (s : StageDescription.t) (m : RemoteTaskModel) :
  wf m -> wf (state_of (process_description s m)).
Proof.
  intros Hwf. destruct (process_description_inv s m)
    as [[_ ->]|(parent & _ & [(n & _ & ->)|[(_ & _ & ->)|(Hi & n & m1 & Hc & ->)]])].
  - done.
  - now apply wf_set_content.
  - done.
  - apply wf_set_content. eapply wf_create_node; eauto.
Qed.

Lemma for_each_wf {X : Type}
    (body : X -> RemoteTaskModel -> result RemoteTaskModel unit)
    (xs : list X) (m : RemoteTaskModel) :
  (forall x m', wf m' -> wf (state_of (body x m'))) ->
  wf m -> wf (state_of (for_each body xs m)).
Proof.
  intros Hbody. revert m. induction xs as [|x xs IH]; intros m Hwf; simpl; [done|].
  specialize (Hbody x m Hwf). destruct (body x m) as [[] m1|m1]; simpl in *; auto.
Qed.

Lemma wf_index (m : RemoteTaskModel) (r c : Z) (parent : QModelIndex) :
  wf m -> wf (state_of (index m r c parent)).
Proof.
  intros Hwf. destruct (index_inv m r c parent) as [[-> _]|(p & child & _ & _ & ->)];
    [done|]. now apply wf_update_node.
Qed.

(** Every operation of the model keeps the tree well formed. *)
Lemma wf_processStageDescriptions (m : RemoteTaskModel)
    (msg : list StageDescription.t) :
  wf m -> wf (state_of (processStageDescriptions m msg)).
Proof.
  intros Hwf. destruct msg as [|s msg].
  - rewrite processStageDescriptions_empty. simpl.
    destruct (first_top_level m); [|done].
    apply wf_update_node; [done|]. now apply wf_update_node.
  - rewrite processStageDescriptions_cons.
    apply for_each_wf; [apply wf_process_description | done].
Qed.

Lemma wf_same_tree (m m' : RemoteTaskModel) : same_tree m m' -> wf m -> wf m'.
Proof.
  intros Hsame. apply wf_same_shape; [apply Hsame|].
  intros k. now apply (same_tree_field m m' Hsame).
Qed.

Lemma wf_processStageStatistics (m : RemoteTaskModel)
    (msg : list StageStatistics.t) :
  wf m -> wf (state_of (processStageStatistics m msg)).
Proof.
  apply for_each_wf. intros s m' Hwf. unfold process_statistics.
  destruct (id_to_stage_ m' !! StageStatistics.id s) as [n|]; [|done].
  pose proof (update_solutions_same_tree s n m') as Hsame.
  destruct (update_solutions s n m') as [changed m2|m2]; simpl in *.
  - apply (wf_same_tree m' m2 Hsame) in Hwf.
    destruct (changed && was_visited m2 n); [|done].
    now destruct (index_of m2 n).
  - now apply (wf_same_tree m' m2 Hsame).
Qed.

Lemma wf_setData (m : RemoteTaskModel) (i : QModelIndex) (value : string)
    (role : ItemDataRole) :
  wf m -> wf (state_of (setData m i value role)).
Proof.
  intros Hwf. unfold setData. destruct (node m i) as [[n|]|]; try done.
  destruct (negb (column i =? 0)%Z || negb (bool_decide (role = EditRole)));
    [done|].
  simpl. apply wf_update_node; [done|]. apply wf_update_node; [|done].
  intros nd. apply setName_fields.
Qed.

(** ** Describing a tree twice *)

Lemma update_content_settled (s : StageDescription.t) (nd : Node) :
  interface_flags_ nd = interface_flags_from (StageDescription.flags s) ->
  has_flag (node_flags_ nd) NAME_CHANGED = true \/ name_ nd = StageDescription.name s ->
  (update_content s nd).2 = false.
Proof.
  intros Hf Hn. rewrite update_content_changed, Hf, N.eqb_refl, orb_false_r.
  destruct Hn as [->| ->]; [done|].
  rewrite bool_decide_eq_true_2 by done. apply andb_false_r.
Qed.

Lemma set_content_Ok (s : StageDescription.t) (parent n : nat) (m m' : RemoteTaskModel) :
  set_content s parent n m = Ok tt m' ->
  exists nd,
    heap m !! n = Some nd
    /\ heap m' = <[n := (update_content s nd).1]> (heap m)
    /\ id_to_stage_ m' = id_to_stage_ m.
Proof.
  intros Hr. destruct (set_content_inv s parent n m _ Hr) as [|(nd & Hn & _ & H)];
    [done|].
  exists nd. split; [done|].
  destruct H as [[_ [= ->]]|[(_ & _ & [=])|(_ & idx & _ & [= ->])]]; done.
Qed.

Lemma set_content_frame (s : StageDescription.t) (parent n k : nat)
    (m : RemoteTaskModel) :
  k <> n -> heap (state_of (set_content s parent n m)) !! k = heap m !! k.
Proof.
  intros Hne.
  destruct (set_content_inv s parent n m _ eq_refl) as [->|(nd & Hn & _ & H)];
    [done|].
  destruct H as [[_ ->]|[(_ & _ & ->)|(_ & idx & _ & ->)]]; simpl;
    now rewrite list_lookup_insert_ne.
Qed.

(** A description leaves the content of the other nodes alone. *)
Lemma process_description_frame (s : StageDescription.t) (m : RemoteTaskModel)
    (k : nat) (nd : Node) :
  heap m !! k = Some nd ->
  id_to_stage_ m !! StageDescription.id s <> Some k ->
  exists nd',
    heap (state_of (process_description s m)) !! k = Some nd'
    /\ name_ nd' = name_ nd
    /\ interface_flags_ nd' = interface_flags_ nd
    /\ node_flags_ nd' = node_flags_ nd.
Proof.
  intros Hk Hid. destruct (process_description_inv s m)
    as [[_ ->]|(parent & _ & [(n & Hn & ->)|[(_ & _ & ->)|(Hi & n & m1 & Hc & ->)]])].
  - exists nd. done.
  - rewrite set_content_frame by congruence. exists nd. done.
  - exists nd. done.
  - apply create_node_Ok in Hc as (pnode & pidx & Hp & _ & -> & Hh & _).
    pose proof (lookup_lt_Some _ _ _ Hk) as Hlt.
    rewrite set_content_frame by lia. rewrite Hh.
    rewrite lookup_app_l by (now rewrite length_alter).
    destruct (decide (k = parent)) as [->|Hne].
    + rewrite list_lookup_alter_eq, Hk. simpl. eexists. split; [done|]. done.
    + rewrite list_lookup_alter_ne by done. exists nd. done.
Qed.

Lemma described_after (s : StageDescription.t) (m m' : RemoteTaskModel) :
  is_Some (id_to_stage_ m !! StageDescription.parent_id s) ->
  process_description s m = Ok tt m' ->
  described s m'.
Proof.
  intros [parent0 Hpar] Hr.
  assert (Hnode : forall nd : Node,
    interface_flags_ (update_content s nd).1
    = interface_flags_from (StageDescription.flags s)
    /\ (has_flag (node_flags_ (update_content s nd).1) NAME_CHANGED = true
        \/ name_ (update_content s nd).1 = StageDescription.name s)).
  { intros nd. destruct (update_content_fields s nd) as (_ & _ & Hf & _ & Hi & Hn).
    split; [done|]. rewrite Hf, Hn.
    destruct (has_flag (node_flags_ nd) NAME_CHANGED); auto. }
  destruct (process_description_inv s m)
    as [[Hnone _]|(parent & _ & [(n & Hn & Heq)|[(_ & _ & Heq)|(Hi & n & m1 & Hc & Heq)]])].
  - congruence.
  - rewrite Heq in Hr. apply set_content_Ok in Hr as (nd & Hnd & Hh & Hreg).
    exists n, (update_content s nd).1. rewrite Hreg, Hh.
    rewrite list_lookup_insert_eq by (eapply lookup_lt_Some, Hnd).
    split_and!; try done; apply Hnode.
  - congruence.
  - rewrite Heq in Hr. apply set_content_Ok in Hr as (nd & Hnd & Hh & Hreg).
    apply create_node_Ok in Hc as (_ & _ & _ & _ & _ & _ & Hreg1 & _).
    exists n, (update_content s nd).1. rewrite Hreg, Hreg1, Hh, lookup_insert_eq.
    rewrite list_lookup_insert_eq by (eapply lookup_lt_Some, Hnd).
    split_and!; try done; apply Hnode.
Qed.

Lemma described_preserved (s s' : StageDescription.t) (m : RemoteTaskModel) :
  wf m ->
  StageDescription.id s' <> StageDescription.id s ->
  described s m ->
  described s (state_of (process_description s' m)).
Proof.
  intros (_ & W2 & _) Hne (n & nd & Hn & Hnd & Hf & Hname).
  destruct (process_description_frame s' m n nd Hnd) as (nd' & Hnd' & H1 & H2 & H3).
  { intros Hs'. apply Hne. now apply (W2 _ _ n). }
  exists n, nd'. split.
  - now apply (process_description_ext s' m).
  - split; [done|]. now rewrite H1, H2, H3.
Qed.

Lemma described_preserved_run (s : StageDescription.t)
    (msg : list StageDescription.t) (m : RemoteTaskModel) :
  wf m ->
  StageDescription.id s ∉ StageDescription.id <$> msg ->
  described s m ->
  described s (state_of (for_each process_description msg m)).
Proof.
  revert m. induction msg as [|s' msg IH]; intros m Hwf Hnotin Hd; simpl; [done|].
  apply not_elem_of_cons in Hnotin as [Hne Hnotin].
  pose proof (described_preserved s s' m Hwf (not_eq_sym Hne) Hd) as Hd'.
  pose proof (wf_process_description s' m Hwf) as Hwf'.
  destruct (process_description s' m) as [[] m1|m1]; simpl in *; auto.
Qed.

(** After a complete run, every entry whose parent was known at the start
    has its stage described. *)
Lemma described_after_run (msg : list StageDescription.t) (m m' : RemoteTaskModel) :
  wf m ->
  NoDup (StageDescription.id <$> msg) ->
  for_each process_description msg m = Ok tt m' ->
  forall s, s ∈ msg ->
    is_Some (id_to_stage_ m !! StageDescription.parent_id s) -> described s m'.
Proof.
  revert m. induction msg as [|s0 msg IH]; intros m Hwf Hnd Hrun s Hs Hpar.
  - now apply elem_of_nil in Hs.
  - simpl in Hrun. apply NoDup_cons in Hnd as [Hnotin Hnd].
    pose proof (wf_process_description s0 m Hwf) as Hwf1.
    pose proof (process_description_ext s0 m) as Hext.
    destruct (process_description s0 m) as [[] m1|m1] eqn:Hstep; simpl in *; [|done].
    apply elem_of_cons in Hs as [->|Hs].
    + pose proof (described_after s0 m m1 Hpar Hstep) as Hd.
      pose proof (described_preserved_run s0 msg m1 Hwf1 Hnotin Hd) as Hd'.
      now rewrite Hrun in Hd'.
    + apply (IH m1 Hwf1 Hnd Hrun s Hs).
      destruct Hpar as [p Hp]. exists p. now apply Hext.
Qed.

Lemma parent_known_at_start (m0 p : RemoteTaskModel) (i : N) (parent : nat) :
  ext m0 p ->
  id_to_stage_ p !! i = Some parent ->
  is_Some (heap m0 !! parent) ->
  is_Some (id_to_stage_ m0 !! i).
Proof.
  intros (_ & _ & _ & Hfresh) Hp [nd Hnd].
  destruct (id_to_stage_ m0 !! i) as [h|] eqn:Hi; [eauto|].
  rewrite (Hfresh i parent Hi Hp) in Hnd. done.
Qed.

(** The second description of a stage is silent. [m0] is the model before
    the first application of the batch, [p] a model reached afterwards. *)
Lemma redescription_silent (s : StageDescription.t) (m0 p : RemoteTaskModel) :
  wf m0 ->
  ext m0 p ->
  (is_Some (id_to_stage_ m0 !! StageDescription.parent_id s) -> described s p) ->
  signals (state_of (process_description s p)) = signals p.
Proof.
  intros (_ & _ & W3) Hext Hdesc.
  assert (Hvisited : forall parent k,
    id_to_stage_ p !! StageDescription.parent_id s = Some parent ->
    was_visited p k = true ->
    (k = parent \/ exists nd, heap p !! k = Some nd /\ parent_ nd = Some parent) ->
    described s p).
  { intros parent k Hpar Hv Hk. apply Hdesc.
    apply (parent_known_at_start m0 p _ parent Hext Hpar).
    destruct (ext_visited m0 p k Hext Hv) as [_ [nd0 Hnd0]].
    destruct Hk as [->|(nd & Hnd & Hp)]; [eauto|].
    destruct Hext as (Hnodes & _).
    destruct (Hnodes k nd0 Hnd0) as (nd' & Hnd' & (_ & Hp' & _)).
    rewrite Hnd in Hnd'. injection Hnd' as <-.
    apply (W3 k nd0 parent Hnd0). congruence. }
  destruct (process_description_inv s p)
    as [[_ ->]|(parent & Hpar & [(n & Hn & ->)|[(_ & _ & ->)|(Hi & n & m1 & Hc & ->)]])];
    try done.
  - destruct (set_content_inv s parent n p _ eq_refl) as [->|(nd & Hnd & Hp & H)];
      [done|].
    destruct H as [[_ ->]|[(_ & _ & ->)|(Hnotify & idx & _ & ->)]]; try done.
    exfalso. apply andb_true_iff in Hnotify as [Hchanged Hv].
    destruct (Hvisited parent n Hpar) as (n' & nd' & Hn' & Hnd' & Hf & Hname).
    + unfold was_visited. now rewrite Hnd.
    + right. eauto.
    + rewrite Hn in Hn'. injection Hn' as <-. rewrite Hnd in Hnd'.
      injection Hnd' as <-.
      rewrite (update_content_settled s nd Hf Hname) in Hchanged. done.
  - apply create_node_Ok in Hc as (pnode & pidx & Hp & _ & -> & Hh & _ & _ & Hs).
    assert (Hv : has_flag (node_flags_ pnode) WAS_VISITED = false).
    { destruct (has_flag (node_flags_ pnode) WAS_VISITED) eqn:Hv; [|done].
      destruct (Hvisited parent parent Hpar) as (n' & _ & Hn' & _).
      - unfold was_visited. now rewrite Hp.
      - now left.
      - congruence. }
    rewrite Hv, app_nil_r in Hs. rewrite <- Hs.
    assert (Hnew : heap m1 !! length (heap p) = Some (new_Node (Some parent))).
    { rewrite Hh, lookup_app_r by (now rewrite length_alter).
      now rewrite length_alter, Nat.sub_diag. }
    destruct (set_content_inv s parent (length (heap p)) m1 _ eq_refl)
      as [->|(nd & Hnd & _ & H)]; [done|].
    destruct H as [[_ ->]|[(_ & _ & ->)|(Hnotify & idx & _ & ->)]]; try done.
    exfalso. rewrite Hnew in Hnd. injection Hnd as <-.
    apply andb_true_iff in Hnotify as [_ Hvis]. done.
Qed.

(** The second application of a batch: nothing is emitted. *)
Lemma second_run_silent (msg : list StageDescription.t) (m0 p : RemoteTaskModel) :
  wf m0 -> wf p -> ext m0 p ->
  NoDup (StageDescription.id <$> msg) ->
  (forall s, s ∈ msg ->
     is_Some (id_to_stage_ m0 !! StageDescription.parent_id s) -> described s p) ->
  signals (state_of (for_each process_description msg p)) = signals p.
Proof.
  intros Hwf0. revert p. induction msg as [|s msg IH]; intros p Hwf Hext Hnd Hdesc;
    simpl; [done|].
  apply NoDup_cons in Hnd as [Hnotin Hnd].
  pose proof (redescription_silent s m0 p Hwf0 Hext
                (Hdesc s (list_elem_of_here _ _))) as Hsilent.
  pose proof (wf_process_description s p Hwf) as Hwf1.
  pose proof (process_description_ext s p) as Hext1.
  assert (Hdesc1 : forall s', s' ∈ msg ->
    is_Some (id_to_stage_ m0 !! StageDescription.parent_id s') ->
    described s' (state_of (process_description s p))).
  { intros s' Hs' Hpar. apply described_preserved; [done| |].
    - intros Heq. apply Hnotin. rewrite Heq. now apply list_elem_of_fmap_2.
    - apply Hdesc; [now apply list_elem_of_further | done]. }
  destruct (process_description s p) as [[] p1|p1]; simpl in *; [|done].
  rewrite <- Hsilent. apply IH; try done. now apply (ext_trans m0 p p1).
Qed.

(** C6, as stated, does not hold. (1) The empty batch notifies the root row
    each time it is applied. (2) A batch that describes one visited stage
    twice, under two names, renames it back and forth on every
    application. *)
Lemma C6_second_application_notifies :
  signals (apply_descriptions new_RemoteTaskModel [[]; []])
  <> signals (apply_descriptions new_RemoteTaskModel [[]])
  /\ signals (apply_descriptions one_stage_visited [described_twice; described_twice])
     <> signals (apply_descriptions one_stage_visited [described_twice]).
Proof. split; vm_compute; discriminate. Qed.

(** C6, amended: for a well-formed tree and a non-empty batch whose entries
    have pairwise distinct stage ids, once the first application has
    completed, a second application of the same batch emits no signal,
    whether it completes or stops at the parent assertion. (The trees the
    model builds are well formed: [wf_new], [wf_processStageDescriptions],
    [wf_processStageStatistics], [wf_index], [wf_setData].) *)
Theorem C6_redescription_is_silent :
  forall (m : RemoteTaskModel) (msg : list StageDescription.t),
    wf m ->
    msg <> [] ->
    NoDup (StageDescription.id <$> msg) ->
    completed (processStageDescriptions m msg) = true ->
    signals (apply_descriptions m [msg; msg]) = signals (apply_descriptions m [msg]).
Proof.
  intros m msg Hwf Hne Hnd Hdone. unfold apply_descriptions. simpl.
  destruct msg as [|s0 msg]; [done|]. clear Hne.
  rewrite !processStageDescriptions_cons in *.
  pose proof (for_each_ext process_description (s0 :: msg) m process_description_ext)
    as Hext.
  pose proof (for_each_wf process_description (s0 :: msg) m wf_process_description Hwf)
    as Hwf1.
  destruct (for_each process_description (s0 :: msg) m) as [[] m1|m1] eqn:Hrun;
    [|done].
  simpl in *.
  apply (second_run_silent (s0 :: msg) m m1 Hwf Hwf1 Hext Hnd).
  intros s Hs Hpar. exact (described_after_run (s0 :: msg) m m1 Hwf Hnd Hrun s Hs Hpar).
Qed.

(** A batch that renames the visited stage of scenario 2, changes its
    interface flags and gives it a child: the first application emits the
    [dataChanged] of the stage and the two signals of the new row, the
    second one is silent. *)
Lemma C6_redescription_is_silent_witness :
  signals (apply_descriptions one_stage_visited [renamed_with_child])
  = [dataChanged (Index 0 0 root_ true) (Index 0 2 root_ true);
     rowsAboutToBeInserted (Index 0 0 root_ true) 0 0;
     rowsInserted (Index 0 0 root_ true) 0 0]
  /\ signals (apply_descriptions one_stage_visited
                [renamed_with_child; renamed_with_child])
     = signals (apply_descriptions one_stage_visited [renamed_with_child]).
Proof.
  split; [reflexivity|].
  apply (C6_redescription_is_silent one_stage_visited renamed_with_child).
  - apply wf_index, wf_processStageDescriptions, wf_new.
  - discriminate.
  - compute_done.
  - reflexivity.
Defined.

(** ** Creation ranks *)

Lemma ranks_in_order_new : ranks_in_order new_RemoteSolutionModel.
Proof. reflexivity. Qed.

Lemma process_id_ranks (default_cost : spec_float) (p : N * N)
    (t : RemoteSolutionModel) (b : bool) :
  ranks_in_order t ->
  ranks_in_order (state_of (process_id default_cost p (t, b))).1.
Proof.
  intros Hr. unfold process_id.
  destruct (match last (data_ t) with Some back => id back <? p.1 | None => true end).
  - unfold ranks_in_order in *. simpl.
    rewrite fmap_app, length_app, Hr. simpl.
    rewrite Nat.add_1_r, seq_S, fmap_app. simpl.
    do 3 f_equal. lia.
  - destruct (findById (data_ t) p.1) as [pos|]; [|done].
    destruct (data_ t !! pos) as [item|] eqn:Hpos; [|done].
    unfold ranks_in_order in *. simpl.
    rewrite length_insert, list_fmap_insert. simpl.
    rewrite list_insert_id; [done|]. now rewrite list_lookup_fmap, Hpos.
Qed.

Lemma for_each_process_id_ranks (default_cost : spec_float) (ps : list (N * N))
    (t : RemoteSolutionModel) (b : bool) :
  ranks_in_order t ->
  ranks_in_order (state_of (for_each (process_id default_cost) ps (t, b))).1.
Proof.
  revert t b. induction ps as [|p ps IH]; intros t b Hr; [exact Hr|].
  cbn [for_each]. pose proof (process_id_ranks default_cost p t b Hr) as Hp.
  destruct (process_id default_cost p (t, b)) as [[] [t1 b1]|[t1 b1]];
    cbn [bind state_of fst] in *; [now apply IH | exact Hp].
Qed.

(** [processSolutionIDs] numbers the records in the order it stores them. *)
Lemma processSolutionIDs_ranks (t : RemoteSolutionModel) (ids : list N)
    (default_cost : spec_float) :
  ranks_in_order t ->
  ranks_in_order (state_of (processSolutionIDs t ids default_cost)).
Proof.
  intros Hr. unfold processSolutionIDs.
  pose proof (for_each_process_id_ranks default_cost (ids_by_creation ids) t false Hr)
    as H.
  destruct (for_each _ _ _) as [[] [t1 b1]|[t1 b1]]; simpl in *; exact H.
Qed.

(** With fewer than 2^32 records the creation ranks are distinct. *)
Lemma ranks_in_order_NoDup (t : RemoteSolutionModel) :
  ranks_in_order t ->
  N.of_nat (length (data_ t)) < 2 ^ 32 ->
  NoDup (creation_rank <$> data_ t).
Proof.
  intros -> Hlen. apply NoDup_fmap_2_strong; [|apply NoDup_seq].
  intros x y Hx%elem_of_seq Hy%elem_of_seq. unfold wrap32.
  rewrite !N.mod_small by lia. lia.
Qed.

(** * More about the stage tree *)

(** ** The consistency of the tree *)

Lemma for_each_preserves {S X : Type} (P : S -> Prop)
    (body : X -> S -> result S unit) (xs : list X) (s : S) :
  (forall x s', P s' -> P (state_of (body x s'))) ->
  P s -> P (state_of (for_each body xs s)).
Proof.
  intros Hbody. revert s. induction xs as [|x xs IH]; intros s Hs; [exact Hs|].
  cbn [for_each]. specialize (Hbody x s Hs).
  destruct (body x s) as [[] s1|s1]; cbn [bind state_of] in *; auto.
Qed.

Lemma tree_ok_new : tree_ok new_RemoteTaskModel.
Proof.
  unfold tree_ok, new_RemoteTaskModel. simpl. split_and!.
  - eexists. split; reflexivity.
  - intros [|n] nd; simpl; [done|]. now rewrite lookup_nil.
  - intros [|p] pn c; simpl; [|now rewrite lookup_nil].
    intros [= <-]. simpl. now intros ?%elem_of_nil.
  - intros [|p] pn; simpl; [|now rewrite lookup_nil].
    intros [= <-]. simpl. constructor.
  - intros [|n]; simpl; [|rewrite lookup_nil; now intros [? ?]].
    intros _. exists 0. apply lookup_singleton_eq.
Qed.

(** Operations that keep the registry and the parent and children of every
    node keep the tree consistent. *)
Lemma tree_ok_same_shape (m m' : RemoteTaskModel) :
  id_to_stage_ m' = id_to_stage_ m ->
  (forall k, parent_ <$> heap m' !! k = parent_ <$> heap m !! k) ->
  (forall k, children_ <$> heap m' !! k = children_ <$> heap m !! k) ->
  tree_ok m -> tree_ok m'.
Proof.
  intros Hi Hp Hc (T0 & T1 & T2 & T3 & T5).
  assert (Hback : forall k nd', heap m' !! k = Some nd' ->
    exists nd, heap m !! k = Some nd /\ parent_ nd = parent_ nd'
               /\ children_ nd = children_ nd').
  { intros k nd' Hk. specialize (Hp k). specialize (Hc k). rewrite Hk in Hp, Hc.
    destruct (heap m !! k) as [nd|]; [|done].
    apply (inj Some) in Hp, Hc. eauto. }
  assert (Hforth : forall k nd, heap m !! k = Some nd ->
    exists nd', heap m' !! k = Some nd' /\ parent_ nd' = parent_ nd
                /\ children_ nd' = children_ nd).
  { intros k nd Hk. specialize (Hp k). specialize (Hc k). rewrite Hk in Hp, Hc.
    destruct (heap m' !! k) as [nd'|]; [|done].
    apply (inj Some) in Hp, Hc. eauto. }
  unfold tree_ok. rewrite Hi. split_and!.
  - destruct T0 as (rn & Hr & Hpar). destruct (Hforth _ _ Hr) as (rn' & ? & ? & _).
    exists rn'. split; [done|congruence].
  - intros n nd' Hn Hne. destruct (Hback _ _ Hn) as (nd & Hnd & Hpar & _).
    destruct (T1 n nd Hnd Hne) as (p & pn & Hp1 & Hp2 & Hin).
    destruct (Hforth _ _ Hp2) as (pn' & ? & _ & Hch).
    exists p, pn'. split_and!; [congruence|done|now rewrite Hch].
  - intros p pn' c Hpn Hin. destruct (Hback _ _ Hpn) as (pn & Hpn0 & _ & Hch).
    rewrite <- Hch in Hin. destruct (T2 p pn c Hpn0 Hin) as (cn & Hcn & Hpar).
    destruct (Hforth _ _ Hcn) as (cn' & ? & ? & _).
    exists cn'. split; [done|congruence].
  - intros p pn' Hpn. destruct (Hback _ _ Hpn) as (pn & Hpn0 & _ & Hch).
    rewrite <- Hch. now apply (T3 p).
  - intros n [nd' Hn]. destruct (Hback _ _ Hn) as (nd & Hnd & _). apply T5. eauto.
Qed.

Lemma tree_ok_update_node (m : RemoteTaskModel) (n : nat) (f : Node -> Node) :
  (forall nd, parent_ (f nd) = parent_ nd) ->
  (forall nd, children_ (f nd) = children_ nd) ->
  tree_ok m -> tree_ok (update_node n f m).
Proof.
  intros Hp Hc. apply tree_ok_same_shape; [done|..]; intros k; simpl;
    (destruct (decide (k = n)) as [->|Hne];
     [rewrite list_lookup_alter_eq; destruct (heap m !! n); simpl; [|done];
      now rewrite ?Hp, ?Hc
     |now rewrite list_lookup_alter_ne]).
Qed.

Lemma tree_ok_insert_node (m : RemoteTaskModel) (n : nat) (nd nd' : Node) :
  heap m !! n = Some nd -> parent_ nd' = parent_ nd -> children_ nd' = children_ nd ->
  tree_ok m -> tree_ok (set_heap (<[n := nd']> (heap m)) m).
Proof.
  intros Hn Hp Hc. apply tree_ok_same_shape; [done|..]; intros k; simpl;
    (destruct (decide (k = n)) as [->|Hne];
     [rewrite list_lookup_insert_eq by (eapply lookup_lt_Some, Hn);
      rewrite Hn; simpl; now rewrite ?Hp, ?Hc
     |now rewrite list_lookup_insert_ne]).
Qed.

Lemma tree_ok_same_tree (m m' : RemoteTaskModel) :
  same_tree m m' -> tree_ok m -> tree_ok m'.
Proof.
  intros Hsame. apply tree_ok_same_shape; [apply Hsame|..]; intros k;
    now apply (same_tree_field m m' Hsame).
Qed.

Lemma create_node_lookup (parent : nat) (i : N) (m m' : RemoteTaskModel)
    (n k : nat) :
  create_node parent i m = Ok n m' ->
  n = length (heap m) /\ (parent < n)%nat
  /\ heap m' !! k
     = if decide (k = n) then Some (new_Node (Some parent))
       else if decide (k = parent) then push_child n <$> heap m !! k
       else heap m !! k.
Proof.
  intros (pnode & pidx & Hp & _ & -> & Hh & _)%create_node_Ok.
  pose proof (lookup_lt_Some _ _ _ Hp) as Hlt. split; [done|]. split; [done|].
  rewrite Hh. destruct (decide (k = length (heap m))) as [->|Hne].
  - rewrite lookup_app_r by (now rewrite length_alter).
    now rewrite length_alter, Nat.sub_diag.
  - destruct (decide (k < length (heap m))%nat) as [Hk|Hk].
    + rewrite lookup_app_l by (now rewrite length_alter).
      destruct (decide (k = parent)) as [->|Hne'].
      * apply list_lookup_alter_eq.
      * now apply list_lookup_alter_ne.
    + rewrite lookup_ge_None_2 by (rewrite length_app, length_alter; simpl; lia).
      destruct (decide (k = parent)) as [->|Hne']; [lia|].
      symmetry. apply lookup_ge_None_2. lia.
Qed.

Lemma tree_ok_create_node (parent : nat) (i : N) (m m' : RemoteTaskModel) (n : nat) :
  id_to_stage_ m !! i = None -> create_node parent i m = Ok n m' ->
  tree_ok m -> tree_ok m'.
Proof.
  intros Hi Hc (T0 & T1 & T2 & T3 & T5).
  assert (Hl := fun k => create_node_lookup parent i m m' n k Hc).
  destruct (Hl 0%nat) as (Hn & Hlt & _).
  apply create_node_Ok in Hc as (pnode & pidx & Hp & _ & _ & _ & Hr & _).
  assert (Hold : forall k nd', heap m' !! k = Some nd' -> k <> n ->
    exists nd, heap m !! k = Some nd /\ parent_ nd' = parent_ nd
      /\ children_ nd' = if decide (k = parent) then children_ nd ++ [n]
                         else children_ nd).
  { intros k nd' Hk Hne. destruct (Hl k) as (_ & _ & Hk'). rewrite Hk in Hk'.
    rewrite decide_False in Hk' by done.
    destruct (decide (k = parent)) as [->|Hne'].
    - rewrite Hp in Hk'. simpl in Hk'. injection Hk' as ->. eauto.
    - eauto. }
  assert (Hnew : forall k nd, heap m !! k = Some nd ->
    exists nd', heap m' !! k = Some nd' /\ parent_ nd' = parent_ nd
      /\ children_ nd' = if decide (k = parent) then children_ nd ++ [n]
                         else children_ nd).
  { intros k nd Hk. pose proof (lookup_lt_Some _ _ _ Hk) as Hklt.
    destruct (Hl k) as (_ & _ & Hk'). rewrite decide_False in Hk' by lia.
    destruct (decide (k = parent)) as [->|Hne'].
    - rewrite Hk in Hk'. simpl in Hk'. eauto.
    - rewrite Hk in Hk'. eauto. }
  assert (Hfresh : heap m' !! n = Some (new_Node (Some parent))).
  { destruct (Hl n) as (_ & _ & ->). now rewrite decide_True. }
  unfold tree_ok. rewrite Hr. split_and!.
  - destruct T0 as (rn & Hroot & Hpar). destruct (Hnew _ _ Hroot) as (rn' & ? & ? & _).
    exists rn'. split; [done|congruence].
  - intros k nd' Hk Hne. destruct (decide (k = n)) as [->|Hkn].
    + rewrite Hfresh in Hk. injection Hk as <-.
      destruct (Hnew _ _ Hp) as (pn' & ? & _ & Hch). rewrite decide_True in Hch by done.
      exists parent, pn'. split_and!; [done|done|].
      rewrite Hch. apply elem_of_app. right. now apply list_elem_of_singleton.
    + destruct (Hold k nd' Hk Hkn) as (nd & Hnd & Hpar & _).
      destruct (T1 k nd Hnd Hne) as (p & pn & Hp1 & Hp2 & Hin).
      destruct (Hnew _ _ Hp2) as (pn' & ? & _ & Hch).
      exists p, pn'. split_and!; [congruence|done|].
      rewrite Hch. destruct (decide (p = parent)); [|done].
      apply elem_of_app. now left.
  - intros p pn' c Hpn Hin. destruct (decide (p = n)) as [->|Hpn'].
    + rewrite Hfresh in Hpn. injection Hpn as <-. now apply elem_of_nil in Hin.
    + destruct (Hold p pn' Hpn Hpn') as (pn & Hpn0 & _ & Hch). rewrite Hch in Hin.
      assert (Hcase : c ∈ children_ pn \/ (p = parent /\ c = n)).
      { destruct (decide (p = parent)) as [->|]; [|now left].
        apply elem_of_app in Hin as [?| ->%list_elem_of_singleton]; auto. }
      destruct Hcase as [Hc0|[-> ->]].
      * destruct (T2 p pn c Hpn0 Hc0) as (cn & Hcn & Hpar).
        destruct (Hnew _ _ Hcn) as (cn' & ? & ? & _).
        exists cn'. split; [done|congruence].
      * exists (new_Node (Some parent)). done.
  - intros p pn' Hpn. destruct (decide (p = n)) as [->|Hpn'].
    + rewrite Hfresh in Hpn. injection Hpn as <-. constructor.
    + destruct (Hold p pn' Hpn Hpn') as (pn & Hpn0 & _ & Hch). rewrite Hch.
      destruct (decide (p = parent)) as [->|]; [|now apply (T3 p)].
      apply NoDup_app. split; [now apply (T3 parent)|]. split; [|apply NoDup_singleton].
      intros c Hc0 ->%list_elem_of_singleton.
      destruct (T2 parent pn n Hpn0 Hc0) as (cn & Hcn%lookup_lt_Some & _). lia.
  - intros k [nd' Hk]. destruct (decide (k = n)) as [->|Hkn].
    + exists i. apply lookup_insert_eq.
    + destruct (Hold k nd' Hk Hkn) as (nd & Hnd & _).
      destruct (T5 k) as [j Hj]; [eauto|]. exists j.
      rewrite lookup_insert_ne; [done|]. congruence.
Qed.

Lemma tree_ok_set_content (s : StageDescription.t) (parent n : nat)
    (m : RemoteTaskModel) :
  tree_ok m -> tree_ok (state_of (set_content s parent n m)).
Proof.
  intros Hok.
  destruct (set_content_inv s parent n m _ eq_refl) as [->|(nd & Hn & _ & H)];
    [done|].
  destruct (update_content_fields s nd) as (Hp & Hc & _).
  assert (Hw := tree_ok_insert_node m n nd (update_content s nd).1 Hn Hp Hc Hok).
  destruct H as [[_ ->]|[(_ & _ & ->)|(_ & idx & _ & ->)]]; exact Hw.
Qed.

Lemma tree_ok_process_description (s : StageDescription.t) (m : RemoteTaskModel) :
  tree_ok m -> tree_ok (state_of (process_description s m)).
Proof.
  intros Hok. destruct (process_description_inv s m)
    as [[_ ->]|(parent & _ & [(n & _ & ->)|[(_ & _ & ->)|(Hi & n & m1 & Hc & ->)]])].
  - done.
  - now apply tree_ok_set_content.
  - done.
  - apply tree_ok_set_content. eapply tree_ok_create_node; eauto.
Qed.

Lemma tree_ok_index (m : RemoteTaskModel) (r c : Z) (parent : QModelIndex) :
  tree_ok m -> tree_ok (state_of (index m r c parent)).
Proof.
  intros Hok. destruct (index_inv m r c parent) as [[-> _]|(p & child & _ & _ & ->)];
    [done|]. now apply tree_ok_update_node.
Qed.

Lemma tree_ok_processStageDescriptions (m : RemoteTaskModel)
    (msg : list StageDescription.t) :
  tree_ok m -> tree_ok (state_of (processStageDescriptions m msg)).
Proof.
  intros Hok. destruct msg as [|s msg].
  - rewrite processStageDescriptions_empty. simpl.
    destruct (first_top_level m); [|done].
    apply tree_ok_update_node; [done..|]. now apply tree_ok_update_node.
  - rewrite processStageDescriptions_cons.
    apply (for_each_preserves tree_ok); [apply tree_ok_process_description | done].
Qed.

Lemma tree_ok_processStageStatistics (m : RemoteTaskModel)
    (msg : list StageStatistics.t) :
  tree_ok m -> tree_ok (state_of (processStageStatistics m msg)).
Proof.
  apply (for_each_preserves tree_ok). intros s m' Hok. unfold process_statistics.
  destruct (id_to_stage_ m' !! StageStatistics.id s) as [n|]; [|done].
  pose proof (update_solutions_same_tree s n m') as Hsame.
  destruct (update_solutions s n m') as [changed m2|m2]; simpl in *.
  - apply (tree_ok_same_tree m' m2 Hsame) in Hok.
    destruct (changed && was_visited m2 n); [|done].
    now destruct (index_of m2 n).
  - now apply (tree_ok_same_tree m' m2 Hsame).
Qed.

Lemma tree_ok_setData (m : RemoteTaskModel) (i : QModelIndex) (value : string)
    (role : ItemDataRole) :
  tree_ok m -> tree_ok (state_of (setData m i value role)).
Proof.
  intros Hok. unfold setData. destruct (node m i) as [[n|]|]; try done.
  destruct (negb (column i =? 0)%Z || negb (bool_decide (role = EditRole)));
    [done|].
  simpl. apply tree_ok_update_node; [done..|].
  apply tree_ok_update_node; [intros nd; apply setName_fields..|done].
Qed.

Lemma consistent_operation (m : RemoteTaskModel) (o : Operation) :
  consistent m -> consistent (apply_operation m o).
Proof.
  intros [Hwf Hok]. destruct o as [msg|msg|r c parent|i value role]; simpl; split.
  - now apply wf_processStageDescriptions.
  - now apply tree_ok_processStageDescriptions.
  - now apply wf_processStageStatistics.
  - now apply tree_ok_processStageStatistics.
  - now apply wf_index.
  - now apply tree_ok_index.
  - now apply wf_setData.
  - now apply tree_ok_setData.
Qed.

Lemma consistent_new : consistent new_RemoteTaskModel.
Proof. split; [apply wf_new | apply tree_ok_new]. Qed.

Lemma consistent_operations (m : RemoteTaskModel) (ops : list Operation) :
  consistent m -> consistent (apply_operations m ops).
Proof.
  unfold apply_operations. revert m.
  induction ops as [|o ops IH]; intros m H; simpl; [done|].
  apply IH. now apply consistent_operation.
Qed.

Lemma small_tree_consistent : consistent small_tree.
Proof. apply consistent_operations, consistent_new. Qed.

(** X1: the tree invariant. The model starts consistent and stays consistent
    under every sequence of description batches, statistics batches, index
    requests and renamings, also when a call stops at an assertion: ids are
    registered to allocated nodes, no node has two ids, every node is
    registered, the root has no parent, every other node is listed exactly
    once among the children of its parent, and every listed child points
    back to the node that lists it. *)
Theorem X1_tree_stays_consistent :
  forall ops : list Operation,
    consistent (apply_operations new_RemoteTaskModel ops).
Proof. intros ops. apply consistent_operations, consistent_new. Qed.

(** ** Indexes and nodes *)

Lemma row_of_elem (children : list nat) (n : nat) :
  n ∈ children -> is_Some (row_of children n).
Proof.
  induction children as [|c cs IH]; [now intros ?%elem_of_nil|].
  intros Hin. simpl. destruct (decide (c = n)); [eauto|].
  apply elem_of_cons in Hin as [->|Hin]; [done|].
  destruct (IH Hin) as [r ->]. simpl. eauto.
Qed.

Lemma row_of_NoDup (children : list nat) (n r : nat) :
  NoDup children -> children !! r = Some n -> row_of children n = Some r.
Proof.
  intros Hnd. revert r. induction Hnd as [|c cs Hc Hnd IH]; intros r; [done|].
  destruct r as [|r]; simpl.
  - intros [= ->]. now rewrite decide_True.
  - intros Hr. destruct (decide (c = n)) as [->|Hne].
    + exfalso. apply Hc. eapply list_elem_of_lookup_2, Hr.
    + now rewrite (IH r Hr).
Qed.

Lemma index_of_allocated (m : RemoteTaskModel) (n : nat) :
  tree_ok m -> is_Some (heap m !! n) -> is_Some (index_of m n).
Proof.
  intros (_ & T1 & _) [nd Hn]. unfold index_of.
  destruct (decide (n = root_)) as [|Hne]; [eauto|].
  destruct (T1 n nd Hn Hne) as (p & pn & Hp & Hpn & Hin).
  rewrite Hn. simpl. rewrite Hp. simpl. rewrite Hpn. simpl.
  destruct (row_of_elem _ _ Hin) as [r ->]. simpl. eauto.
Qed.

Lemma node_child (m : RemoteTaskModel) (r c : Z) (p n : nat) :
  node m (Index r c p true) = Some (Some n) ->
  (0 <= r)%Z
  /\ exists pn, heap m !! p = Some pn /\ children_ pn !! Z.to_nat r = Some n.
Proof.
  simpl. destruct (heap m !! p) as [pn|]; simpl; [|done]. unfold child_at.
  destruct (Z.ltb_spec r 0); [done|].
  destruct (children_ pn !! Z.to_nat r) as [x|] eqn:Hx; [|done].
  intros [= <-]. split; [done|]. eauto.
Qed.

(** X2: indexes and nodes correspond in a consistent tree. The index made
    for an allocated node exists (the assertion in [index(const Node* n)]
    does not fail) and [node] resolves it to that node; conversely a valid
    index of this model that [node] resolves to a node is, up to its
    column, the index made for that node. *)
Theorem X2_index_node_round_trip :
  forall (m : RemoteTaskModel),
    tree_ok m ->
    (forall n : nat,
        is_Some (heap m !! n) ->
        exists idx, index_of m n = Some idx /\ node m idx = Some (Some n))
    /\ (forall (r c : Z) (p n : nat),
          node m (Index r c p true) = Some (Some n) ->
          index_of m n = Some (Index r 0 p true)).
Proof.
  intros m Hok. split.
  - intros n Hn. destruct (index_of_allocated m n Hok Hn) as [idx Hidx].
    exists idx. split; [done|]. now apply index_of_node.
  - intros r c p n (Hr & pn & Hp & Hrow)%node_child.
    destruct Hok as ((rn & Hroot & Hrp) & _ & T2 & T3 & _).
    destruct (T2 p pn n Hp) as (cn & Hcn & Hpar);
      [eapply list_elem_of_lookup_2, Hrow|].
    unfold index_of. destruct (decide (n = root_)) as [->|Hne]; [congruence|].
    rewrite Hcn. simpl. rewrite Hpar. simpl. rewrite Hp. simpl.
    rewrite (row_of_NoDup _ _ _ (T3 p pn Hp) Hrow). simpl.
    now rewrite Z2Nat.id.
Qed.

Lemma X2_index_node_round_trip_witness :
  index_of small_tree 3 = Some (Index 0 0 1 true).
Proof.
  refine (proj2 (X2_index_node_round_trip small_tree _) 0%Z 2%Z 1%nat 3%nat _).
  - apply small_tree_consistent.
  - reflexivity.
Defined.

(** X3: [parent] in a consistent tree. For a valid index of this model that
    resolves to a node, [parent] does not fail and returns an index that
    resolves to the node listing that row; it is the invalid index exactly
    for the rows of the root. The invalid index, and an index of another
    model whose internal pointer is set, have the invalid index as parent. A
    valid index whose internal pointer is null fails [Q_ASSERT(p)], whatever
    model it belongs to. *)
Theorem X3_parent_of_an_index :
  forall (m : RemoteTaskModel),
    tree_ok m ->
    (forall (r c : Z) (p n : nat),
        node m (Index r c p true) = Some (Some n) ->
        exists pidx,
          parent m (with_pointer (Index r c p true)) = Some pidx
          /\ node m pidx = Some (Some p)
          /\ (pidx = InvalidIndex <-> p = root_)
          /\ column pidx <> 1%Z /\ column pidx <> 2%Z)
    /\ parent m (with_pointer InvalidIndex) = Some InvalidIndex
    /\ (forall (r c : Z) (p : nat),
          parent m (with_pointer (Index r c p false)) = Some InvalidIndex)
    /\ (forall (r c : Z) (own : bool), parent m (null_pointer r c own) = None).
Proof.
  intros m Hok. split; [|split_and!; reflexivity].
  intros r c p n (Hr & pn & Hp & Hrow)%node_child. simpl.
  destruct (decide (p = root_)) as [->|Hne].
  - rewrite bool_decide_eq_true_2 by done. exists InvalidIndex. simpl. done.
  - rewrite bool_decide_eq_false_2 by done.
    destruct (index_of_allocated m p Hok) as [pidx Hpidx]; [eauto|].
    exists pidx. split; [done|]. split; [now apply index_of_node|].
    apply index_of_inv in Hpidx as [[? _]|(?&?&?&?&_&_&_&_&->)]; [done|].
    simpl. split_and!; try done.
Qed.

Lemma X3_parent_of_an_index_witness :
  (exists pidx,
     parent small_tree (with_pointer (Index 0 2 1 true)) = Some pidx
     /\ node small_tree pidx = Some (Some 1%nat)
     /\ (pidx = InvalidIndex <-> 1%nat = root_)
     /\ column pidx <> 1%Z /\ column pidx <> 2%Z)
  /\ parent small_tree (null_pointer 0 0 false) = None.
Proof.
  destruct (X3_parent_of_an_index small_tree (proj2 small_tree_consistent))
    as (H1 & _ & _ & H4).
  split.
  - exact (H1 0%Z 2%Z 1%nat 3%nat eq_refl).
  - exact (H4 0%Z 0%Z false).
Defined.

(** X4: the bounds of [index(row, column, parent)]. When the parent index
    resolves to a node and is not in column 1 or 2, the result is a valid
    index exactly when the row is below [rowCount(parent)] and the column
    below 3, neither being negative. An index out of these bounds is the
    invalid index and the model is not touched; an index within them carries
    the row, the column and the parent node, resolves to the child of that
    row, and the only change to the model is that this child is marked as
    visited. *)
Theorem X4_index_within_bounds :
  forall (m : RemoteTaskModel) (r c : Z) (parent_index : QModelIndex) (p : nat),
    node m parent_index = Some (Some p) ->
    (column parent_index <= 0)%Z ->
    exists (idx : QModelIndex) (m' : RemoteTaskModel),
      index m r c parent_index = Ok idx m'
      /\ (idx <> InvalidIndex
          <-> (0 <= r < rowCount m parent_index /\ 0 <= c < 3)%Z)
      /\ (idx = InvalidIndex -> m' = m)
      /\ (idx <> InvalidIndex ->
          idx = Index r c p true
          /\ exists child,
               node m idx = Some (Some child)
               /\ m' = update_node child (set_node_flag WAS_VISITED) m
               /\ (is_Some (heap m !! child) -> was_visited m' child = true)).
Proof.
  intros m r c parent_index p Hp Hcol. unfold index, rowCount. rewrite Hp.
  assert ((0 <? column parent_index)%Z = false) as -> by (apply Z.ltb_ge; lia).
  unfold columnCount.
  destruct (Z.ltb_spec c 0) as [Hc0|Hc0]; simpl.
  { exists InvalidIndex, m. split_and!; try done. split; [done|lia]. }
  destruct (Z.leb_spec 3 c) as [Hc3|Hc3]; simpl.
  { exists InvalidIndex, m. split_and!; try done. split; [done|lia]. }
  destruct (heap m !! p) as [pn|] eqn:Hpn; simpl.
  2: { exists InvalidIndex, m. split_and!; try done. split; [done|lia]. }
  unfold child_at. destruct (Z.ltb_spec r 0) as [Hr0|Hr0].
  { exists InvalidIndex, m. split_and!; try done. split; [done|lia]. }
  destruct (children_ pn !! Z.to_nat r) as [child|] eqn:Hrow.
  - pose proof (lookup_lt_Some _ _ _ Hrow) as Hlt.
    eexists _, _. split; [reflexivity|]. split_and!.
    + split; [lia|done].
    + done.
    + intros _. split; [done|]. exists child. split_and!.
      * simpl. rewrite Hpn. simpl. unfold child_at.
        destruct (Z.ltb_spec r 0); [lia|]. now rewrite Hrow.
      * done.
      * intros [cn Hcn]. unfold was_visited, update_node. simpl.
        rewrite list_lookup_alter_eq, Hcn. simpl. apply was_visited_set.
  - apply lookup_ge_None in Hrow.
    exists InvalidIndex, m. split_and!; try done. split; [done|lia].
Qed.

Lemma X4_index_within_bounds_witness :
  exists (idx : QModelIndex) (m' : RemoteTaskModel),
    index small_tree 1 2 InvalidIndex = Ok idx m'
    /\ (idx <> InvalidIndex
        <-> (0 <= 1 < rowCount small_tree InvalidIndex /\ 0 <= 2 < 3)%Z)
    /\ (idx = InvalidIndex -> m' = small_tree)
    /\ (idx <> InvalidIndex ->
        idx = Index 1 2 root_ true
        /\ exists child,
             node small_tree idx = Some (Some child)
             /\ m' = update_node child (set_node_flag WAS_VISITED) small_tree
             /\ (is_Some (heap small_tree !! child) -> was_visited m' child = true)).
Proof.
  apply (X4_index_within_bounds small_tree 1 2 InvalidIndex root_).
  - reflexivity.
  - simpl. lia.
Defined.

(** ** What the operations never undo *)

Lemma node_grows_refl (nd : Node) : node_grows nd nd.
Proof. repeat split; done. Qed.

Lemma grows_refl (m : RemoteTaskModel) : grows m m.
Proof.
  split_and!; try done. intros n nd H. exists nd. split; [done|apply node_grows_refl].
Qed.

Lemma grows_trans (a b c : RemoteTaskModel) : grows a b -> grows b c -> grows a c.
Proof.
  intros (Hn1 & Hi1 & Hd1) (Hn2 & Hi2 & Hd2). split_and!; [|auto..].
  intros n nd H. destruct (Hn1 n nd H) as (nd' & H' & (P1 & C1 & V1 & R1)).
  destruct (Hn2 n nd' H') as (nd'' & H'' & (P2 & C2 & V2 & R2)).
  exists nd''. split; [done|]. split_and!; [congruence| |auto..].
  now transitivity (children_ nd').
Qed.

Lemma grows_emit (m : RemoteTaskModel) (sig : Signal) : grows m (emit sig m).
Proof. exact (grows_refl m). Qed.

Lemma ext_grows (m m' : RemoteTaskModel) :
  ext m m' -> flags_ m' = flags_ m -> grows m m'.
Proof.
  intros (Hn & _ & Hi & _) Hf. split_and!; [|done|now rewrite Hf].
  intros n nd H. destruct (Hn n nd H) as (nd' & H' & (F & P & _ & C)).
  exists nd'. split; [done|]. split_and!; try done; now rewrite F.
Qed.

Lemma update_node_grows (m : RemoteTaskModel) (n : nat) (f : Node -> Node) :
  (forall nd, node_grows nd (f nd)) -> grows m (update_node n f m).
Proof.
  intros Hf. split_and!; try done. intros k nd Hk. simpl.
  destruct (decide (k = n)) as [->|Hne].
  - rewrite list_lookup_alter_eq, Hk. simpl. eauto.
  - rewrite list_lookup_alter_ne by done. exists nd. split; [done|apply node_grows_refl].
Qed.

Lemma set_node_flag_grows (f : N) (nd : Node) :
  f = WAS_VISITED \/ f = NAME_CHANGED -> node_grows nd (set_node_flag f nd).
Proof.
  intros Hf. split_and!; simpl; try done.
  - destruct Hf as [-> | ->]; intros H;
      [apply was_visited_set | now rewrite was_visited_after_rename].
  - destruct Hf as [-> | ->]; intros H;
      [now rewrite name_changed_after_visit | apply name_changed_set].
Qed.

Lemma flags_set_content (s : StageDescription.t) (parent n : nat)
    (m : RemoteTaskModel) :
  flags_ (state_of (set_content s parent n m)) = flags_ m.
Proof.
  destruct (set_content_inv s parent n m _ eq_refl) as [->|(nd & _ & _ & H)];
    [done|].
  destruct H as [[_ ->]|[(_ & _ & ->)|(_ & idx & _ & ->)]]; done.
Qed.

Lemma flags_process_description (s : StageDescription.t) (m : RemoteTaskModel) :
  flags_ (state_of (process_description s m)) = flags_ m.
Proof.
  destruct (process_description_inv s m)
    as [[_ ->]|(parent & _ & [(n & _ & ->)|[(_ & _ & ->)|(Hi & n & m1 & Hc & ->)]])];
    try done.
  - apply flags_set_content.
  - rewrite flags_set_content.
    now apply create_node_Ok in Hc as (_ & _ & _ & _ & _ & _ & _ & ? & _).
Qed.

Lemma grows_operation (m : RemoteTaskModel) (o : Operation) :
  grows m (apply_operation m o).
Proof.
  destruct o as [msg|msg|r c parent|i value role]; simpl.
  - destruct msg as [|s msg].
    + rewrite processStageDescriptions_empty. simpl.
      assert (Hd : grows m (set_flags_ (N.lor (flags_ m) IS_DESTROYED) m)).
      { split_and!; try done.
        - intros n nd H. exists nd. split; [done|apply node_grows_refl].
        - intros _. apply is_destroyed_set. }
      destruct (first_top_level m) as [child|]; [|exact Hd].
      eapply grows_trans; [exact Hd|].
      eapply grows_trans; apply update_node_grows; intros nd;
        apply set_node_flag_grows; now left.
    + rewrite processStageDescriptions_cons.
      apply (for_each_preserves (grows m)); [|apply grows_refl].
      intros x m' Hm'. eapply grows_trans; [exact Hm'|].
      apply ext_grows; [apply process_description_ext|apply flags_process_description].
  - apply (for_each_preserves (grows m)); [|apply grows_refl].
    intros s m' Hm'. eapply grows_trans; [exact Hm'|].
    pose proof (process_statistics_gated s m') as [He _]. apply ext_grows; [done|].
    unfold process_statistics.
    destruct (id_to_stage_ m' !! StageStatistics.id s) as [n|]; [|done].
    pose proof (update_solutions_same_tree s n m') as (_ & _ & Hf & _).
    destruct (update_solutions s n m') as [changed m2|m2]; simpl in *; [|done].
    destruct (changed && was_visited m2 n); [|done]. now destruct (index_of m2 n).
  - destruct (index_inv m r c parent) as [[-> _]|(p & child & _ & _ & ->)];
      [apply grows_refl|].
    apply update_node_grows. intros nd. apply set_node_flag_grows. now left.
  - unfold setData. destruct (node m i) as [[n|]|]; try apply grows_refl.
    destruct (negb (column i =? 0)%Z || negb (bool_decide (role = EditRole)));
      [apply grows_refl|].
    simpl. eapply (grows_trans _ (update_node n (fun nd => (setName nd value).1) m)).
    + apply update_node_grows. intros nd.
      destruct (setName_fields nd value) as (_ & Hp & Hc & _ & Hf & _).
      split_and!; [done|now rewrite Hc|now rewrite Hf..].
    + apply (grows_trans _ (update_node n (set_node_flag NAME_CHANGED)
                              (update_node n (fun nd => (setName nd value).1) m)));
        [|apply grows_emit].
      apply update_node_grows. intros nd. apply set_node_flag_grows. now right.
Qed.

Lemma grows_operations (m : RemoteTaskModel) (ops : list Operation) :
  grows m (apply_operations m ops).
Proof.
  unfold apply_operations. revert m. induction ops as [|o ops IH]; intros m; simpl.
  - apply grows_refl.
  - eapply grows_trans; [apply grows_operation | apply IH].
Qed.

Lemma node_grows_stable (a b : RemoteTaskModel) (idx : QModelIndex) (n : nat) :
  grows a b -> node a idx = Some (Some n) -> node b idx = Some (Some n).
Proof.
  intros (Hn & _). destruct idx as [|r c p own]; simpl; [done|].
  destruct own; simpl; [|done].
  destruct (heap a !! p) as [nd|] eqn:Hp; simpl; [|done].
  destruct (Hn p nd Hp) as (nd' & -> & (_ & [k Hk] & _)). simpl.
  rewrite Hk. unfold child_at. destruct (r <? 0)%Z; [done|].
  destruct (children_ nd !! Z.to_nat r) as [x|] eqn:Hx; [|done].
  now rewrite (lookup_app_l_Some _ _ _ _ Hx).
Qed.

(** X5: indexes and ids stay valid. Whatever description batches,
    statistics batches, index requests and renamings follow, an index that
    resolved to a node resolves to the same node, a registered stage id
    names the same node, and no node changes its parent. *)
Theorem X5_indexes_and_ids_stay_valid :
  forall (m : RemoteTaskModel) (ops : list Operation),
    (forall (idx : QModelIndex) (n : nat),
        node m idx = Some (Some n) ->
        node (apply_operations m ops) idx = Some (Some n))
    /\ (forall (i : N) (n : nat),
          node_by_id m i = Some n -> node_by_id (apply_operations m ops) i = Some n)
    /\ (forall (n : nat) (nd : Node),
          heap m !! n = Some nd ->
          parent_ <$> heap (apply_operations m ops) !! n = Some (parent_ nd)).
Proof.
  intros m ops. pose proof (grows_operations m ops) as Hg. split_and!.
  - intros idx n. now apply node_grows_stable.
  - intros i n. apply Hg.
  - intros n nd Hn. destruct Hg as (Hnodes & _).
    destruct (Hnodes n nd Hn) as (nd' & -> & (Hp & _)). simpl. now rewrite Hp.
Qed.

Lemma X5_indexes_and_ids_stay_valid_witness :
  node (apply_operations small_tree
          [op_descriptions [StageDescription.mk 4 0 "late" 0; StageDescription.mk 1 0 "x" 0];
           op_descriptions []])
    (Index 1 0 root_ true) = Some (Some 2%nat).
Proof.
  apply (proj1 (X5_indexes_and_ids_stay_valid small_tree _) (Index 1 0 root_ true) 2%nat).
  reflexivity.
Defined.

(** X6: flags are only ever set. Once a node is marked as visited it stays
    visited, and once the model is marked as destroyed by an empty
    description batch it stays destroyed: no later batch, non-empty ones
    included, index request or renaming clears either flag. *)
Theorem X6_flags_are_never_cleared :
  forall (m : RemoteTaskModel) (ops : list Operation),
    (forall n : nat,
        was_visited m n = true -> was_visited (apply_operations m ops) n = true)
    /\ (has_flag (flags_ m) IS_DESTROYED = true ->
        has_flag (flags_ (apply_operations m ops)) IS_DESTROYED = true)
    /\ has_flag (flags_ (apply_operations m (op_descriptions [] :: ops))) IS_DESTROYED
       = true.
Proof.
  intros m ops. pose proof (grows_operations m ops) as Hg. split_and!.
  - intros n. unfold was_visited. destruct Hg as (Hnodes & _).
    destruct (heap m !! n) as [nd|] eqn:Hn; [|done].
    destruct (Hnodes n nd Hn) as (nd' & -> & (_ & _ & Hv & _)). exact Hv.
  - apply Hg.
  - simpl. apply (grows_operations _ ops).
    rewrite processStageDescriptions_empty. simpl.
    destruct (first_top_level m); simpl; apply is_destroyed_set.
Qed.

Lemma X6_flags_are_never_cleared_witness :
  was_visited (apply_operations small_tree
                 [op_descriptions [StageDescription.mk 1 0 "again" 0];
                  op_statistics [StageStatistics.mk 1 [7] []]]) 1 = true.
Proof.
  apply (proj1 (X6_flags_are_never_cleared small_tree _) 1%nat). reflexivity.
Defined.

(** ** Errors and assertions of the description feed *)

(** X7: entries that name an unknown stage are skipped. A description batch
    in which every entry names a parent id that is not registered, and a
    statistics batch in which every entry names a stage id that is not
    registered, complete and leave the model exactly as it was: nothing is
    created, changed or emitted. *)
Theorem X7_unknown_ids_are_skipped :
  (forall (m : RemoteTaskModel) (s : StageDescription.t)
          (msg : list StageDescription.t),
      (forall x, x ∈ s :: msg ->
         id_to_stage_ m !! StageDescription.parent_id x = None) ->
      processStageDescriptions m (s :: msg) = Ok tt m)
  /\ (forall (m : RemoteTaskModel) (msg : list StageStatistics.t),
        (forall x, x ∈ msg -> id_to_stage_ m !! StageStatistics.id x = None) ->
        processStageStatistics m msg = Ok tt m).
Proof.
  split.
  - intros m s msg. rewrite processStageDescriptions_cons. generalize (s :: msg).
    intros l. induction l as [|x l IH]; intros H; [done|].
    cbn [for_each]. unfold process_description at 1.
    rewrite (H x (list_elem_of_here _ _)). simpl. apply IH.
    intros y Hy. apply H. now apply list_elem_of_further.
  - intros m msg. unfold processStageStatistics.
    induction msg as [|x l IH]; intros H; [done|].
    cbn [for_each]. unfold process_statistics at 1.
    rewrite (H x (list_elem_of_here _ _)). simpl. apply IH.
    intros y Hy. apply H. now apply list_elem_of_further.
Qed.

Lemma X7_unknown_ids_are_skipped_witness :
  processStageDescriptions small_tree
    [StageDescription.mk 9 8 "orphan" 0; StageDescription.mk 8 7 "orphan" 0]
  = Ok tt small_tree.
Proof.
  apply (proj1 X7_unknown_ids_are_skipped small_tree).
  intros x Hx. apply elem_of_cons in Hx as [->|Hx]; [reflexivity|].
  apply list_elem_of_singleton in Hx as ->. reflexivity.
Defined.

Lemma registry_set_content (s : StageDescription.t) (parent n : nat)
    (m : RemoteTaskModel) :
  id_to_stage_ (state_of (set_content s parent n m)) = id_to_stage_ m.
Proof.
  destruct (set_content_inv s parent n m _ eq_refl) as [->|(nd & _ & _ & H)];
    [done|].
  destruct H as [[_ ->]|[(_ & _ & ->)|(_ & idx & _ & ->)]]; done.
Qed.

Lemma registry_process_description (s : StageDescription.t) (m : RemoteTaskModel)
    (i : N) :
  i <> StageDescription.id s ->
  id_to_stage_ (state_of (process_description s m)) !! i = id_to_stage_ m !! i.
Proof.
  intros Hne. destruct (process_description_inv s m)
    as [[_ ->]|(parent & _ & [(n & _ & ->)|[(_ & _ & ->)|(Hi & n & m1 & Hc & ->)]])];
    try done.
  - now rewrite registry_set_content.
  - rewrite registry_set_content.
    apply create_node_Ok in Hc as (_ & _ & _ & _ & _ & _ & -> & _).
    now rewrite lookup_insert_ne.
Qed.

Lemma set_content_completes (s : StageDescription.t) (parent n : nat)
    (m : RemoteTaskModel) (nd : Node) :
  tree_ok m -> heap m !! n = Some nd -> parent_ nd = Some parent ->
  completed (set_content s parent n m) = true.
Proof.
  intros Hok Hn Hp. unfold set_content. rewrite Hn, Hp.
  rewrite bool_decide_eq_true_2 by done. simpl.
  destruct (update_content_fields s nd) as (Hp2 & Hc2 & _).
  pose proof (tree_ok_insert_node m n nd (update_content s nd).1 Hn Hp2 Hc2 Hok) as Hok'.
  destruct (update_content s nd) as [nd2 changed]. simpl in *.
  destruct (changed && has_flag (node_flags_ nd2) WAS_VISITED); [|done].
  destruct (index_of_allocated _ n Hok') as [idx ->]; [|done].
  simpl. rewrite list_lookup_insert_eq by (eapply lookup_lt_Some, Hn). eauto.
Qed.

Lemma create_node_completes (parent : nat) (i : N) (m : RemoteTaskModel) :
  tree_ok m -> is_Some (heap m !! parent) ->
  exists n m1, create_node parent i m = Ok n m1.
Proof.
  intros Hok [pn Hp]. unfold create_node. rewrite Hp.
  destruct (index_of_allocated m parent Hok) as [pidx ->]; eauto.
Qed.

Lemma process_description_stops_iff :
  forall (m : RemoteTaskModel) (s : StageDescription.t),
    consistent m ->
    (completed (process_description s m) = false
     <-> exists (parent n : nat) (nd : Node),
           id_to_stage_ m !! StageDescription.parent_id s = Some parent
           /\ id_to_stage_ m !! StageDescription.id s = Some n
           /\ heap m !! n = Some nd
           /\ parent_ nd <> Some parent).
Proof.
  intros m s [(W1 & _ & _) Hok]. split.
  - intros Hstop. destruct (process_description_inv s m)
      as [[_ Heq]|(parent & Hpar & [(n & Hn & Heq)|[(_ & Hc & _)|(Hi & n & m1 & Hc & Heq)]])].
    + now rewrite Heq in Hstop.
    + destruct (W1 _ _ Hn) as [nd Hnd]. exists parent, n, nd. split_and!; try done.
      intros Hp. rewrite Heq, (set_content_completes s parent n m nd Hok Hnd Hp) in Hstop.
      done.
    + destruct (create_node_completes parent (StageDescription.id s) m Hok)
        as (n & m1 & Hc'); [eauto|]. congruence.
    + exfalso. rewrite Heq in Hstop.
      pose proof (tree_ok_create_node _ _ _ _ _ Hi Hc Hok) as Hok1.
      destruct (create_node_lookup _ _ _ _ n n Hc) as (_ & _ & Hl).
      rewrite decide_True in Hl by done.
      now rewrite (set_content_completes s parent n m1 _ Hok1 Hl eq_refl) in Hstop.
  - intros (parent & n & nd & Hpar & Hn & Hnd & Hp).
    unfold process_description. rewrite Hpar, Hn. simpl.
    unfold set_content. rewrite Hnd. now rewrite bool_decide_eq_false_2.
Qed.

(** X8: the only assertion a description can fail. In a consistent tree the
    processing of one description entry stops exactly when the parent id
    and the stage id of the entry are both registered and the node of the
    stage has another parent than the one named ([Q_ASSERT(n->parent_ ==
    parent)]; this includes every entry for the root id with a known
    parent); the assertion inside [index(const Node* n)] is never reached. *)
Theorem X8_description_stops_only_at_parent_assertion :
  forall (m : RemoteTaskModel) (s : StageDescription.t),
    consistent m ->
    (completed (process_description s m) = false
     <-> exists (parent n : nat) (nd : Node),
           id_to_stage_ m !! StageDescription.parent_id s = Some parent
           /\ id_to_stage_ m !! StageDescription.id s = Some n
           /\ heap m !! n = Some nd
           /\ parent_ nd <> Some parent).
Proof. exact process_description_stops_iff. Qed.

(** In [small_tree] the stage 3 is a child of stage 1; describing it as a
    child of stage 2 stops at the assertion. *)
Lemma X8_description_stops_only_at_parent_assertion_witness :
  completed (process_description (StageDescription.mk 3 2 "moved" 0) small_tree)
  = false
  <-> exists (parent n : nat) (nd : Node),
        id_to_stage_ small_tree !! 2 = Some parent
        /\ id_to_stage_ small_tree !! 3 = Some n
        /\ heap small_tree !! n = Some nd
        /\ parent_ nd <> Some parent.
Proof.
  apply (X8_description_stops_only_at_parent_assertion small_tree
           (StageDescription.mk 3 2 "moved" 0)).
  apply small_tree_consistent.
Defined.

(** X9: describing new stages never fails an assertion. On a consistent
    tree, a batch whose stage ids are pairwise distinct and not yet
    registered completes, whatever parents it names and in whatever order
    (entries whose parent is unknown when they are reached are skipped). *)
Theorem X9_new_stages_are_described_without_failure :
  forall (m : RemoteTaskModel) (msg : list StageDescription.t),
    consistent m ->
    NoDup (StageDescription.id <$> msg) ->
    (forall s, s ∈ msg -> id_to_stage_ m !! StageDescription.id s = None) ->
    completed (processStageDescriptions m msg) = true.
Proof.
  intros m msg Hcons Hnd Hnew. destruct msg as [|s0 msg0].
  { now rewrite processStageDescriptions_empty. }
  rewrite processStageDescriptions_cons. revert m Hcons Hnd Hnew.
  generalize (s0 :: msg0). clear s0 msg0.
  intros msg. induction msg as [|s msg IH]; intros m Hcons Hnd Hnew; [done|].
  cbn [for_each]. apply NoDup_cons in Hnd as [Hnotin Hnd].
  destruct (process_description s m) as [[] m1|m1] eqn:Hstep.
  - simpl. apply IH; [|done|].
    + pose proof (consistent_operation m (op_descriptions [s]) Hcons) as H1.
      simpl in H1. rewrite processStageDescriptions_cons in H1.
      cbn [for_each] in H1. now rewrite Hstep in H1.
    + intros x Hx.
      assert (Hne : StageDescription.id x <> StageDescription.id s).
      { intros Heq. apply Hnotin. rewrite <- Heq. now apply list_elem_of_fmap_2. }
      pose proof (registry_process_description s m _ Hne) as Hr.
      rewrite Hstep in Hr. simpl in Hr. rewrite Hr.
      apply Hnew. now apply list_elem_of_further.
  - exfalso.
    assert (Hstop : completed (process_description s m) = false) by now rewrite Hstep.
    apply (process_description_stops_iff m s Hcons) in Hstop
      as (_ & n & _ & _ & Hn & _).
    rewrite (Hnew s (list_elem_of_here _ _)) in Hn. done.
Qed.

Lemma X9_new_stages_are_described_without_failure_witness :
  completed (processStageDescriptions small_tree
               [StageDescription.mk 6 5 "deep" 0; StageDescription.mk 5 3 "below" 0;
                StageDescription.mk 7 9 "orphan" 0]) = true.
Proof.
  apply X9_new_stages_are_described_without_failure.
  - apply small_tree_consistent.
  - compute_done.
  - intros s Hs. repeat (apply elem_of_cons in Hs as [->|Hs]; [reflexivity|]).
    now apply elem_of_nil in Hs.
Defined.

(** X10: what the first description of a stage creates. In a consistent
    tree, an entry whose parent id is registered and whose stage id is not
    completes; it registers the stage id to a new node, the last one of the
    arena, with the named parent, no children, the name and the interface
    flags of the entry, no node flag and a fresh table; the node becomes the
    last row of its parent; no other node and no other id is touched. The
    two insertion signals are emitted, for that row, exactly when the parent
    has been visited, and nothing else is emitted. *)
Theorem X10_first_description_creates_the_stage :
  forall (m : RemoteTaskModel) (s : StageDescription.t) (ph : nat) (pn : Node),
    consistent m ->
    id_to_stage_ m !! StageDescription.parent_id s = Some ph ->
    id_to_stage_ m !! StageDescription.id s = None ->
    heap m !! ph = Some pn ->
    exists (m' : RemoteTaskModel) (pidx : QModelIndex),
      process_description s m = Ok tt m'
      /\ index_of m ph = Some pidx
      /\ id_to_stage_ m' = <[StageDescription.id s := length (heap m)]> (id_to_stage_ m)
      /\ heap m' !! length (heap m)
         = Some (mkNode (Some ph) [] (StageDescription.name s)
                   (interface_flags_from (StageDescription.flags s)) 0
                   new_RemoteSolutionModel)
      /\ heap m' !! ph = Some (push_child (length (heap m)) pn)
      /\ (forall k, k <> length (heap m) -> k <> ph -> heap m' !! k = heap m !! k)
      /\ index_of m' (length (heap m))
         = Some (Index (Z.of_nat (length (children_ pn))) 0 ph true)
      /\ flags_ m' = flags_ m
      /\ signals m'
         = signals m ++
           (if was_visited m ph
            then [rowsAboutToBeInserted pidx (Z.of_nat (length (children_ pn)))
                    (Z.of_nat (length (children_ pn)));
                  rowsInserted pidx (Z.of_nat (length (children_ pn)))
                    (Z.of_nat (length (children_ pn)))]
            else []).
Proof.
  intros m s ph pn [Hwf Hok] Hpar Hnew Hph.
  destruct (create_node_completes ph (StageDescription.id s) m Hok) as (n & m1 & Hc);
    [eauto|].
  assert (Hl := fun k => create_node_lookup _ _ _ _ n k Hc).
  destruct (Hl 0%nat) as (-> & Hlt & _).
  pose proof (tree_ok_create_node _ _ _ _ _ Hnew Hc Hok) as Hok1.
  apply create_node_Ok in Hc as Hc'.
  destruct Hc' as (pn' & pidx & Hph' & Hpidx & _ & _ & Hreg & Hfl & Hsig).
  rewrite Hph in Hph'. injection Hph' as <-.
  set (n := length (heap m)) in *.
  assert (Hfresh : heap m1 !! n = Some (new_Node (Some ph))).
  { destruct (Hl n) as (_ & _ & ->). now rewrite decide_True. }
  set (nd2 := mkNode (Some ph) [] (StageDescription.name s)
                (interface_flags_from (StageDescription.flags s)) 0
                new_RemoteSolutionModel).
  assert (Hupd : (update_content s (new_Node (Some ph))).1 = nd2).
  { unfold update_content, new_Node, setName. simpl.
    destruct (decide (StageDescription.name s = "")) as [Heq|]; simpl; [|done].
    unfold nd2. now rewrite Heq. }
  assert (Hstep : process_description s m
                  = Ok tt (set_heap (<[n := nd2]> (heap m1)) m1)).
  { unfold process_description. rewrite Hpar, Hnew, Hc. simpl.
    unfold set_content. rewrite Hfresh. simpl.
    rewrite bool_decide_eq_true_2 by done. simpl.
    pose proof (update_content_fields s (new_Node (Some ph))) as (_ & _ & Hf & _).
    rewrite <- Hupd. destruct (update_content s (new_Node (Some ph))) as [x ch].
    simpl in *. rewrite Hf. simpl. now rewrite andb_false_r. }
  exists (set_heap (<[n := nd2]> (heap m1)) m1), pidx.
  assert (Hnph : ph <> n) by lia.
  split_and!; try done.
  - simpl. now rewrite list_lookup_insert_eq by (eapply lookup_lt_Some, Hfresh).
  - simpl. rewrite list_lookup_insert_ne by done.
    destruct (Hl ph) as (_ & _ & ->). rewrite decide_False, decide_True, Hph by done.
    done.
  - intros k Hk1 Hk2. simpl. rewrite list_lookup_insert_ne by done.
    destruct (Hl k) as (_ & _ & ->). now rewrite !decide_False by done.
  - rewrite (index_of_same m1 _ n).
    + unfold index_of. rewrite decide_False.
      2: { unfold root_. lia. }
      rewrite Hfresh. simpl. destruct (Hl ph) as (_ & _ & ->).
      rewrite decide_False, decide_True, Hph by done. simpl.
      assert (Hrow : row_of (children_ pn ++ [n]) n = Some (length (children_ pn))).
      { apply row_of_NoDup.
        - destruct Hok1 as (_ & _ & _ & T3 & _). apply (T3 ph (push_child n pn)).
          destruct (Hl ph) as (_ & _ & ->).
          now rewrite decide_False, decide_True, Hph by done.
        - rewrite lookup_app_r by done. now rewrite Nat.sub_diag. }
      now rewrite Hrow.
    + intros j. simpl. destruct (decide (j = n)) as [->|Hne].
      * rewrite list_lookup_insert_eq by (eapply lookup_lt_Some, Hfresh).
        now rewrite Hfresh.
      * now rewrite list_lookup_insert_ne.
    + intros j. simpl. destruct (decide (j = n)) as [->|Hne].
      * rewrite list_lookup_insert_eq by (eapply lookup_lt_Some, Hfresh).
        now rewrite Hfresh.
      * now rewrite list_lookup_insert_ne.
  - simpl. rewrite Hsig. unfold was_visited. now rewrite Hph.
Qed.

(** A child of the visited stage 1 of [small_tree] is announced. *)
Lemma X10_first_description_creates_the_stage_witness :
  signals (state_of (process_description (StageDescription.mk 5 1 "new" 0) small_tree))
  = signals small_tree
    ++ [rowsAboutToBeInserted (Index 0 0 root_ true) 1 1;
        rowsInserted (Index 0 0 root_ true) 1 1].
Proof.
  destruct (X10_first_description_creates_the_stage small_tree
              (StageDescription.mk 5 1 "new" 0) 1%nat
              (mkNode (Some root_) [3%nat] "first" 1 1 new_RemoteSolutionModel))
    as (m' & pidx & Hstep & Hidx & _ & _ & _ & _ & _ & _ & Hsig).
  - apply small_tree_consistent.
  - reflexivity.
  - reflexivity.
  - reflexivity.
  - rewrite Hstep. simpl. rewrite Hsig.
    injection Hidx as <-. reflexivity.
Defined.

(** ** Renaming *)

(** X11: what [setData] accepts. For an index that resolves to an allocated
    node, [setData] returns true exactly when the index is in column 0 (the
    column [flags] marks as editable) and the role is the edit role;
    otherwise it returns false and the model is untouched, as it is for an
    index of another model. After an accepted call, [data] shows the new
    name for the display and the edit role, and no other node is changed. *)
Theorem X11_setData_accepts_only_name_edits :
  forall (m : RemoteTaskModel) (i : QModelIndex) (value : string)
         (role : ItemDataRole) (n : nat) (nd : Node),
    node m i = Some (Some n) ->
    heap m !! n = Some nd ->
    (exists (b : bool) (m' : RemoteTaskModel),
        setData m i value role = Ok b m'
        /\ (b = true <-> flags_adds_ItemIsEditable i = true /\ role = EditRole)
        /\ (b = false -> m' = m)
        /\ (b = true ->
            data m' i DisplayRole = Some (QString_value value)
            /\ data m' i EditRole = Some (QString_value value)
            /\ forall k, k <> n -> heap m' !! k = heap m !! k))
    /\ (forall (r c : Z) (p : nat),
          setData m (Index r c p false) value role = Ok false m).
Proof.
  intros m i value role n nd Hi Hn. split; [|reflexivity].
  unfold flags_adds_ItemIsEditable.
  destruct (Z.eqb_spec (column i) 0) as [Hc|Hc].
  - destruct (decide (role = EditRole)) as [->|Hr].
    + rewrite (setData_rename m i value n nd Hi Hn Hc).
      eexists _, _. split; [reflexivity|]. split_and!; try done.
      intros _.
      assert (Hnode : node (emit (dataChanged i i)
                (set_heap (<[n := set_node_flag NAME_CHANGED (setName nd value).1]>
                             (heap m)) m)) i = Some (Some n)).
      { apply (node_grows_stable m); [|done].
        pose proof (grows_operation m (op_setData i value EditRole)) as Hg.
        simpl in Hg. now rewrite (setData_rename m i value n nd Hi Hn Hc) in Hg. }
      unfold data. rewrite Hnode. simpl.
      rewrite list_lookup_insert_eq by (eapply lookup_lt_Some, Hn).
      rewrite Hc. simpl. destruct (setName_fields nd value) as (-> & _).
      split_and!; try done. intros k Hk. now rewrite list_lookup_insert_ne.
    + unfold setData. rewrite Hi. rewrite (bool_decide_eq_false_2 _ Hr).
      rewrite orb_true_r. exists false, m. split_and!; try done.
      split; [done|]. now intros [_ ?].
  - unfold setData. rewrite Hi.
    assert ((column i =? 0)%Z = false) as -> by now apply Z.eqb_neq.
    simpl. exists false, m. split_and!; try done.
    split; [done|]. now intros [? _].
Qed.

Lemma X11_setData_accepts_only_name_edits_witness :
  exists (b : bool) (m' : RemoteTaskModel),
    setData small_tree (Index 0 0 1 true) "renamed" EditRole = Ok b m'
    /\ (b = true
        <-> flags_adds_ItemIsEditable (Index 0 0 1 true) = true /\ EditRole = EditRole)
    /\ (b = false -> m' = small_tree)
    /\ (b = true ->
        data m' (Index 0 0 1 true) DisplayRole = Some (QString_value "renamed")
        /\ data m' (Index 0 0 1 true) EditRole = Some (QString_value "renamed")
        /\ forall k, k <> 3%nat -> heap m' !! k = heap small_tree !! k).
Proof.
  apply (proj1 (X11_setData_accepts_only_name_edits small_tree (Index 0 0 1 true)
                  "renamed" EditRole 3%nat
                  (mkNode (Some 1%nat) [] "inner" 4 0 new_RemoteSolutionModel)
                  eq_refl eq_refl)).
Defined.

(** * More about the solution table *)

(** ** Finding records *)

Lemma findById_Some (c : list Data) (i : N) (pos : nat) :
  findById c i = Some pos ->
  exists item, c !! pos = Some item /\ id item = i.
Proof.
  revert pos. induction c as [|x c IH]; intros pos; simpl; [done|].
  destruct (N.eqb_spec (id x) i) as [Heq|Hne].
  - intros [= <-]. eauto.
  - destruct (findById c i) as [p|]; simpl; [|done]. intros [= <-]. now apply IH.
Qed.

Lemma findById_None (c : list Data) (i : N) :
  findById c i = None <-> i ∉ id <$> c.
Proof.
  induction c as [|x c IH]; simpl.
  - split; [intros _; apply not_elem_of_nil | done].
  - rewrite not_elem_of_cons. destruct (N.eqb_spec (id x) i) as [Heq|Hne].
    + split; [done|]. intros [? _]. congruence.
    + destruct (findById c i) as [p|] eqn:Hf; simpl.
      * split; [done|]. intros [_ H]. now apply IH in H.
      * split; [|done]. intros _. split; [congruence|]. now apply IH.
Qed.

Lemma findById_ids (c c' : list Data) (i : N) :
  id <$> c = id <$> c' -> findById c i = findById c' i.
Proof.
  revert c'. induction c as [|x c IH]; intros [|x' c']; simpl; try done.
  intros [= Hx Hc]. rewrite Hx. now rewrite (IH c' Hc).
Qed.

Lemma findById_app_l (c c' : list Data) (i : N) (pos : nat) :
  findById c i = Some pos -> findById (c ++ c') i = Some pos.
Proof.
  revert pos. induction c as [|x c IH]; intros pos; simpl; [done|].
  destruct (id x =? i); [done|].
  destruct (findById c i) as [p|]; simpl; [|done]. intros [= <-].
  now rewrite (IH p eq_refl).
Qed.

Lemma findById_app_new (c : list Data) (x : Data) :
  id x ∉ id <$> c -> findById (c ++ [x]) (id x) = Some (length c).
Proof.
  induction c as [|y c IH]; simpl.
  - intros _. now rewrite N.eqb_refl.
  - rewrite not_elem_of_cons. intros [Hne Hnotin].
    destruct (N.eqb_spec (id y) (id x)); [congruence|]. now rewrite IH.
Qed.

Lemma ids_insert_same (c : list Data) (pos : nat) (item item' : Data) :
  c !! pos = Some item -> id item' = id item ->
  id <$> <[pos := item']> c = id <$> c.
Proof.
  intros Hpos Hid. rewrite list_fmap_insert, Hid.
  apply list_insert_id. now rewrite list_lookup_fmap, Hpos.
Qed.

(** ** Ascending ids *)

Lemma StronglySorted_snoc {A : Type} (R : A -> A -> Prop) (l : list A) (y : A) :
  StronglySorted R l -> (forall x, x ∈ l -> R x y) -> StronglySorted R (l ++ [y]).
Proof.
  induction 1 as [|x l Hl IH Hx]; intros Hy; simpl.
  - repeat constructor.
  - constructor.
    + apply IH. intros z Hz. apply Hy. now right.
    + apply Forall_app. split; [done|]. repeat constructor. apply Hy. now left.
Qed.

Lemma ascending_below_last (l : list N) (b : N) :
  StronglySorted N.lt l -> last l = Some b -> forall j, j ∈ l -> j <= b.
Proof.
  induction 1 as [|x l Hl IH Hx]; [done|]. intros Hlast j Hj.
  destruct l as [|y l].
  - simpl in Hlast. injection Hlast as <-.
    apply list_elem_of_singleton in Hj as ->. lia.
  - change (last (x :: y :: l)) with (last (y :: l)) in Hlast.
    apply elem_of_cons in Hj as [->|Hj]; [|now apply IH].
    rewrite Forall_forall in Hx.
    assert (b ∈ y :: l) as Hb.
    { clear -Hlast. revert y Hlast. induction l as [|z l IH]; intros y Hlast.
      - simpl in Hlast. injection Hlast as <-. now left.
      - right. now apply (IH z). }
    specialize (Hx b Hb). lia.
Qed.

(** The test [data_.empty() || id > data_.back().id] in an ascending table:
    the id exceeds every stored id. *)
Lemma is_new_above_all (t : RemoteSolutionModel) (i : N) :
  ascending_ids t ->
  match last (data_ t) with Some back => id back <? i | None => true end = true
  <-> forall j, j ∈ id <$> data_ t -> j < i.
Proof.
  intros Hasc. unfold ascending_ids in Hasc.
  destruct (last (data_ t)) as [back|] eqn:Hlast.
  - assert (Hl : last (id <$> data_ t) = Some (id back))
      by (now rewrite fmap_last, Hlast).
    rewrite N.ltb_lt. split.
    + intros Hlt j Hj. pose proof (ascending_below_last _ _ Hasc Hl j Hj). lia.
    + intros H. apply H. apply list_elem_of_fmap_2. now apply last_Some_elem_of.
  - apply last_None in Hlast. rewrite Hlast. split; [|done].
    intros _ j Hj. now apply elem_of_nil in Hj.
Qed.

Lemma process_id_ascending (default_cost : spec_float) (p : N * N)
    (t : RemoteSolutionModel) (b : bool) :
  ascending_ids t ->
  ascending_ids (state_of (process_id default_cost p (t, b))).1.
Proof.
  intros Hasc. pose proof (is_new_above_all t p.1 Hasc) as Hnew. unfold process_id.
  destruct (match last (data_ t) with Some back => id back <? p.1 | None => true end).
  - unfold ascending_ids. simpl. rewrite fmap_app. simpl.
    apply StronglySorted_snoc; [done|]. now apply Hnew.
  - destruct (findById (data_ t) p.1) as [pos|]; [|done].
    destruct (data_ t !! pos) as [item|] eqn:Hpos; [|done].
    unfold ascending_ids. simpl. now rewrite (ids_insert_same _ _ item).
Qed.

Lemma for_each_process_id_ascending (default_cost : spec_float) (ps : list (N * N))
    (t : RemoteSolutionModel) (b : bool) :
  ascending_ids t ->
  ascending_ids (state_of (for_each (process_id default_cost) ps (t, b))).1.
Proof.
  revert t b. induction ps as [|p ps IH]; intros t b Hr; [exact Hr|].
  cbn [for_each]. pose proof (process_id_ascending default_cost p t b Hr) as Hp.
  destruct (process_id default_cost p (t, b)) as [[] [t1 b1]|[t1 b1]];
    cbn [bind state_of fst] in *; [now apply IH | exact Hp].
Qed.

Lemma processSolutionIDs_ascending (t : RemoteSolutionModel) (ids : list N)
    (default_cost : spec_float) :
  ascending_ids t -> ascending_ids (state_of (processSolutionIDs t ids default_cost)).
Proof.
  intros Hr. unfold processSolutionIDs.
  pose proof (for_each_process_id_ascending default_cost (ids_by_creation ids)
                t false Hr) as H.
  destruct (for_each _ _ _) as [[] [t1 b1]|[t1 b1]]; simpl in *; exact H.
Qed.

Lemma table_setData_ids (t : RemoteSolutionModel) (i : N) (c : spec_float)
    (nm : string) :
  id <$> data_ (table_setData t i c nm).1 = id <$> data_ t.
Proof.
  unfold table_setData. destruct (findById (data_ t) i) as [pos|]; simpl; [|done].
  destruct (data_ t !! pos) as [item|] eqn:Hpos; simpl; [|done].
  apply (ids_insert_same _ _ item); [done|].
  destruct (negb (SFeqb (cost item) c)), (negb (bool_decide (name item = nm))); done.
Qed.

Lemma sort_data (t : RemoteSolutionModel) (column : Z) (order : SortOrder) :
  data_ (sort t column order) = data_ t.
Proof. unfold sort. now destruct (decide _). Qed.

Lemma ascending_table_operation (t : RemoteSolutionModel) (o : TableOperation) :
  ascending_ids t -> ascending_ids (apply_table_operation t o).
Proof.
  intros H. destruct o as [ids c|column order|i c nm]; simpl.
  - now apply processSolutionIDs_ascending.
  - unfold ascending_ids. now rewrite sort_data.
  - unfold ascending_ids. now rewrite table_setData_ids.
Qed.

Lemma ascending_table_operations (t : RemoteSolutionModel) (ops : list TableOperation) :
  ascending_ids t -> ascending_ids (apply_table_operations t ops).
Proof.
  unfold apply_table_operations. revert t.
  induction ops as [|o ops IH]; intros t H; simpl; [done|].
  apply IH. now apply ascending_table_operation.
Qed.

Lemma ascending_NoDup (t : RemoteSolutionModel) :
  ascending_ids t -> NoDup (id <$> data_ t).
Proof.
  unfold ascending_ids. induction 1 as [|x l Hl IH Hx]; constructor; [|done].
  intros Hin. rewrite Forall_forall in Hx. specialize (Hx x Hin). lia.
Qed.

(** X12: the records of a table are kept in strictly ascending id order.
    Starting from the empty table this holds after every sequence of
    [processSolutionIDs] calls (completed or stopped at the assertion),
    re-sorts and detail updates; in particular no two records share an
    id. *)
Theorem X12_ids_stay_ascending :
  forall ops : list TableOperation,
    ascending_ids (apply_table_operations new_RemoteSolutionModel ops)
    /\ NoDup (id <$> data_ (apply_table_operations new_RemoteSolutionModel ops)).
Proof.
  intros ops.
  assert (H : ascending_ids (apply_table_operations new_RemoteSolutionModel ops))
    by (apply ascending_table_operations; constructor).
  split; [exact H | now apply ascending_NoDup].
Qed.

(** ** When [processSolutionIDs] completes *)

Lemma insert_sorted_le {A : Type} (key : A -> N) (x : A) (l : list A) :
  StronglySorted (fun a b => key a <= key b) l ->
  StronglySorted (fun a b => key a <= key b)
    (insert_sorted (fun a b => key a <? key b) x l).
Proof.
  induction 1 as [|y l Hl IH Hy]; simpl.
  - repeat constructor.
  - destruct (N.ltb_spec (key x) (key y)) as [Hlt|Hge].
    + constructor; [now constructor|]. constructor; [lia|].
      eapply Forall_impl; [exact Hy|]. simpl. intros z Hz. lia.
    + constructor; [exact IH|]. rewrite insert_sorted_perm. now constructor.
Qed.

Lemma std_sort_le {A : Type} (key : A -> N) (l : list A) :
  StronglySorted (fun a b => key a <= key b)
    (std_sort (fun a b => key a <? key b) l).
Proof.
  induction l as [|x l IH]; simpl; [constructor|]. now apply insert_sorted_le.
Qed.

Lemma with_ranks_ids (rank : N) (ids : list N) : (with_ranks rank ids).*1 = ids.
Proof.
  revert rank. induction ids as [|i ids IH]; intros rank; simpl; [done|].
  now rewrite IH.
Qed.

Lemma ids_by_creation_perm (ids : list N) : (ids_by_creation ids).*1 ≡ₚ ids.
Proof.
  unfold ids_by_creation. rewrite (std_sort_perm _ (with_ranks 0 ids)).
  now rewrite with_ranks_ids.
Qed.

Lemma ids_by_creation_sorted (ids : list N) :
  StronglySorted (fun p q : N * N => p.1 <= q.1) (ids_by_creation ids).
Proof. apply (std_sort_le (fun p : N * N => p.1)). Qed.

Lemma process_id_new (default_cost : spec_float) (p : N * N)
    (t : RemoteSolutionModel) (b : bool) :
  ascending_ids t ->
  (forall j, j ∈ id <$> data_ t -> j < p.1) ->
  exists b',
    process_id default_cost p (t, b)
    = Ok tt (set_data_ t (data_ t ++ [Data_new p.1 default_cost
                                       (1 + N.of_nat (length (data_ t))) p.2]), b').
Proof.
  intros Hasc Hnew. apply (is_new_above_all t p.1 Hasc) in Hnew.
  unfold process_id. rewrite Hnew. eauto.
Qed.

Lemma process_id_old (default_cost : spec_float) (p : N * N)
    (t : RemoteSolutionModel) (b : bool) :
  ascending_ids t ->
  ~ (forall j, j ∈ id <$> data_ t -> j < p.1) ->
  process_id default_cost p (t, b)
  = match findById (data_ t) p.1 with
    | Some pos =>
        match data_ t !! pos with
        | Some item =>
            Ok tt (set_data_ t (<[pos := set_cost_rank item p.2]> (data_ t)),
                   b || negb (Bool.eqb (isVisible t (set_cost_rank item p.2))
                                (isVisible t item)))
        | None => Abort (t, b)
        end
    | None => Abort (t, b)
    end.
Proof.
  intros Hasc Hold. pose proof (is_new_above_all t p.1 Hasc) as Hnew.
  unfold process_id.
  destruct (match last (data_ t) with Some back => id back <? p.1 | None => true end);
    [|done].
  exfalso. apply Hold. now apply Hnew.
Qed.

Lemma for_each_process_id_completes (default_cost : spec_float) (ps : list (N * N))
    (t : RemoteSolutionModel) (b : bool) :
  ascending_ids t ->
  StronglySorted (fun p q : N * N => p.1 <= q.1) ps ->
  completed (for_each (process_id default_cost) ps (t, b)) = true
  <-> forall p, p ∈ ps ->
        p.1 ∈ id <$> data_ t \/ forall j, j ∈ id <$> data_ t -> j < p.1.
Proof.
  intros Hasc Hs. revert t b Hasc.
  induction Hs as [|p ps Hs IH Hp]; intros t b Hasc.
  - split; [|done]. intros _ q Hq. now apply elem_of_nil in Hq.
  - cbn [for_each]. rewrite Forall_forall in Hp.
    destruct (decide (Forall (fun j => j < p.1) (id <$> data_ t))) as [Hnew|Hold];
      rewrite Forall_forall in Hnew || rewrite Forall_forall in Hold.
    + destruct (process_id_new default_cost p t b Hasc Hnew) as (b' & Hstep).
      pose proof (process_id_ascending default_cost p t b Hasc) as Hasc1.
      rewrite Hstep in *. cbn [bind state_of fst] in *.
      assert (Hafter : forall q, q ∈ ps ->
        q.1 ∈ id <$> data_ (set_data_ t (data_ t ++ [Data_new p.1 default_cost
                    (1 + N.of_nat (length (data_ t))) p.2]))
        \/ forall j, j ∈ id <$> data_ (set_data_ t (data_ t ++ [Data_new p.1
                    default_cost (1 + N.of_nat (length (data_ t))) p.2])) -> j < q.1).
      { intros q Hq. specialize (Hp q Hq). simpl in *. rewrite fmap_app. simpl.
        destruct (decide (q.1 = p.1)) as [->|Hne].
        - left. apply elem_of_app. right. now left.
        - right. intros j [Hj|Hj%list_elem_of_singleton]%elem_of_app.
          + specialize (Hnew j Hj). lia.
          + subst j. lia. }
      split.
      * intros _ q [->|Hq]%elem_of_cons; [now right|].
        right. intros j Hj. specialize (Hnew j Hj). specialize (Hp q Hq). simpl in Hp.
        lia.
      * intros _. now apply IH.
    + rewrite (process_id_old default_cost p t b Hasc Hold).
      destruct (findById (data_ t) p.1) as [pos|] eqn:Hf.
      * destruct (findById_Some _ _ _ Hf) as (item & Hpos & Hid). rewrite Hpos.
        cbn [bind].
        assert (Hids : id <$> data_ (set_data_ t (<[pos := set_cost_rank item p.2]>
                                                    (data_ t))) = id <$> data_ t)
          by (simpl; now apply (ids_insert_same _ _ item)).
        rewrite IH by (unfold ascending_ids; now rewrite Hids).
        rewrite Hids. split.
        -- intros H q [->|Hq]%elem_of_cons; [|now apply H].
           left. rewrite <- Hid. apply list_elem_of_fmap_2.
           eapply list_elem_of_lookup_2, Hpos.
        -- intros H q Hq. apply H. now right.
      * cbn [bind completed]. split; [done|]. intros H. exfalso.
        destruct (H p (list_elem_of_here _ _)) as [Hin|Hall]; [|done].
        now apply findById_None in Hf.
Qed.

Lemma completed_processSolutionIDs (t : RemoteSolutionModel) (ids : list N)
    (default_cost : spec_float) :
  completed (processSolutionIDs t ids default_cost)
  = completed (for_each (process_id default_cost) (ids_by_creation ids) (t, false)).
Proof.
  unfold processSolutionIDs.
  now destruct (for_each _ _ _) as [[] [t1 b1]|[t1 b1]].
Qed.

(** X13. On a table with ascending ids, [processSolutionIDs] runs to its end
    exactly when every id of the list is either stored already or greater
    than every stored id; any other id makes the assertion of the lookup
    branch fail. *)
Theorem X13_ids_accepted_iff :
  forall (t : RemoteSolutionModel) (ids : list N) (default_cost : spec_float),
    ascending_ids t ->
    completed (processSolutionIDs t ids default_cost) = true
    <-> forall i, i ∈ ids ->
          i ∈ id <$> data_ t \/ forall j, j ∈ id <$> data_ t -> j < i.
Proof.
  intros t ids c Hasc. rewrite completed_processSolutionIDs.
  rewrite (for_each_process_id_completes c _ t false Hasc (ids_by_creation_sorted ids)).
  split.
  - intros H i Hi. rewrite <- (ids_by_creation_perm ids) in Hi.
    apply list_elem_of_fmap in Hi as (p & -> & Hp). now apply H.
  - intros H p Hp. apply H. rewrite <- (ids_by_creation_perm ids).
    now apply list_elem_of_fmap_2.
Qed.

Lemma X13_ids_accepted_iff_witness :
  ascending_ids table_1_3
  /\ (completed (processSolutionIDs table_1_3 [5; 1] infinity) = true
      <-> forall i, i ∈ [5; 1] ->
            i ∈ id <$> data_ table_1_3 \/ forall j, j ∈ id <$> data_ table_1_3 -> j < i).
Proof.
  assert (H : ascending_ids table_1_3).
  { unfold ascending_ids. vm_compute. repeat constructor. }
  split; [exact H|]. apply (X13_ids_accepted_iff table_1_3 [5; 1] infinity H).
Defined.

(** ** What [processSolutionIDs] leaves alone *)

Lemma same_solution_refl (a : Data) : same_solution a a.
Proof. done. Qed.

Lemma same_solution_trans (a b c : Data) :
  same_solution a b -> same_solution b c -> same_solution a c.
Proof. unfold same_solution. intros (-> & -> & -> & ->) (-> & -> & -> & ->). done. Qed.

Lemma records_kept_refl (c : spec_float) (t : RemoteSolutionModel) :
  records_kept c t t.
Proof.
  split_and!; try done.
  - intros pos item H. exists item. split; [done|apply same_solution_refl].
  - intros pos item H%lookup_lt_Some Hlen. lia.
Qed.

Lemma records_kept_length (c : spec_float) (t t' : RemoteSolutionModel) :
  records_kept c t t' -> (length (data_ t) <= length (data_ t'))%nat.
Proof.
  intros (Hkeep & _). destruct (data_ t) as [|x l] eqn:Hd using rev_ind; [simpl; lia|].
  clear IHl. destruct (Hkeep (length l) x) as (x' & Hx%lookup_lt_Some & _).
  - rewrite lookup_app_r by lia. now rewrite Nat.sub_diag.
  - rewrite length_app. simpl. lia.
Qed.

Lemma records_kept_trans (c : spec_float) (t1 t2 t3 : RemoteSolutionModel) :
  records_kept c t1 t2 -> records_kept c t2 t3 -> records_kept c t1 t3.
Proof.
  intros H12 H23. pose proof (records_kept_length _ _ _ H12) as Hlen.
  destruct H12 as (K12 & N12 & C12 & O12 & M12).
  destruct H23 as (K23 & N23 & C23 & O23 & M23).
  split_and!; try congruence.
  - intros pos item H. destruct (K12 pos item H) as (item2 & H2 & S2).
    destruct (K23 pos item2 H2) as (item3 & H3 & S3).
    exists item3. split; [done|]. eapply same_solution_trans; eauto.
  - intros pos item3 H3 Hpos.
    destruct (decide (length (data_ t2) <= pos)%nat) as [Hnew|Hold].
    + now apply (N23 pos item3).
    + destruct (lookup_lt_is_Some_2 (data_ t2) pos) as (item2 & H2); [lia|].
      destruct (K23 pos item2 H2) as (item3' & H3' & (_ & Hc & Hn & Hr)).
      assert (item3' = item3) as -> by congruence.
      destruct (N12 pos item2 H2 Hpos) as (? & ? & ?). split_and!; congruence.
Qed.

Lemma process_id_records_kept (default_cost : spec_float) (p : N * N)
    (t : RemoteSolutionModel) (b : bool) :
  records_kept default_cost t (state_of (process_id default_cost p (t, b))).1.
Proof.
  unfold process_id.
  destruct (match last (data_ t) with Some back => id back <? p.1 | None => true end).
  - simpl. split_and!; try done.
    + intros pos item H. exists item. split; [|apply same_solution_refl].
      now apply lookup_app_l_Some.
    + intros pos item' H Hpos. simpl in H. rewrite lookup_app_r in H by done.
      apply list_lookup_singleton_Some in H as [H0 <-]. simpl.
      split_and!; try done. f_equal. lia.
  - destruct (findById (data_ t) p.1) as [pos|]; [|apply records_kept_refl].
    destruct (data_ t !! pos) as [item|] eqn:Hpos; [|apply records_kept_refl].
    simpl. split_and!; try done.
    + intros pos' item' H. simpl. destruct (decide (pos = pos')) as [<-|Hne].
      * exists (set_cost_rank item p.2). rewrite list_lookup_insert_eq
          by (now apply lookup_lt_Some in Hpos).
        split; [done|]. assert (item' = item) as -> by congruence. done.
      * exists item'. rewrite list_lookup_insert_ne by done.
        split; [done|apply same_solution_refl].
    + intros pos' item' H%lookup_lt_Some Hlen. simpl in H.
      rewrite length_insert in H. lia.
Qed.

Lemma for_each_process_id_records_kept (default_cost : spec_float)
    (ps : list (N * N)) (t : RemoteSolutionModel) (b : bool) :
  records_kept default_cost t
    (state_of (for_each (process_id default_cost) ps (t, b))).1.
Proof.
  revert t b. induction ps as [|p ps IH]; intros t b; cbn [for_each].
  - apply records_kept_refl.
  - pose proof (process_id_records_kept default_cost p t b) as Hstep.
    destruct (process_id default_cost p (t, b)) as [[] [t1 b1]|[t1 b1]];
      cbn [bind state_of fst] in *; [|exact Hstep].
    eapply records_kept_trans; [exact Hstep|apply IH].
Qed.

Lemma sortInternal_records_kept (default_cost : spec_float) (t : RemoteSolutionModel) :
  records_kept default_cost t (sortInternal t).
Proof.
  split_and!; try done.
  - intros pos item H. exists item. split; [done|apply same_solution_refl].
  - intros pos item' H%lookup_lt_Some Hlen. simpl in H. lia.
Qed.

Lemma processSolutionIDs_records_kept (t : RemoteSolutionModel) (ids : list N)
    (default_cost : spec_float) :
  records_kept default_cost t (state_of (processSolutionIDs t ids default_cost)).
Proof.
  unfold processSolutionIDs.
  pose proof (for_each_process_id_records_kept default_cost (ids_by_creation ids)
                t false) as H.
  destruct (for_each _ _ _) as [[] [t1 b1]|[t1 b1]]; cbn [state_of fst] in *;
    [|exact H].
  eapply records_kept_trans; [exact H|apply sortInternal_records_kept].
Qed.

(** X14. [processSolutionIDs] never removes, moves or overwrites a stored
    solution, whether it runs to its end or stops at the assertion: every
    record stays at its position with its id, cost, name and creation rank
    (the cost rank alone may change); the records it appends carry the
    default cost, an empty name and their 1-based position as creation rank;
    the sort column, the sort order and the cost ceiling are untouched. *)
Theorem X14_stored_solutions_are_kept :
  forall (t : RemoteSolutionModel) (ids : list N) (default_cost : spec_float),
    let t' := state_of (processSolutionIDs t ids default_cost) in
    (forall pos item, data_ t !! pos = Some item ->
       exists item', data_ t' !! pos = Some item'
         /\ id item' = id item /\ cost item' = cost item
         /\ name item' = name item /\ creation_rank item' = creation_rank item)
    /\ (forall pos item', data_ t' !! pos = Some item' ->
          (length (data_ t) <= pos)%nat ->
          cost item' = default_cost /\ name item' = EmptyString
          /\ creation_rank item' = wrap32 (1 + N.of_nat pos))
    /\ (length (data_ t) <= length (data_ t'))%nat
    /\ sort_column_ t' = sort_column_ t
    /\ sort_order_ t' = sort_order_ t
    /\ max_cost_ t' = max_cost_ t.
Proof.
  intros t ids c t'.
  pose proof (processSolutionIDs_records_kept t ids c) as H.
  pose proof (records_kept_length _ _ _ H) as Hlen.
  destruct H as (K & Nw & Hc & Ho & Hm). split_and!; try done.
  intros pos item Hpos. destruct (K pos item Hpos) as (item' & H' & (? & ? & ? & ?)).
  exists item'. split_and!; done.
Qed.

(** ** Cost ranks *)

Lemma findById_app_other (c : list Data) (x : Data) (i : N) :
  id x <> i -> findById (c ++ [x]) i = findById c i.
Proof.
  intros Hne. induction c as [|y c IH]; simpl.
  - destruct (N.eqb_spec (id x) i); done.
  - destruct (id y =? i); [done|]. now rewrite IH.
Qed.

Lemma record_of_sortInternal (t : RemoteSolutionModel) (i : N) :
  record_of (sortInternal t) i = record_of t i.
Proof. done. Qed.

Lemma record_of_process_id_other (default_cost : spec_float) (p : N * N)
    (t : RemoteSolutionModel) (b : bool) (i : N) :
  i <> p.1 ->
  record_of (state_of (process_id default_cost p (t, b))).1 i = record_of t i.
Proof.
  intros Hne. unfold process_id, record_of.
  destruct (match last (data_ t) with Some back => id back <? p.1 | None => true end).
  - simpl. rewrite findById_app_other by (simpl; congruence).
    destruct (findById (data_ t) i) as [pos|] eqn:Hf; simpl; [|done].
    destruct (findById_Some _ _ _ Hf) as (item & Hpos & _).
    now rewrite lookup_app_l by (now apply lookup_lt_Some in Hpos).
  - destruct (findById (data_ t) p.1) as [pos|] eqn:Hf; [|done].
    destruct (findById_Some _ _ _ Hf) as (item & Hpos & Hid). rewrite Hpos. simpl.
    rewrite (findById_ids _ (data_ t))
      by (now apply (ids_insert_same _ _ item)).
    destruct (findById (data_ t) i) as [pos'|] eqn:Hf'; simpl; [|done].
    destruct (findById_Some _ _ _ Hf') as (item' & Hpos' & Hid').
    rewrite list_lookup_insert_ne; [done|]. intros ->. congruence.
Qed.

Lemma record_of_for_each_other (default_cost : spec_float) (ps : list (N * N))
    (t : RemoteSolutionModel) (b : bool) (i : N) :
  i ∉ ps.*1 ->
  record_of (state_of (for_each (process_id default_cost) ps (t, b))).1 i
  = record_of t i.
Proof.
  revert t b. induction ps as [|p ps IH]; intros t b Hi; cbn [for_each]; [done|].
  simpl in Hi. apply not_elem_of_cons in Hi as [Hne Hi].
  pose proof (record_of_process_id_other default_cost p t b i Hne) as Hstep.
  destruct (process_id default_cost p (t, b)) as [[] [t1 b1]|[t1 b1]];
    cbn [bind state_of fst] in *; [|exact Hstep].
  now rewrite IH.
Qed.

Lemma record_of_process_id_self (default_cost : spec_float) (p : N * N)
    (t : RemoteSolutionModel) (b : bool) :
  ascending_ids t ->
  completed (process_id default_cost p (t, b)) = true ->
  cost_rank <$> record_of (state_of (process_id default_cost p (t, b))).1 p.1
  = Some p.2.
Proof.
  intros Hasc. pose proof (is_new_above_all t p.1 Hasc) as Hnew.
  unfold process_id, record_of.
  destruct (match last (data_ t) with Some back => id back <? p.1 | None => true end).
  - intros _. simpl.
    pose proof (findById_app_new (data_ t)
               (Data_new p.1 default_cost (1 + N.of_nat (length (data_ t))) p.2))
      as Hf.
    simpl in Hf. rewrite Hf.
    + simpl. rewrite lookup_app_r by done. now rewrite Nat.sub_diag.
    + intros Hin. assert (p.1 < p.1); [|lia]. now apply Hnew.
  - destruct (findById (data_ t) p.1) as [pos|] eqn:Hf; [|done].
    destruct (findById_Some _ _ _ Hf) as (item & Hpos & Hid). rewrite Hpos. simpl.
    intros _.
    rewrite (findById_ids _ (data_ t))
      by (now apply (ids_insert_same _ _ item)).
    rewrite Hf. simpl.
    now rewrite list_lookup_insert_eq by (now apply lookup_lt_Some in Hpos).
Qed.

Lemma for_each_process_id_cost_ranks (default_cost : spec_float) (ps : list (N * N))
    (t : RemoteSolutionModel) (b : bool) :
  ascending_ids t -> NoDup ps.*1 ->
  completed (for_each (process_id default_cost) ps (t, b)) = true ->
  forall p, p ∈ ps ->
    cost_rank <$> record_of (state_of (for_each (process_id default_cost) ps (t, b))).1
                    p.1 = Some p.2.
Proof.
  revert t b. induction ps as [|p ps IH]; intros t b Hasc Hnd Hdone q Hq.
  - now apply elem_of_nil in Hq.
  - simpl in Hnd. apply NoDup_cons in Hnd as [Hp Hnd]. cbn [for_each] in *.
    pose proof (record_of_process_id_self default_cost p t b Hasc) as Hself.
    pose proof (process_id_ascending default_cost p t b Hasc) as Hasc1.
    destruct (process_id default_cost p (t, b)) as [[] [t1 b1]|[t1 b1]];
      cbn [bind state_of fst completed] in *; [|done].
    apply elem_of_cons in Hq as [->|Hq].
    + rewrite record_of_for_each_other by done. now apply Hself.
    + now apply IH.
Qed.

Lemma wrap32_succ (a b : N) : wrap32 (wrap32 a + b) = wrap32 (a + b).
Proof. unfold wrap32. now rewrite N.Div0.add_mod_idemp_l. Qed.

Lemma with_ranks_lookup (rank : N) (ids : list N) (k : nat) (i : N) :
  ids !! k = Some i ->
  with_ranks rank ids !! k = Some (i, wrap32 (rank + N.of_nat k + 1)).
Proof.
  revert rank k. induction ids as [|j ids IH]; intros rank k; [done|].
  destruct k as [|k]; simpl.
  - intros [= ->]. do 3 f_equal. lia.
  - intros H. rewrite (IH _ _ H). do 2 f_equal.
    rewrite <- N.add_assoc, wrap32_succ. f_equal. lia.
Qed.

(** X15. When [processSolutionIDs] has run to its end on a table with
    ascending ids and a list without repetition, the record of every id of
    the list carries as cost rank the 1-based position of the id in the list
    (as a [uint32_t]), and the record of every id that is not in the list is
    what it was: a solution that drops out of the list keeps its old cost
    rank. *)
Theorem X15_cost_rank_is_the_position_in_the_list :
  forall (t : RemoteSolutionModel) (ids : list N) (default_cost : spec_float),
    ascending_ids t ->
    NoDup ids ->
    completed (processSolutionIDs t ids default_cost) = true ->
    (forall k i, ids !! k = Some i ->
       cost_rank <$> record_of (state_of (processSolutionIDs t ids default_cost)) i
       = Some (wrap32 (N.of_nat k + 1)))
    /\ (forall i, i ∉ ids ->
          record_of (state_of (processSolutionIDs t ids default_cost)) i
          = record_of t i).
Proof.
  intros t ids c Hasc Hnd Hdone. rewrite completed_processSolutionIDs in Hdone.
  assert (Hnd' : NoDup (ids_by_creation ids).*1)
    by (now rewrite ids_by_creation_perm).
  pose proof (for_each_process_id_cost_ranks c _ t false Hasc Hnd' Hdone) as Hranks.
  assert (Hother : forall i, i ∉ ids ->
    record_of (state_of (for_each (process_id c) (ids_by_creation ids) (t, false))).1 i
    = record_of t i).
  { intros i Hi. apply record_of_for_each_other. now rewrite ids_by_creation_perm. }
  unfold processSolutionIDs.
  destruct (for_each _ _ _) as [[] [t1 b1]|[t1 b1]]; cbn [state_of fst completed] in *;
    [|done].
  split.
  - intros k i Hk. rewrite record_of_sortInternal.
    apply (Hranks (i, wrap32 (N.of_nat k + 1))).
    unfold ids_by_creation. rewrite (std_sort_perm _ (with_ranks 0 ids)).
    eapply list_elem_of_lookup_2. now rewrite (with_ranks_lookup 0 ids k i Hk).
  - intros i Hi. rewrite record_of_sortInternal. now apply Hother.
Qed.

Lemma X15_cost_rank_is_the_position_in_the_list_witness :
  cost_rank <$> record_of (state_of (processSolutionIDs table_1_3 [5; 1] infinity)) 1
  = Some 2
  /\ record_of (state_of (processSolutionIDs table_1_3 [5; 1] infinity)) 3
     = Some (mkData 3 S754_nan EmptyString 2 1).
Proof.
  assert (Hasc : ascending_ids table_1_3).
  { unfold ascending_ids. vm_compute. repeat constructor. }
  assert (Hnd : NoDup [5; 1]) by compute_done.
  destruct (X15_cost_rank_is_the_position_in_the_list table_1_3 [5; 1] infinity
              Hasc Hnd eq_refl) as [Hin Hout].
  split.
  - exact (Hin 1%nat 1 eq_refl).
  - rewrite Hout; [reflexivity|]. compute_done.
Defined.

(** ** The value [processSolutionIDs] returns *)

Lemma isVisible_set_cost_rank (t : RemoteSolutionModel) (item : Data) (r : N) :
  isVisible t (set_cost_rank item r) = isVisible t item.
Proof. done. Qed.

Lemma isVisible_max_cost (t t' : RemoteSolutionModel) (item : Data) :
  max_cost_ t' = max_cost_ t -> isVisible t' item = isVisible t item.
Proof. unfold isVisible. now intros ->. Qed.

Lemma visible_records_set_data (t : RemoteSolutionModel) (d : list Data) :
  visible_records (set_data_ t d) = filter (fun x => isVisible t x = true) d.
Proof. done. Qed.

Lemma filter_insert_length {A : Type} (P : A -> Prop) `{!forall x, Decision (P x)}
    (l : list A) (pos : nat) (x y : A) :
  l !! pos = Some x -> (P x <-> P y) ->
  length (filter P (<[pos := y]> l)) = length (filter P l).
Proof.
  revert pos. induction l as [|z l IH]; intros pos Hpos Hxy; [done|].
  destruct pos as [|pos]; simpl in *.
  - injection Hpos as ->. rewrite !filter_cons.
    destruct (decide (P y)), (decide (P x)); tauto || done.
  - rewrite !filter_cons. specialize (IH pos Hpos Hxy).
    destruct (decide (P z)); simpl; now rewrite IH.
Qed.

Lemma process_id_flag (default_cost : spec_float) (p : N * N)
    (t t' : RemoteSolutionModel) (b b' : bool) :
  process_id default_cost p (t, b) = Ok tt (t', b') ->
  max_cost_ t' = max_cost_ t
  /\ (length (visible_records t) <= length (visible_records t'))%nat
  /\ b' = b || (length (visible_records t) <? length (visible_records t'))%nat.
Proof.
  unfold process_id.
  destruct (match last (data_ t) with Some back => id back <? p.1 | None => true end).
  - intros [= <- <-]. split; [done|]. rewrite visible_records_set_data.
    unfold visible_records. rewrite filter_app, length_app.
    rewrite filter_cons, filter_nil.
    set (item := Data_new _ _ _ _).
    destruct (decide (isVisible t item = true)) as [Hv|Hv].
    + rewrite Hv. simpl. split; [lia|]. f_equal. symmetry. apply Nat.ltb_lt. lia.
    + apply not_true_is_false in Hv. rewrite Hv. simpl. split; [lia|]. f_equal.
      symmetry. apply Nat.ltb_ge. lia.
  - destruct (findById (data_ t) p.1) as [pos|]; [|done].
    destruct (data_ t !! pos) as [item|] eqn:Hpos; [|done].
    intros [= <- <-]. split; [done|]. rewrite visible_records_set_data.
    unfold visible_records.
    rewrite (filter_insert_length _ _ pos item) by done.
    rewrite isVisible_set_cost_rank, Nat.ltb_irrefl.
    split; [lia|]. now destruct (isVisible t item), b.
Qed.

Lemma for_each_process_id_flag (default_cost : spec_float) (ps : list (N * N))
    (t t' : RemoteSolutionModel) (b b' : bool) :
  for_each (process_id default_cost) ps (t, b) = Ok tt (t', b') ->
  max_cost_ t' = max_cost_ t
  /\ (length (visible_records t) <= length (visible_records t'))%nat
  /\ b' = b || (length (visible_records t) <? length (visible_records t'))%nat.
Proof.
  revert t b. induction ps as [|p ps IH]; intros t b; cbn [for_each].
  - intros [= <- <-]. rewrite Nat.ltb_irrefl. split_and!; [done|lia|].
    now destruct b.
  - destruct (process_id default_cost p (t, b)) as [[] [t1 b1]|[t1 b1]] eqn:Hstep;
      cbn [bind]; [|done].
    intros Hrest. apply process_id_flag in Hstep as (Hm1 & Hle1 & ->).
    apply IH in Hrest as (Hm & Hle & ->). split_and!; [congruence|lia|].
    destruct b; simpl; [done|].
    destruct (Nat.ltb_spec (length (visible_records t)) (length (visible_records t1)));
      destruct (Nat.ltb_spec (length (visible_records t1))
                  (length (visible_records t')));
      destruct (Nat.ltb_spec (length (visible_records t))
                  (length (visible_records t'))); simpl; done || lia.
Qed.

Lemma visible_records_sortInternal (t : RemoteSolutionModel) :
  visible_records (sortInternal t) = visible_records t.
Proof. done. Qed.

(** X16. The value [processSolutionIDs] returns tells whether the number of
    visible solutions has grown: it is true exactly when the call appended a
    record that is visible. The number never shrinks, and an update of the
    cost rank of a stored solution never sets the value. *)
Theorem X16_returned_flag_reports_new_visible_solutions :
  forall (t t' : RemoteSolutionModel) (ids : list N) (default_cost : spec_float)
         (size_changed : bool),
    processSolutionIDs t ids default_cost = Ok size_changed t' ->
    (length (visible_records t) <= length (visible_records t'))%nat
    /\ (size_changed = true
        <-> (length (visible_records t) < length (visible_records t'))%nat).
Proof.
  intros t t' ids c b. unfold processSolutionIDs.
  destruct (for_each _ _ _) as [[] [t1 b1]|[t1 b1]] eqn:Hloop; [|done].
  intros [= <- <-]. rewrite visible_records_sortInternal.
  apply for_each_process_id_flag in Hloop as (_ & Hle & ->). simpl.
  split; [exact Hle|]. apply Nat.ltb_lt.
Qed.

Lemma X16_returned_flag_reports_new_visible_solutions_witness :
  (length (visible_records table_1_3)
   <= length (visible_records (state_of (processSolutionIDs table_1_3 [5; 1]%N infinity))))%nat
  /\ (false = true
      <-> (length (visible_records table_1_3)
           < length (visible_records
                       (state_of (processSolutionIDs table_1_3 [5; 1]%N infinity))))%nat).
Proof.
  exact (X16_returned_flag_reports_new_visible_solutions table_1_3 _ [5; 1]%N infinity
           false eq_refl).
Defined.

(** ** The view [sortInternal] builds *)

Lemma imap_pair_fst {A : Type} (g : nat -> nat) (l : list A) :
  (imap (fun i d => (g i, d)) l).*1 = g <$> seq 0 (length l).
Proof.
  revert g. induction l as [|x l IH]; intros g; [done|].
  simpl. f_equal. rewrite <- fmap_S_seq, <- list_fmap_compose.
  exact (IH (g ∘ S)).
Qed.

Lemma imap_pair_snd {A : Type} (g : nat -> nat) (l : list A) :
  (imap (fun i d => (g i, d)) l).*2 = l.
Proof.
  revert g. induction l as [|x l IH]; intros g; [done|].
  simpl. f_equal. exact (IH (g ∘ S)).
Qed.

Lemma filter_fmap_snd {A B : Type} (P : B -> Prop) `{!forall x, Decision (P x)}
    (l : list (A * B)) :
  (filter (fun x => P x.2) l).*2 = filter P l.*2.
Proof.
  induction l as [|x l IH]; [done|]. rewrite fmap_cons, !filter_cons.
  destruct (decide (P x.2)); [rewrite fmap_cons|]; now rewrite IH.
Qed.

Lemma visible_iterators_snd (m : RemoteSolutionModel) :
  (visible_iterators m).*2 = visible_records m.
Proof.
  unfold visible_iterators, visible_records.
  etrans; [exact (filter_fmap_snd (fun d => isVisible m d = true) _)|].
  now rewrite (imap_pair_snd (fun i => i)).
Qed.

Lemma visible_iterators_fst_sorted (m : RemoteSolutionModel) :
  StronglySorted lt (visible_iterators m).*1.
Proof.
  unfold visible_iterators.
  assert (H : StronglySorted lt (imap (fun i d => (i, d)) (data_ m)).*1).
  { rewrite (imap_pair_fst (fun i => i)), list_fmap_id.
    apply Sorted_StronglySorted; [intros ???; lia|].
    generalize 0%nat. induction (length (data_ m)) as [|n IH]; intros s; simpl;
      [constructor|].
    constructor; [apply IH|]. destruct n; simpl; constructor. lia. }
  revert H. generalize (imap (fun i d => (i, d)) (data_ m)).
  induction l as [|x l IH]; [done|]. rewrite fmap_cons, filter_cons.
  intros [Hl Hx]%StronglySorted_inv. destruct (decide _); [|now apply IH].
  rewrite fmap_cons. constructor; [now apply IH|].
  rewrite Forall_forall in Hx |- *. intros y Hy. apply Hx.
  apply list_elem_of_fmap in Hy as (z & -> & Hz%list_elem_of_filter).
  apply list_elem_of_fmap_2. tauto.
Qed.

Lemma StronglySorted_lt_NoDup (l : list nat) : StronglySorted lt l -> NoDup l.
Proof.
  induction 1 as [|x l Hl IH Hx]; constructor; [|done].
  intros Hin. rewrite Forall_forall in Hx. specialize (Hx x Hin). lia.
Qed.

Lemma visible_iterators_elem (m : RemoteSolutionModel) (pos : nat) :
  pos ∈ (visible_iterators m).*1
  <-> exists item, data_ m !! pos = Some item /\ isVisible m item = true.
Proof.
  split.
  - intros (x & -> & Hx)%list_elem_of_fmap.
    destruct (visible_iterators_lookup m x Hx). eauto.
  - intros (item & Hpos & Hv).
    apply (list_elem_of_fmap_2' fst _ (pos, item)); [|done].
    unfold visible_iterators. apply list_elem_of_filter. split; [done|].
    apply elem_of_lookup_imap. eauto.
Qed.

Lemma view_records (m : RemoteSolutionModel) (l : list (nat * Data)) :
  (forall x, x ∈ l -> data_ m !! x.1 = Some x.2) ->
  (fun pos => data_ m !! pos) <$> l.*1 = Some <$> l.*2.
Proof.
  induction l as [|x l IH]; intros H; [done|]. simpl.
  rewrite (H x) by left. f_equal. apply IH. intros y Hy. apply H. now right.
Qed.

Lemma new_sorted_lookup (m : RemoteSolutionModel) (x : nat * Data) :
  x ∈ new_sorted m -> data_ m !! x.1 = Some x.2.
Proof.
  rewrite new_sorted_perm. intros Hx. now destruct (visible_iterators_lookup m x Hx).
Qed.

(** X17. The view that [sortInternal] builds shows every visible record in
    exactly one row and nothing else: no position occurs twice, a position is
    displayed exactly when its record is visible, and the records of the rows
    are the visible records, in the order of storage when no sort column is
    active and in a rearrangement of it otherwise. *)
Theorem X17_view_shows_each_visible_record_once :
  forall m : RemoteSolutionModel,
    NoDup (sorted_ (sortInternal m))
    /\ (forall pos, pos ∈ sorted_ (sortInternal m)
          <-> exists item, data_ m !! pos = Some item /\ isVisible m item = true)
    /\ table_rowCount (sortInternal m) = Z.of_nat (length (visible_records m))
    /\ exists rows,
         (fun pos => data_ (sortInternal m) !! pos) <$> sorted_ (sortInternal m)
         = Some <$> rows
         /\ if (0 <=? sort_column_ m)%Z then rows ≡ₚ visible_records m
            else rows = visible_records m.
Proof.
  intros m. change (sorted_ (sortInternal m)) with (new_sorted m).*1.
  change (data_ (sortInternal m)) with (data_ m).
  assert (Hperm : (new_sorted m).*1 ≡ₚ (visible_iterators m).*1)
    by (now rewrite new_sorted_perm).
  split_and!.
  - rewrite Hperm. apply StronglySorted_lt_NoDup, visible_iterators_fst_sorted.
  - intros pos. rewrite Hperm. apply visible_iterators_elem.
  - unfold table_rowCount. f_equal.
    change (sorted_ (sortInternal m)) with (new_sorted m).*1.
    rewrite Hperm, length_fmap, <- visible_iterators_snd. now rewrite length_fmap.
  - exists (new_sorted m).*2. split.
    + apply view_records. apply new_sorted_lookup.
    + rewrite <- visible_iterators_snd. unfold new_sorted.
      destruct (0 <=? sort_column_ m)%Z; [|done].
      now rewrite (std_sort_perm _ (visible_iterators m)).
Qed.

Lemma sort_less_key (m : RemoteSolutionModel) (a b : Data) :
  creation_rank a <> creation_rank b ->
  sort_less m a b = true ->
  match sort_order_ m with
  | AscendingOrder =>
      (sort_column_ m = 1%Z -> cost_rank a <= cost_rank b)
      /\ (sort_column_ m = 2%Z -> String.compare (name a) (name b) <> Gt)
      /\ (sort_column_ m <> 1%Z -> sort_column_ m <> 2%Z ->
          creation_rank a < creation_rank b)
  | DescendingOrder =>
      (sort_column_ m = 1%Z -> cost_rank b <= cost_rank a)
      /\ (sort_column_ m = 2%Z -> String.compare (name a) (name b) <> Lt)
      /\ (sort_column_ m <> 1%Z -> sort_column_ m <> 2%Z ->
          creation_rank b < creation_rank a)
  end.
Proof.
  intros Hne. rewrite sort_less_lex. unfold lex_compare, key_compare.
  destruct (Z.eqb_spec (sort_column_ m) 1) as [H1|H1];
    [|destruct (Z.eqb_spec (sort_column_ m) 2) as [H2|H2]];
    destruct (sort_order_ m).
  - destruct (N.compare_spec (cost_rank a) (cost_rank b)); intros Hlt;
      split_and!; intros; try lia; try done.
  - destruct (N.compare_spec (cost_rank a) (cost_rank b)); intros Hlt;
      split_and!; intros; try lia; try done.
  - destruct (String.compare (name a) (name b)); intros Hlt;
      split_and!; intros; try lia; try done.
  - destruct (String.compare (name a) (name b)); intros Hlt;
      split_and!; intros; try lia; try done.
  - destruct (N.compare_spec (creation_rank a) (creation_rank b)); intros Hlt;
      split_and!; intros; try lia; try done.
  - destruct (N.compare_spec (creation_rank a) (creation_rank b)); intros Hlt;
      split_and!; intros; try lia; try done.
Qed.

(** X18. With an active sort column and distinct creation ranks, the rows of
    the view that [sortInternal] builds follow the sort key: for a row above
    another one, under the ascending order its cost rank is not greater
    (column 1), its name does not compare greater (column 2), or its creation
    rank is smaller (any other column); under the descending order the
    comparisons are reversed. *)
Theorem X18_rows_follow_the_sort_key :
  forall (m : RemoteSolutionModel) (i j : nat) (a b : Data),
    NoDup (creation_rank <$> data_ m) ->
    (0 <= sort_column_ m)%Z ->
    (i < j)%nat ->
    row_record (sortInternal m) i = Some a ->
    row_record (sortInternal m) j = Some b ->
    match sort_order_ m with
    | AscendingOrder =>
        (sort_column_ m = 1%Z -> cost_rank a <= cost_rank b)
        /\ (sort_column_ m = 2%Z -> String.compare (name a) (name b) <> Gt)
        /\ (sort_column_ m <> 1%Z -> sort_column_ m <> 2%Z ->
            creation_rank a < creation_rank b)
    | DescendingOrder =>
        (sort_column_ m = 1%Z -> cost_rank b <= cost_rank a)
        /\ (sort_column_ m = 2%Z -> String.compare (name a) (name b) <> Lt)
        /\ (sort_column_ m <> 1%Z -> sort_column_ m <> 2%Z ->
            creation_rank b < creation_rank a)
    end.
Proof.
  intros m i j a b Hnd Hcol Hij Ha Hb.
  apply row_record_sortInternal in Ha as (pa & Ha & _).
  apply row_record_sortInternal in Hb as (pb & Hb & _).
  pose proof (visible_iterators_ranks m Hnd) as Hranks.
  rewrite <- (new_sorted_perm m) in Hranks.
  apply sort_less_key.
  - intros Heq. assert (i = j); [|lia].
    eapply NoDup_lookup; [exact Hranks|..];
      rewrite list_lookup_fmap; [rewrite Ha|rewrite Hb]; simpl; [done|].
    now rewrite Heq.
  - apply Z.leb_le in Hcol. unfold new_sorted in Ha, Hb, Hranks.
    rewrite Hcol in Ha, Hb, Hranks.
    rewrite (std_sort_perm _ (visible_iterators m)) in Hranks.
    eapply (sorted_rows_ordered (fun l r : nat * Data => sort_less m l.2 r.2)
              _ i j (pa, a) (pb, b)); [|exact Hij|exact Ha|exact Hb].
    apply (std_sort_sorted _ (fun x : nat * Data => creation_rank x.2)).
    + intros x y z. apply sort_less_trans.
    + intros x y. apply sort_less_total.
    + exact Hranks.
Qed.

Lemma X18_rows_follow_the_sort_key_witness :
  (sort_column_ by_cost_table = 1%Z ->
   cost_rank (mkData 3 S754_nan EmptyString 2 1)
   <= cost_rank (mkData 1 S754_nan EmptyString 1 2))
  /\ (sort_column_ by_cost_table = 2%Z ->
      String.compare (name (mkData 3 S754_nan EmptyString 2 1))
        (name (mkData 1 S754_nan EmptyString 1 2)) <> Gt)
  /\ (sort_column_ by_cost_table <> 1%Z -> sort_column_ by_cost_table <> 2%Z ->
      creation_rank (mkData 3 S754_nan EmptyString 2 1)
      < creation_rank (mkData 1 S754_nan EmptyString 1 2)).
Proof.
  refine (X18_rows_follow_the_sort_key by_cost_table 0 1
            (mkData 3 S754_nan EmptyString 2 1)
            (mkData 1 S754_nan EmptyString 1 2) _ _ _ _ _).
  - compute_done.
  - compute_done.
  - lia.
  - reflexivity.
  - reflexivity.
Defined.

(** ** Handles across a change of the view *)

Lemma findById_sorted_Some (data : list Data) (l : list nat) (i : N) (r : nat) :
  findById_sorted data l i = Some r ->
  exists p item, l !! r = Some p /\ data !! p = Some item /\ id item = i.
Proof.
  revert r. induction l as [|p l IH]; intros r; simpl; [done|].
  destruct (data !! p) as [item|] eqn:Hp.
  - destruct (N.eqb_spec (id item) i) as [Heq|Hne].
    + intros [= <-]. eauto.
    + destruct (findById_sorted data l i) as [r'|]; simpl; [|done].
      intros [= <-]. now apply IH.
  - destruct (findById_sorted data l i) as [r'|]; simpl; [|done].
    intros [= <-]. now apply IH.
Qed.

Lemma findById_sorted_None (data : list Data) (l : list nat) (i : N) :
  findById_sorted data l i = None ->
  forall r p item, l !! r = Some p -> data !! p = Some item -> id item <> i.
Proof.
  induction l as [|p l IH]; simpl; [done|]. intros H r q item Hr Hq.
  destruct r as [|r]; simpl in Hr.
  - injection Hr as ->. rewrite Hq in H.
    destruct (N.eqb_spec (id item) i); [done|done].
  - apply (IH) with (r := r) (p := q); [|done..].
    destruct (data !! p) as [x|]; [destruct (id x =? i); [done|]|];
      now destruct (findById_sorted data l i).
Qed.

Lemma remap_foldl (m : RemoteSolutionModel) (new_view : list nat)
    (l : list (Z * Z)) (cache : gmap Z Z) (out : list (option (Z * Z))) :
  (forall r v, cache !! r = Some v -> v = new_row_of m new_view r) ->
  (foldl (remap_index (data_ m) (sorted_ m) new_view) (cache, out) l).2
  = out ++ ((fun h => table_index (length new_view) (new_row_of m new_view h.1) h.2)
              <$> l).
Proof.
  revert cache out. induction l as [|h l IH]; intros cache out Hcache; simpl.
  - now rewrite app_nil_r.
  - assert (Hrow : match cache !! h.1 with
                   | Some r => r
                   | None =>
                       match sorted_ m !! Z.to_nat h.1 ≫= (data_ m !!.) with
                       | Some item =>
                           match findById_sorted (data_ m) new_view (id item) with
                           | Some r => Z.of_nat r
                           | None => (-1)%Z
                           end
                       | None => (-1)%Z
                       end
                   end = new_row_of m new_view h.1).
    { destruct (cache !! h.1) as [v|] eqn:Hc; [now apply Hcache|done]. }
    unfold remap_index at 2. cbn [fst snd]. rewrite Hrow. rewrite IH.
    + now rewrite <- app_assoc.
    + intros r v. destruct (decide (r = h.1)) as [->|Hne].
      * rewrite lookup_insert_eq. now intros [= <-].
      * rewrite lookup_insert_ne by done. apply Hcache.
Qed.

Lemma omap_fmap_id {A B : Type} (f : A -> option B) (l : list A) :
  omap (fun x => x) (f <$> l) = omap f l.
Proof.
  induction l as [|x l IH]; [done|]. csimpl. destruct (f x); csimpl; now rewrite IH.
Qed.

Lemma omap_length_le {A B : Type} (f : A -> option B) (l : list A) :
  (length (omap f l) <= length l)%nat.
Proof.
  induction l as [|x l IH]; [done|]. csimpl. destruct (f x); csimpl; lia.
Qed.

Lemma persistent_sortInternal (m : RemoteSolutionModel) :
  persistent_ (sortInternal m)
  = omap (fun h => table_index (length (sorted_ (sortInternal m)))
                     (new_row_of m (sorted_ (sortInternal m)) h.1) h.2)
      (persistent_ m).
Proof.
  unfold sortInternal at 1. cbn [persistent_].
  change (new_sorted m).*1 with (sorted_ (sortInternal m)).
  rewrite remap_foldl by (intros r v; now rewrite lookup_empty).
  rewrite app_nil_l. apply omap_fmap_id.
Qed.

Lemma table_index_Some (rows : nat) (r c : Z) (h : Z * Z) :
  table_index rows r c = Some h ->
  h = (r, c) /\ (0 <= r < Z.of_nat rows)%Z /\ (0 <= c < 3)%Z.
Proof.
  unfold table_index.
  destruct (Z.leb_spec 0 r), (Z.ltb_spec r (Z.of_nat rows)), (Z.leb_spec 0 c),
    (Z.ltb_spec c 3); simpl; try done.
  intros [= <-]. split; [done|lia].
Qed.

Lemma table_index_in_range (rows : nat) (r c : Z) :
  (0 <= r < Z.of_nat rows)%Z -> (0 <= c < 3)%Z ->
  table_index rows r c = Some (r, c).
Proof.
  intros Hr Hc. unfold table_index.
  destruct (Z.leb_spec 0 r), (Z.ltb_spec r (Z.of_nat rows)), (Z.leb_spec 0 c),
    (Z.ltb_spec c 3); simpl; done || lia.
Qed.

Lemma new_row_of_record (m : RemoteSolutionModel) (old_row : Z) :
  NoDup (id <$> data_ m) ->
  (0 <= new_row_of m (sorted_ (sortInternal m)) old_row)%Z ->
  exists a,
    row_record m (Z.to_nat old_row) = Some a
    /\ row_record (sortInternal m)
         (Z.to_nat (new_row_of m (sorted_ (sortInternal m)) old_row)) = Some a
    /\ (new_row_of m (sorted_ (sortInternal m)) old_row
        < Z.of_nat (length (sorted_ (sortInternal m))))%Z.
Proof.
  intros Hnd. unfold new_row_of, row_record.
  destruct (sorted_ m !! Z.to_nat old_row ≫= (data_ m !!.)) as [a|] eqn:Hold;
    [|intros; lia].
  destruct (findById_sorted _ _ _) as [r|] eqn:Hf; [|intros; lia]. intros _.
  destruct (findById_sorted_Some _ _ _ _ Hf) as (p & item & Hr & Hp & Hid).
  exists a. split; [done|]. rewrite Nat2Z.id, Hr. simpl.
  change (data_ (sortInternal m)) with (data_ m).
  apply bind_Some in Hold as (p0 & Hp0 & Ha).
  assert (p = p0) as ->.
  { eapply NoDup_lookup; [exact Hnd|..]; rewrite list_lookup_fmap.
    - rewrite Hp. simpl. now rewrite Hid.
    - now rewrite Ha. }
  split; [congruence|]. apply Nat2Z.inj_lt. exact (lookup_lt_Some _ _ _ Hr).
Qed.

(** X19. With distinct ids, the handles that observers hold follow their
    records when [sortInternal] rebuilds the view: every handle that is left
    points, in its old column, to the row that now displays the record an old
    handle pointed to; a handle whose record is still visible is among them;
    and no handle is added. *)
Theorem X19_handles_follow_their_record :
  forall m : RemoteSolutionModel,
    NoDup (id <$> data_ m) ->
    (forall h', h' ∈ persistent_ (sortInternal m) ->
       exists h a, h ∈ persistent_ m /\ h'.2 = h.2 /\ (0 <= h'.1)%Z
                   /\ row_record m (Z.to_nat h.1) = Some a
                   /\ row_record (sortInternal m) (Z.to_nat h'.1) = Some a)
    /\ (forall h a, h ∈ persistent_ m -> (0 <= h.2 < 3)%Z ->
          row_record m (Z.to_nat h.1) = Some a -> isVisible m a = true ->
          exists r', (r', h.2) ∈ persistent_ (sortInternal m)
                     /\ row_record (sortInternal m) (Z.to_nat r') = Some a)
    /\ (length (persistent_ (sortInternal m)) <= length (persistent_ m))%nat.
Proof.
  intros m Hnd. rewrite persistent_sortInternal. split_and!.
  - intros h' (h & Hh & Hg)%list_elem_of_omap.
    apply table_index_Some in Hg as (-> & Hrow & Hcol). simpl.
    destruct (new_row_of_record m h.1 Hnd) as (a & Hold & Hnew & _); [lia|].
    exists h, a. split_and!; try done. exact (proj1 Hrow).
  - intros h a Hh Hcol Hold Hv.
    assert (Hrow : (0 <= new_row_of m (sorted_ (sortInternal m)) h.1)%Z).
    { unfold new_row_of. unfold row_record in Hold. rewrite Hold.
      destruct (findById_sorted _ _ _) as [r|] eqn:Hf; [lia|]. exfalso.
      apply bind_Some in Hold as (p0 & Hp0 & Ha).
      assert (Hin : p0 ∈ sorted_ (sortInternal m)).
      { change (sorted_ (sortInternal m)) with (new_sorted m).*1.
        rewrite new_sorted_perm. apply visible_iterators_elem. eauto. }
      apply list_elem_of_lookup_1 in Hin as (r0 & Hr0).
      now apply (findById_sorted_None _ _ _ Hf r0 p0 a). }
    destruct (new_row_of_record m h.1 Hnd Hrow) as (a' & Hold' & Hnew & Hlt).
    assert (a' = a) as -> by congruence.
    exists (new_row_of m (sorted_ (sortInternal m)) h.1). split; [|done].
    apply list_elem_of_omap. exists h. split; [done|].
    apply table_index_in_range; [split; [exact Hrow|exact Hlt]|exact Hcol].
  - apply omap_length_le.
Qed.

Lemma X19_handles_follow_their_record_witness :
  exists r', (r', 1%Z) ∈ persistent_ (sortInternal table_with_handle)
             /\ row_record (sortInternal table_with_handle) (Z.to_nat r')
                = Some (mkData 1 S754_nan EmptyString 1 2).
Proof.
  assert (Hnd : NoDup (id <$> data_ table_with_handle)) by compute_done.
  destruct (X19_handles_follow_their_record table_with_handle Hnd) as (_ & H & _).
  apply (H (0, 1)%Z (mkData 1 S754_nan EmptyString 1 2)).
  - compute_done.
  - simpl. lia.
  - reflexivity.
  - reflexivity.
Defined.

(** ** Reading the table *)

Lemma process_id_sorted (default_cost : spec_float) (p : N * N)
    (t : RemoteSolutionModel) (b : bool) :
  sorted_ (state_of (process_id default_cost p (t, b))).1 = sorted_ t.
Proof.
  unfold process_id.
  destruct (match last (data_ t) with Some back => id back <? p.1 | None => true end);
    [done|].
  destruct (findById (data_ t) p.1) as [pos|]; [|done].
  now destruct (data_ t !! pos).
Qed.

Lemma for_each_process_id_sorted (default_cost : spec_float) (ps : list (N * N))
    (t : RemoteSolutionModel) (b : bool) :
  sorted_ (state_of (for_each (process_id default_cost) ps (t, b))).1 = sorted_ t.
Proof.
  revert t b. induction ps as [|p ps IH]; intros t b; cbn [for_each]; [done|].
  pose proof (process_id_sorted default_cost p t b) as Hstep.
  destruct (process_id default_cost p (t, b)) as [[] [t1 b1]|[t1 b1]];
    cbn [bind state_of fst] in *; [|exact Hstep].
  now rewrite IH.
Qed.

Lemma view_ok_sortInternal (m : RemoteSolutionModel) : view_ok (sortInternal m).
Proof.
  assert (Hperm : sorted_ (sortInternal m) ≡ₚ (visible_iterators m).*1).
  { change (sorted_ (sortInternal m)) with (new_sorted m).*1.
    now rewrite new_sorted_perm. }
  split.
  - rewrite Hperm. apply StronglySorted_lt_NoDup, visible_iterators_fst_sorted.
  - apply Forall_forall. intros pos Hpos. rewrite Hperm in Hpos.
    apply visible_iterators_elem in Hpos as (item & Hitem & _).
    now apply lookup_lt_Some in Hitem.
Qed.

Lemma view_ok_grow (t t' : RemoteSolutionModel) :
  sorted_ t' = sorted_ t -> (length (data_ t) <= length (data_ t'))%nat ->
  view_ok t -> view_ok t'.
Proof.
  intros Hs Hlen [Hnd Hin]. unfold view_ok. rewrite Hs. split; [done|].
  eapply Forall_impl; [exact Hin|]. simpl. intros. lia.
Qed.

Lemma table_setData_length (t : RemoteSolutionModel) (i : N) (c : spec_float)
    (nm : string) :
  length (data_ (table_setData t i c nm).1) = length (data_ t).
Proof.
  rewrite <- (length_fmap id (data_ (table_setData t i c nm).1)).
  now rewrite table_setData_ids, length_fmap.
Qed.

Lemma table_setData_sorted (t : RemoteSolutionModel) (i : N) (c : spec_float)
    (nm : string) :
  sorted_ (table_setData t i c nm).1 = sorted_ t.
Proof.
  unfold table_setData. destruct (findById (data_ t) i) as [pos|]; simpl; [|done].
  now destruct (data_ t !! pos).
Qed.

Lemma view_ok_table_operation (t : RemoteSolutionModel) (o : TableOperation) :
  view_ok t -> view_ok (apply_table_operation t o).
Proof.
  intros H. destruct o as [ids c|column order|i c nm]; simpl.
  - unfold processSolutionIDs.
    pose proof (for_each_process_id_sorted c (ids_by_creation ids) t false) as Hs.
    pose proof (records_kept_length _ _ _
      (for_each_process_id_records_kept c (ids_by_creation ids) t false)) as Hlen.
    destruct (for_each _ _ _) as [[] [t1 b1]|[t1 b1]]; cbn [state_of fst] in *.
    + apply view_ok_sortInternal.
    + now apply (view_ok_grow t).
  - unfold sort. destruct (decide _); [done|apply view_ok_sortInternal].
  - apply (view_ok_grow t); [apply table_setData_sorted| |done].
    now rewrite table_setData_length.
Qed.

Lemma view_ok_table_operations (ops : list TableOperation) :
  view_ok (apply_table_operations new_RemoteSolutionModel ops).
Proof.
  unfold apply_table_operations.
  assert (H : view_ok new_RemoteSolutionModel) by (split; constructor).
  revert H. generalize new_RemoteSolutionModel.
  induction ops as [|o ops IH]; intros t H; simpl; [done|].
  apply IH. now apply view_ok_table_operation.
Qed.

Lemma NoDup_table_operations (ops : list TableOperation) :
  NoDup (id <$> data_ (apply_table_operations new_RemoteSolutionModel ops)).
Proof.
  apply ascending_NoDup, ascending_table_operations.
  unfold ascending_ids. constructor.
Qed.

Lemma view_ok_row (t : RemoteSolutionModel) (row : Z) :
  view_ok t -> (0 <= row < table_rowCount t)%Z ->
  exists item, row_record t (Z.to_nat row) = Some item.
Proof.
  intros [_ Hin] Hrow. unfold table_rowCount in Hrow. unfold row_record.
  destruct (lookup_lt_is_Some_2 (sorted_ t) (Z.to_nat row)) as (pos & Hpos); [lia|].
  rewrite Hpos. simpl. rewrite Forall_forall in Hin.
  apply lookup_lt_is_Some_2, Hin. eapply list_elem_of_lookup_2, Hpos.
Qed.

Lemma findById_position (data : list Data) (pos : nat) (item : Data) :
  NoDup (id <$> data) -> data !! pos = Some item ->
  findById data (id item) = Some pos.
Proof.
  intros Hnd Hpos. destruct (findById data (id item)) as [pos'|] eqn:Hf.
  - destruct (findById_Some _ _ _ Hf) as (item' & Hpos' & Hid). f_equal.
    apply (NoDup_lookup (id <$> data) pos' pos (id item) Hnd);
      rewrite list_lookup_fmap.
    + rewrite Hpos'. simpl. now rewrite Hid.
    + now rewrite Hpos.
  - apply findById_None in Hf. exfalso. apply Hf.
    apply list_elem_of_fmap_2. eapply list_elem_of_lookup_2, Hpos.
Qed.

Lemma findById_sorted_row (data : list Data) (l : list nat) (r pos : nat)
    (item : Data) :
  NoDup l -> NoDup (id <$> data) ->
  l !! r = Some pos -> data !! pos = Some item ->
  findById_sorted data l (id item) = Some r.
Proof.
  intros Hl Hnd. revert r. induction Hl as [|q l Hq Hl IH]; intros r Hr Hpos.
  - now rewrite lookup_nil in Hr.
  - destruct r as [|r]; simpl in *.
    + injection Hr as ->. now rewrite Hpos, N.eqb_refl.
    + assert (Hne : q <> pos).
      { intros ->. apply Hq. eapply list_elem_of_lookup_2, Hr. }
      rewrite (IH r Hr Hpos).
      destruct (data !! q) as [x|] eqn:Hx; [|done].
      destruct (N.eqb_spec (id x) (id item)) as [Heq|]; [|done].
      exfalso. apply Hne.
      apply (NoDup_lookup (id <$> data) q pos (id item) Hnd);
        rewrite list_lookup_fmap.
      * rewrite Hx. simpl. now rewrite Heq.
      * now rewrite Hpos.
Qed.

(** X20. In a table built by [processSolutionIDs], [sort] and [setData]
    calls, [data] answers for every row below [rowCount], every column and
    every role: the row holds a stored record, and the answer for
    [Qt::UserRole] and [Qt::ToolTipRole] is the id of that record. *)
Theorem X20_data_answers_every_row :
  forall (ops : list TableOperation) (row col : Z) (role : TableRole),
    let t := apply_table_operations new_RemoteSolutionModel ops in
    (0 <= row < table_rowCount t)%Z ->
    exists item,
      row_record t (Z.to_nat row) = Some item
      /\ is_Some (table_data t (Some (row, col)) role)
      /\ table_data t (Some (row, col)) UserRole = Some (Some (uint32_variant (id item)))
      /\ table_data t (Some (row, col)) ToolTipRole
         = Some (Some (uint32_variant (id item))).
Proof.
  intros ops row col role t Hrow.
  destruct (view_ok_row t row (view_ok_table_operations ops) Hrow) as (item & Hitem).
  exists item. split; [done|]. unfold table_data, row_record in *. cbn [mbind option_bind].
  destruct (Z.ltb_spec row 0); [lia|]. rewrite Hitem. cbn [mbind option_bind].
  split_and!; done.
Qed.

Lemma X20_data_answers_every_row_witness :
  exists item,
    row_record table_after_detail 0 = Some item
    /\ is_Some (table_data table_after_detail (Some (0, 1)%Z) table_DisplayRole)
    /\ table_data table_after_detail (Some (0, 1)%Z) UserRole
       = Some (Some (uint32_variant (id item)))
    /\ table_data table_after_detail (Some (0, 1)%Z) ToolTipRole
       = Some (Some (uint32_variant (id item))).
Proof.
  apply (X20_data_answers_every_row
           [table_processSolutionIDs [3; 1] quiet_NaN;
            table_sort 1 AscendingOrder;
            table_detail 1 (S754_finite false 3 0) "approach"]
           0%Z 1%Z table_DisplayRole).
  vm_compute. split; [discriminate|reflexivity].
Defined.

(** X21. In a table built by [processSolutionIDs], [sort] and [setData]
    calls, the id a row reports leads back to that row and to its record:
    [detail::findById] over the view finds the row, and over the stored
    records it finds the record the row displays. *)
Theorem X21_row_id_round_trip :
  forall (ops : list TableOperation) (r : nat) (item : Data),
    let t := apply_table_operations new_RemoteSolutionModel ops in
    row_record t r = Some item ->
    findById_sorted (data_ t) (sorted_ t) (id item) = Some r
    /\ record_of t (id item) = Some item.
Proof.
  intros ops r item t Hrow. unfold row_record in Hrow.
  apply bind_Some in Hrow as (pos & Hr & Hpos).
  pose proof (NoDup_table_operations ops) as Hnd.
  destruct (view_ok_table_operations ops) as [Hview _].
  split.
  - now apply (findById_sorted_row _ _ r pos).
  - unfold record_of. fold t in Hnd. rewrite (findById_position _ pos item Hnd Hpos).
    exact Hpos.
Qed.

Lemma X21_row_id_round_trip_witness :
  findById_sorted (data_ table_after_detail) (sorted_ table_after_detail) 3 = Some 0%nat
  /\ record_of table_after_detail 3 = Some (mkData 3 S754_nan EmptyString 2 1).
Proof.
  exact (X21_row_id_round_trip
           [table_processSolutionIDs [3; 1] quiet_NaN;
            table_sort 1 AscendingOrder;
            table_detail 1 (S754_finite false 3 0) "approach"]
           0%nat (mkData 3 S754_nan EmptyString 2 1) eq_refl).
Defined.

(** ** Details of a solution *)

Lemma table_setData_unfold (t : RemoteSolutionModel) (i : N) (c : spec_float)
    (nm : string) (pos : nat) (item : Data) :
  findById (data_ t) i = Some pos -> data_ t !! pos = Some item ->
  (table_setData t i c nm).1
  = set_data_ t (<[pos := mkData (id item)
                            (if cost_differs item c then c else cost item) nm
                            (creation_rank item) (cost_rank item)]> (data_ t)).
Proof.
  intros Hf Hpos. unfold table_setData, cost_differs. rewrite Hf. simpl.
  rewrite Hpos. simpl. do 2 f_equal.
  destruct (negb (SFeqb (cost item) c)); simpl;
    destruct (bool_decide_reflect (name item = nm)) as [<-|]; simpl;
    now destruct item.
Qed.

(** X22. [setData] on a stored id stores the name and the cost (a cost that
    compares equal as a float to the stored one is not stored again) and
    changes nothing else: id, creation rank and cost rank of the record,
    every other record, the view, the handles, the sort parameters and the
    cost ceiling stay. In particular the view is not rebuilt: a record that
    the new cost hides stays displayed, one that it reveals stays hidden. *)
Theorem X22_setData_stores_cost_and_name :
  forall (t : RemoteSolutionModel) (i : N) (c : spec_float) (nm : string)
         (item : Data),
    record_of t i = Some item ->
    let t' := (table_setData t i c nm).1 in
    record_of t' i
    = Some (mkData (id item) (if cost_differs item c then c else cost item) nm
              (creation_rank item) (cost_rank item))
    /\ (forall j, j <> i -> record_of t' j = record_of t j)
    /\ sorted_ t' = sorted_ t
    /\ persistent_ t' = persistent_ t
    /\ sort_column_ t' = sort_column_ t
    /\ sort_order_ t' = sort_order_ t
    /\ max_cost_ t' = max_cost_ t
    /\ table_signals t' = table_signals t.
Proof.
  intros t i c nm item Hrec t'. unfold record_of in Hrec.
  apply bind_Some in Hrec as (pos & Hf & Hpos).
  assert (Ht' : t' = set_data_ t (<[pos := mkData (id item)
                            (if cost_differs item c then c else cost item) nm
                            (creation_rank item) (cost_rank item)]> (data_ t)))
    by (now apply table_setData_unfold).
  rewrite Ht'. split_and!; try done.
  - unfold record_of. simpl.
    rewrite (findById_ids _ (data_ t)) by (now apply (ids_insert_same _ _ item)).
    rewrite Hf. simpl.
    now rewrite list_lookup_insert_eq by (now apply lookup_lt_Some in Hpos).
  - intros j Hj. unfold record_of. simpl.
    rewrite (findById_ids _ (data_ t)) by (now apply (ids_insert_same _ _ item)).
    destruct (findById (data_ t) j) as [pos'|] eqn:Hf'; simpl; [|done].
    destruct (findById_Some _ _ _ Hf') as (item' & Hpos' & Hid').
    destruct (findById_Some _ _ _ Hf) as (item0 & Hpos0 & Hid0).
    rewrite list_lookup_insert_ne; [done|]. intros ->. congruence.
Qed.

Lemma X22_setData_stores_cost_and_name_witness :
  record_of (table_setData by_cost_table 1 (S754_finite false 3 0) "approach").1 1
  = Some (mkData 1 (S754_finite false 3 0) "approach" 1 2)
  /\ sorted_ (table_setData by_cost_table 1 (S754_finite false 3 0) "approach").1
     = sorted_ by_cost_table.
Proof.
  destruct (X22_setData_stores_cost_and_name by_cost_table 1
              (S754_finite false 3 0) "approach"
              (mkData 1 S754_nan EmptyString 1 2) eq_refl)
    as (H1 & _ & H2 & _).
  split; [exact H1|exact H2].
Defined.

Lemma findById_sorted_lt (data : list Data) (l : list nat) (i : N) (r : nat) :
  findById_sorted data l i = Some r -> (r < length l)%nat.
Proof.
  intros (p & item & Hr & _)%findById_sorted_Some. now apply lookup_lt_Some in Hr.
Qed.

(** X23. The signal of [setData]: nothing is emitted for an id that is not
    stored, for a record that no row displays (its cost and name are stored
    silently), and for a record whose cost and name do not change; otherwise
    one [dataChanged] is emitted for the row that displays the record, from
    the first changed column to the last one (column 1 is the cost, column 2
    the name). *)
Theorem X23_setData_signal :
  forall (t : RemoteSolutionModel) (i : N) (c : spec_float) (nm : string),
    (table_setData t i c nm).2
    = match record_of t i, findById_sorted (data_ t) (sorted_ t) i with
      | Some item, Some r =>
          let row := Z.of_nat r in
          match cost_differs item c, name_differs item nm with
          | false, false => None
          | true, false => Some (table_dataChanged (row, 1%Z) (Some (row, 1%Z)))
          | false, true => Some (table_dataChanged (row, 2%Z) (Some (row, 2%Z)))
          | true, true => Some (table_dataChanged (row, 1%Z) (Some (row, 2%Z)))
          end
      | _, _ => None
      end.
Proof.
  intros t i c nm. unfold table_setData, record_of, cost_differs, name_differs.
  destruct (findById (data_ t) i) as [pos|]; simpl; [|done].
  destruct (data_ t !! pos) as [item|]; simpl; [|done].
  destruct (findById_sorted (data_ t) (sorted_ t) i) as [r|] eqn:Hf.
  - apply findById_sorted_lt in Hf. unfold table_rowCount.
    destruct (Z.leb_spec (Z.of_nat (length (sorted_ t))) (Z.of_nat r)); [lia|].
    rewrite !table_index_in_range by lia.
    now destruct (negb (SFeqb (cost item) c)),
      (negb (bool_decide (name item = nm))).
  - unfold table_rowCount. rewrite Z.leb_refl.
    assert (Hnone : forall col, table_index (length (sorted_ t)) (-1) col = None)
      by (intros col; unfold table_index; now destruct (length (sorted_ t))).
    rewrite !Hnone.
    now destruct (negb (SFeqb (cost item) c)),
      (negb (bool_decide (name item = nm))).
Qed.

(** ** Solutions in full *)

Lemma details_only_refl (t : RemoteSolutionModel) : details_only t t.
Proof. repeat split. Qed.

Lemma details_only_trans (t1 t2 t3 : RemoteSolutionModel) :
  details_only t1 t2 -> details_only t2 t3 -> details_only t1 t3.
Proof.
  intros (A1 & A2 & A3 & A4 & A5 & A6 & A7) (B1 & B2 & B3 & B4 & B5 & B6 & B7).
  repeat split; congruence.
Qed.

Lemma table_setData_details_only (t : RemoteSolutionModel) (i : N) (c : spec_float)
    (nm : string) :
  details_only t (table_setData t i c nm).1.
Proof.
  destruct (findById (data_ t) i) as [pos|] eqn:Hf.
  - destruct (findById_Some _ _ _ Hf) as (item & Hpos & Hid).
    rewrite (table_setData_unfold t i c nm pos item Hf Hpos).
    split_and!; try done. simpl. rewrite list_fmap_insert. simpl.
    apply list_insert_id. now rewrite list_lookup_fmap, Hpos.
  - unfold table_setData. rewrite Hf. apply details_only_refl.
Qed.

Lemma only_details_refl (m : RemoteTaskModel) : only_details m m.
Proof.
  split; [apply same_tree_refl|]. intros n nd H. exists nd.
  split; [done|apply details_only_refl].
Qed.

Lemma only_details_trans (a b c : RemoteTaskModel) :
  only_details a b -> only_details b c -> only_details a c.
Proof.
  intros [S1 D1] [S2 D2]. split; [now apply (same_tree_trans a b c)|].
  intros n nd H. destruct (D1 n nd H) as (nd1 & H1 & Hd1).
  destruct (D2 n nd1 H1) as (nd2 & H2 & Hd2). exists nd2.
  split; [done|]. now apply (details_only_trans _ (solutions_ nd1)).
Qed.

Lemma only_details_update (m : RemoteTaskModel) (n : nat) (nd : Node)
    (t : RemoteSolutionModel) :
  heap m !! n = Some nd -> details_only (solutions_ nd) t ->
  only_details m (update_node n (set_solutions t) m).
Proof.
  intros Hn Hd. split; [apply same_tree_set_solutions|].
  intros k kd Hk. simpl. destruct (decide (k = n)) as [->|Hne].
  - rewrite list_lookup_alter_eq, Hk. simpl. eexists. split; [done|].
    simpl. congruence.
  - rewrite list_lookup_alter_ne by done. exists kd.
    split; [done|apply details_only_refl].
Qed.

Lemma solutions_setData_spec (stage i : N) (c : spec_float) (nm : string)
    (d : SolutionStore) :
  id_to_solution_ (state_of (solutions_setData stage i c nm d)) = id_to_solution_ d
  /\ only_details (model_ d) (model_ (state_of (solutions_setData stage i c nm d)))
  /\ (wf (model_ d) -> completed (solutions_setData stage i c nm d) = true).
Proof.
  unfold solutions_setData, node_by_id.
  destruct (id_to_stage_ (model_ d) !! stage) as [n|] eqn:Hn.
  - destruct (heap (model_ d) !! n) as [nd|] eqn:Hnd; simpl.
    + split_and!; try done.
      apply (only_details_update _ _ nd); [done|apply table_setData_details_only].
    + split_and!; [done|apply only_details_refl|].
      intros (W1 & _). destruct (W1 stage n Hn) as [x Hx]. congruence.
  - split_and!; [done|apply only_details_refl|done].
Qed.

Lemma wf_only_details (m m' : RemoteTaskModel) : only_details m m' -> wf m -> wf m'.
Proof. intros [Hs _]. now apply wf_same_tree. Qed.

Lemma store_sub_solutions_spec (subs : list SubSolution.t) (d : SolutionStore) :
  id_to_solution_ (state_of (for_each store_sub_solution subs d)) = id_to_solution_ d
  /\ only_details (model_ d) (model_ (state_of (for_each store_sub_solution subs d)))
  /\ (wf (model_ d) -> completed (for_each store_sub_solution subs d) = true).
Proof.
  revert d. induction subs as [|sub subs IH]; intros d; cbn [for_each].
  - split_and!; [done|apply only_details_refl|done].
  - unfold store_sub_solution at 1 3 5.
    destruct (solutions_setData_spec (SubSolution.stage_id sub) (SubSolution.id sub)
                (SubSolution.cost sub) EmptyString d) as (Hc & Hd & Hw).
    destruct (solutions_setData _ _ _ _ d) as [[] d1|d1]; cbn [bind state_of] in *.
    + destruct (IH d1) as (Hc1 & Hd1 & Hw1). split_and!.
      * congruence.
      * now apply (only_details_trans _ (model_ d1)).
      * intros Hwf. apply Hw1. now apply (wf_only_details (model_ d)).
    + split_and!; done.
Qed.

(** What the loop over the sub-trajectories does to the cache. *)
Lemma store_sub_trajectories_spec (s : DisplaySolution) (k : N)
    (ts : list SubTrajectory.t) (d : SolutionStore) :
  (forall i,
     match id_to_solution_ d !! i with
     | Some x =>
         id_to_solution_ (state_of (for_each (store_sub_trajectory s k) ts d)) !! i
         = Some x
     | None =>
         id_to_solution_ (state_of (for_each (store_sub_trajectory s k) ts d)) !! i
         = None
         \/ (id_to_solution_ (state_of (for_each (store_sub_trajectory s k) ts d)) !! i
             = Some (sub_display s k)
             /\ i <> 0 /\ exists t, t ∈ ts /\ SubTrajectory.id t = i)
     end)
  /\ only_details (model_ d)
       (model_ (state_of (for_each (store_sub_trajectory s k) ts d)))
  /\ (wf (model_ d) ->
      completed (for_each (store_sub_trajectory s k) ts d) = true
      /\ forall t, t ∈ ts -> SubTrajectory.id t <> 0 ->
           is_Some (id_to_solution_
                      (state_of (for_each (store_sub_trajectory s k) ts d))
                    !! SubTrajectory.id t)).
Proof.
  revert d. induction ts as [|t ts IH]; intros d; cbn [for_each].
  - split_and!.
    + intros i. destruct (id_to_solution_ d !! i) eqn:Hi; simpl; rewrite Hi; auto.
    + apply only_details_refl.
    + intros _. split; [done|]. intros t Ht. now apply elem_of_nil in Ht.
  - assert (Hstep :
      exists d1, store_sub_trajectory s k t d = Ok tt d1 \/
                 (store_sub_trajectory s k t d = Abort d1 /\ ~ wf (model_ d))).
    { unfold store_sub_trajectory.
      destruct (SubTrajectory.id t =? 0); [eauto|].
      destruct (id_to_solution_ d !! SubTrajectory.id t); [eauto|].
      destruct (solutions_setData_spec (SubTrajectory.stage_id t)
                  (SubTrajectory.id t) (SubTrajectory.cost t) (SubTrajectory.name t)
                  (cache_solution (SubTrajectory.id t) (sub_display s k) d))
        as (_ & _ & Hw).
      destruct (solutions_setData _ _ _ _ _) as [[] d1|d1]; [eauto|].
      exists d1. right. split; [done|]. intros Hwf. now specialize (Hw Hwf). }
    assert (Hone :
      (forall i,
         match id_to_solution_ d !! i with
         | Some x =>
             id_to_solution_ (state_of (store_sub_trajectory s k t d)) !! i = Some x
         | None =>
             id_to_solution_ (state_of (store_sub_trajectory s k t d)) !! i = None
             \/ (id_to_solution_ (state_of (store_sub_trajectory s k t d)) !! i
                 = Some (sub_display s k)
                 /\ i <> 0 /\ SubTrajectory.id t = i)
         end)
      /\ only_details (model_ d) (model_ (state_of (store_sub_trajectory s k t d)))
      /\ (SubTrajectory.id t <> 0 ->
          completed (store_sub_trajectory s k t d) = true ->
          is_Some (id_to_solution_ (state_of (store_sub_trajectory s k t d))
                   !! SubTrajectory.id t))).
    { unfold store_sub_trajectory.
      destruct (N.eqb_spec (SubTrajectory.id t) 0) as [H0|H0].
      - split_and!; [|apply only_details_refl|done].
        intros i. destruct (id_to_solution_ d !! i) eqn:Hi; simpl; rewrite Hi; auto.
      - destruct (id_to_solution_ d !! SubTrajectory.id t) as [y|] eqn:Hy.
        + split_and!; [|apply only_details_refl|].
          * intros i. destruct (id_to_solution_ d !! i) eqn:Hi; simpl; rewrite Hi; auto.
          * intros _ _. simpl. rewrite Hy. eauto.
        + destruct (solutions_setData_spec (SubTrajectory.stage_id t)
                      (SubTrajectory.id t) (SubTrajectory.cost t)
                      (SubTrajectory.name t)
                      (cache_solution (SubTrajectory.id t) (sub_display s k) d))
            as (Hc & Hd & _).
          rewrite Hc. simpl. split_and!; [|exact Hd|].
          * intros i. destruct (decide (i = SubTrajectory.id t)) as [->|Hne].
            -- rewrite Hy, lookup_insert_eq. right. done.
            -- rewrite lookup_insert_ne by done.
               destruct (id_to_solution_ d !! i); auto.
          * intros _ _. rewrite lookup_insert_eq. eauto. }
    destruct Hone as (Hcache & Hdet & Hin).
    destruct Hstep as (d1 & [Hok|[Hab Hnwf]]).
    + rewrite Hok in *. cbn [bind state_of completed] in *.
      destruct (IH d1) as (Hcache1 & Hdet1 & Hw1). split_and!.
      * intros i. specialize (Hcache i). specialize (Hcache1 i).
        destruct (id_to_solution_ d !! i) as [x|].
        -- now rewrite Hcache in Hcache1.
        -- destruct Hcache as [Hnone|(Hsome & Hi0 & Hid)].
           ++ rewrite Hnone in Hcache1.
              destruct Hcache1 as [?|(? & ? & t' & Ht' & ?)]; [now left|].
              right. split_and!; try done. exists t'. split; [now right|done].
           ++ rewrite Hsome in Hcache1. right. split_and!; try done.
              exists t. split; [now left|done].
      * now apply (only_details_trans _ (model_ d1)).
      * intros Hwf. destruct (Hw1 (wf_only_details _ _ Hdet Hwf)) as [Hdone Hall].
        split; [done|]. intros t' [->|Ht']%elem_of_cons Hne; [|now apply Hall].
        destruct (Hin Hne eq_refl) as [x Hx]. specialize (Hcache1 (SubTrajectory.id t)).
        rewrite Hx in Hcache1. rewrite Hcache1. eauto.
    + rewrite Hab in *. cbn [bind state_of completed] in *. split_and!.
      * intros i. specialize (Hcache i).
        destruct (id_to_solution_ d !! i) as [x|]; [done|].
        destruct Hcache as [?|(? & ? & ?)]; [now left|].
        right. split_and!; try done. exists t. split; [now left|done].
      * done.
      * intros Hwf. done.
Qed.

Lemma processSolutionMessage_details (d : SolutionStore) (msg : Solution.t) :
  wf (model_ d) ->
  exists d',
    processSolutionMessage d msg = Ok (setFromMessage msg) d'
    /\ only_details (model_ d) (model_ d')
    /\ (top_level msg = None -> d' = d)
    /\ (is_Some (top_level msg) ->
        forall t, t ∈ Solution.sub_trajectory msg -> SubTrajectory.id t <> 0 ->
          is_Some (id_to_solution_ d' !! SubTrajectory.id t)).
Proof.
  intros Hwf. unfold processSolutionMessage.
  destruct (top_level msg) as [front|].
  2:{ exists d. split_and!; [done|apply only_details_refl|done|].
      now intros [? ?]. }
  set (d0 := cache_solution (SubSolution.id front) (setFromMessage msg) d).
  destruct (store_sub_solutions_spec (Solution.sub_solution msg) d0)
    as (_ & Hd1 & Hw1).
  specialize (Hw1 Hwf).
  destruct (for_each store_sub_solution _ d0) as [[] d1|d1]; [|done].
  cbn [bind state_of] in *.
  destruct (store_sub_trajectories_spec (setFromMessage msg) 0
              (Solution.sub_trajectory msg) d1) as (_ & Hd2 & Hw2).
  destruct (Hw2 (wf_only_details _ _ Hd1 Hwf)) as [Hdone Hall].
  destruct (for_each (store_sub_trajectory _ _) _ d1) as [[] d2|d2]; [|done].
  cbn [bind state_of] in *. exists d2. split_and!; [done| |done|].
  - now apply (only_details_trans _ (model_ d1)).
  - intros _. exact Hall.
Qed.

(** X24. On a well-formed model [processSolutionMessage] always returns, and
    what it returns is the object built from the message. It changes
    nothing but costs and names in the tables: the tree, the registered ids,
    the flags and the signals of the tree, and the ids, ranks, views, handles
    and sort parameters of every table are what they were. A message that is
    not a top-level solution (no sub-solution, a first sub-solution of a
    stage other than 1, or with the id 0) changes nothing at all; after a
    top-level solution every sub-trajectory with an id other than 0 is
    cached. *)
Theorem X24_solution_message_changes_details_only :
  forall (d : SolutionStore) (msg : Solution.t),
    wf (model_ d) ->
    exists d',
      processSolutionMessage d msg = Ok (setFromMessage msg) d'
      /\ only_details (model_ d) (model_ d')
      /\ (top_level msg = None -> d' = d)
      /\ (is_Some (top_level msg) ->
          forall t, t ∈ Solution.sub_trajectory msg -> SubTrajectory.id t <> 0 ->
            is_Some (id_to_solution_ d' !! SubTrajectory.id t)).
Proof. exact processSolutionMessage_details. Qed.

Lemma X24_solution_message_changes_details_only_witness :
  exists d',
    processSolutionMessage store_1_3 solution_3 = Ok (setFromMessage solution_3) d'
    /\ only_details (model_ store_1_3) (model_ d')
    /\ (top_level solution_3 = None -> d' = store_1_3)
    /\ (is_Some (top_level solution_3) ->
        forall t, t ∈ Solution.sub_trajectory solution_3 -> SubTrajectory.id t <> 0 ->
          is_Some (id_to_solution_ d' !! SubTrajectory.id t)).
Proof.
  apply (X24_solution_message_changes_details_only store_1_3 solution_3).
  apply wf_processStageStatistics, wf_processStageDescriptions, wf_new.
Defined.

Lemma processSolutionMessage_cache (d : SolutionStore) (msg : Solution.t) (i : N) :
  match top_level msg with
  | None => state_of (processSolutionMessage d msg) = d
  | Some front =>
      if decide (i = SubSolution.id front)
      then id_to_solution_ (state_of (processSolutionMessage d msg)) !! i
           = Some (setFromMessage msg)
      else
        match id_to_solution_ d !! i with
        | Some x => id_to_solution_ (state_of (processSolutionMessage d msg)) !! i
                    = Some x
        | None =>
            id_to_solution_ (state_of (processSolutionMessage d msg)) !! i = None
            \/ (id_to_solution_ (state_of (processSolutionMessage d msg)) !! i
                = Some (sub_display (setFromMessage msg) 0)
                /\ i <> 0
                /\ exists t, t ∈ Solution.sub_trajectory msg /\ SubTrajectory.id t = i)
        end
  end.
Proof.
  unfold processSolutionMessage.
  destruct (top_level msg) as [front|] eqn:Htop; [|done].
  set (d0 := cache_solution (SubSolution.id front) (setFromMessage msg) d).
  destruct (store_sub_solutions_spec (Solution.sub_solution msg) d0)
    as (Hc1 & _ & _).
  assert (Hloop2 : forall d1,
    id_to_solution_ d1 = id_to_solution_ d0 ->
    if decide (i = SubSolution.id front)
    then id_to_solution_
           (state_of (for_each (store_sub_trajectory (setFromMessage msg) 0)
                        (Solution.sub_trajectory msg) d1)) !! i
         = Some (setFromMessage msg)
    else
      match id_to_solution_ d !! i with
      | Some x =>
          id_to_solution_
            (state_of (for_each (store_sub_trajectory (setFromMessage msg) 0)
                         (Solution.sub_trajectory msg) d1)) !! i = Some x
      | None =>
          id_to_solution_
            (state_of (for_each (store_sub_trajectory (setFromMessage msg) 0)
                         (Solution.sub_trajectory msg) d1)) !! i = None
          \/ (id_to_solution_
                (state_of (for_each (store_sub_trajectory (setFromMessage msg) 0)
                             (Solution.sub_trajectory msg) d1)) !! i
              = Some (sub_display (setFromMessage msg) 0)
              /\ i <> 0
              /\ exists t, t ∈ Solution.sub_trajectory msg /\ SubTrajectory.id t = i)
      end).
  { intros d1 Hd1.
    destruct (store_sub_trajectories_spec (setFromMessage msg) 0
                (Solution.sub_trajectory msg) d1) as (Hc2 & _ & _).
    specialize (Hc2 i). rewrite Hd1 in Hc2. simpl in Hc2.
    destruct (decide (i = SubSolution.id front)) as [->|Hne].
    - now rewrite lookup_insert_eq in Hc2.
    - rewrite lookup_insert_ne in Hc2 by done. exact Hc2. }
  destruct (for_each store_sub_solution _ d0) as [[] d1|d1];
    cbn [bind state_of] in *.
  - specialize (Hloop2 d1 Hc1).
    destruct (for_each (store_sub_trajectory _ _) _ d1) as [[] d2|d2];
      cbn [bind state_of] in *; exact Hloop2.
  - rewrite Hc1. simpl.
    destruct (decide (i = SubSolution.id front)) as [->|Hne].
    + now rewrite lookup_insert_eq.
    + rewrite lookup_insert_ne by done.
      destruct (id_to_solution_ d !! i); auto.
Qed.

(** X25. The cache of solutions under [processSolutionMessage], whether the
    call returns or not. A message that is not a top-level solution leaves
    everything as it is. For a top-level solution the entry of its id is the
    object built from the message afterwards, replacing an older one; no
    other entry is removed or replaced; and every entry that is added is the
    part 0 of that object (the part index is never advanced), for the id,
    other than 0, of one of the sub-trajectories of the message. *)
Theorem X25_solution_cache_discipline :
  forall (d : SolutionStore) (msg : Solution.t) (i : N),
    match top_level msg with
    | None => state_of (processSolutionMessage d msg) = d
    | Some front =>
        if decide (i = SubSolution.id front)
        then id_to_solution_ (state_of (processSolutionMessage d msg)) !! i
             = Some (setFromMessage msg)
        else
          match id_to_solution_ d !! i with
          | Some x => id_to_solution_ (state_of (processSolutionMessage d msg)) !! i
                      = Some x
          | None =>
              id_to_solution_ (state_of (processSolutionMessage d msg)) !! i = None
              \/ (id_to_solution_ (state_of (processSolutionMessage d msg)) !! i
                  = Some (sub_display (setFromMessage msg) 0)
                  /\ i <> 0
                  /\ exists t, t ∈ Solution.sub_trajectory msg
                               /\ SubTrajectory.id t = i)
          end
    end.
Proof. exact processSolutionMessage_cache. Qed.

Lemma getSolution_of_row (d : SolutionStore)
    (client : option (N -> option Solution.t)) (n : nat) (r c : Z) (nd : Node)
    (item : Data) :
  heap (model_ d) !! n = Some nd -> (0 <= r)%Z ->
  row_record (solutions_ nd) (Z.to_nat r) = Some item ->
  getSolution d client (Some (n, (r, c)))
  = match id_to_solution_ d !! id item with
    | Some s => Ok (Some s) d
    | None =>
        match client with
        | None => Ok None d
        | Some call =>
            match call (id item) with
            | None => Ok None d
            | Some response =>
                bind (processSolutionMessage d response) (fun s d' => Ok (Some s) d')
            end
        end
    end.
Proof.
  intros Hn Hr Hrow. unfold getSolution. rewrite Hn.
  assert (Hlt : (r < Z.of_nat (length (sorted_ (solutions_ nd))))%Z).
  { unfold row_record in Hrow. apply bind_Some in Hrow as (pos & Hpos & _).
    apply lookup_lt_Some in Hpos. lia. }
  rewrite table_index_in_range by lia.
  unfold table_data. cbn [mbind option_bind].
  destruct (Z.ltb_spec r 0); [lia|]. unfold row_record in Hrow. rewrite Hrow.
  done.
Qed.

(** X26. [getSolution] for a row of the table of a node, when the solution
    of the row is cached: it is returned and nothing changes, whatever the
    client is; the service is not called. When it is not cached and there is
    no client, or the call of the service fails, nothing is returned and
    nothing changes. An invalid index fails the assertion. *)
Theorem X26_getSolution_without_fetch :
  forall (d : SolutionStore) (n : nat) (r c : Z) (nd : Node) (item : Data),
    heap (model_ d) !! n = Some nd -> (0 <= r)%Z ->
    row_record (solutions_ nd) (Z.to_nat r) = Some item ->
    (forall s client, id_to_solution_ d !! id item = Some s ->
       getSolution d client (Some (n, (r, c))) = Ok (Some s) d)
    /\ (id_to_solution_ d !! id item = None ->
        getSolution d None (Some (n, (r, c))) = Ok None d
        /\ forall call, call (id item) = None ->
             getSolution d (Some call) (Some (n, (r, c))) = Ok None d)
    /\ (forall client, getSolution d client None = Abort d).
Proof.
  intros d n r c nd item Hn Hr Hrow. split_and!.
  - intros s client Hs. rewrite (getSolution_of_row d client n r c nd item) by done.
    now rewrite Hs.
  - intros Hs. split.
    + rewrite (getSolution_of_row d None n r c nd item) by done. now rewrite Hs.
    + intros call Hcall.
      rewrite (getSolution_of_row d (Some call) n r c nd item) by done.
      now rewrite Hs, Hcall.
  - done.
Qed.

Lemma X26_getSolution_without_fetch_witness :
  getSolution store_1_3 None (Some (1%nat, (0, 0)%Z)) = Ok None store_1_3
  /\ getSolution (cache_solution 1 (setFromMessage solution_3) store_1_3) (Some service_3)
       (Some (1%nat, (0, 2)%Z))
     = Ok (Some (setFromMessage solution_3))
         (cache_solution 1 (setFromMessage solution_3) store_1_3).
Proof.
  split.
  - destruct (X26_getSolution_without_fetch store_1_3 1 0 0 _
                (mkData 1 S754_nan EmptyString 1 2) eq_refl (Z.le_refl 0) eq_refl)
      as (_ & H & _).
    exact (proj1 (H eq_refl)).
  - destruct (X26_getSolution_without_fetch
                (cache_solution 1 (setFromMessage solution_3) store_1_3) 1 0 2 _
                (mkData 1 S754_nan EmptyString 1 2) eq_refl (Z.le_refl 0) eq_refl)
      as (H & _).
    exact (H _ (Some service_3) eq_refl).
Defined.

Lemma details_only_row (t t' : RemoteSolutionModel) (r : nat) (item : Data) :
  details_only t t' -> row_record t r = Some item ->
  exists item', row_record t' r = Some item' /\ id item' = id item.
Proof.
  intros (Hd & Hs & _) Hrow. unfold row_record in *. rewrite Hs.
  apply bind_Some in Hrow as (pos & Hpos & Hitem). rewrite Hpos. simpl.
  assert (H : (fun x => (id x, creation_rank x, cost_rank x)) <$> data_ t' !! pos
              = (fun x => (id x, creation_rank x, cost_rank x)) <$> data_ t !! pos)
    by (now rewrite <- !list_lookup_fmap, Hd).
  rewrite Hitem in H. destruct (data_ t' !! pos) as [item'|]; [|done].
  exists item'. split; [done|]. simpl in H. congruence.
Qed.

(** X27. Fetching a solution: when the solution of a row is not cached and
    the service answers with a top-level solution of that id, [getSolution]
    on a well-formed model returns the object built from the answer and
    caches it; the row keeps its id, and every later [getSolution] for it
    returns the same object without the service. *)
Theorem X27_fetched_solution_is_cached :
  forall (d : SolutionStore) (call : N -> option Solution.t) (n : nat) (r c : Z)
         (nd : Node) (item : Data) (response : Solution.t) (front : SubSolution.t),
    wf (model_ d) ->
    heap (model_ d) !! n = Some nd -> (0 <= r)%Z ->
    row_record (solutions_ nd) (Z.to_nat r) = Some item ->
    id_to_solution_ d !! id item = None ->
    call (id item) = Some response ->
    top_level response = Some front ->
    SubSolution.id front = id item ->
    exists d',
      getSolution d (Some call) (Some (n, (r, c)))
      = Ok (Some (setFromMessage response)) d'
      /\ id_to_solution_ d' !! id item = Some (setFromMessage response)
      /\ forall client,
           getSolution d' client (Some (n, (r, c)))
           = Ok (Some (setFromMessage response)) d'.
Proof.
  intros d call n r c nd item response front Hwf Hn Hr Hrow Hmiss Hcall Htop Hid.
  rewrite (getSolution_of_row d (Some call) n r c nd item) by done.
  rewrite Hmiss, Hcall.
  pose proof (processSolutionMessage_cache d response (id item)) as Hcache.
  rewrite Htop, Hid in Hcache. rewrite decide_True in Hcache by done.
  destruct (processSolutionMessage_details d response Hwf)
    as (d' & Hok & [_ Hdet] & _).
  rewrite Hok in *. cbn [bind state_of] in *. exists d'.
  split_and!; [done|done|].
  intros client. destruct (Hdet n nd Hn) as (nd' & Hn' & Hd').
  destruct (details_only_row _ _ _ _ Hd' Hrow) as (item' & Hrow' & Hid').
  rewrite (getSolution_of_row d' client n r c nd' item') by done.
  now rewrite Hid', Hcache.
Qed.

Lemma X27_fetched_solution_is_cached_witness :
  exists d',
    getSolution store_1_3 (Some service_3) (Some (1%nat, (1, 0)%Z))
    = Ok (Some (setFromMessage solution_3)) d'
    /\ id_to_solution_ d' !! 3 = Some (setFromMessage solution_3)
    /\ forall client,
         getSolution d' client (Some (1%nat, (1, 0)%Z))
         = Ok (Some (setFromMessage solution_3)) d'.
Proof.
  refine (X27_fetched_solution_is_cached store_1_3 service_3 1 1 0 _
            (mkData 3 S754_nan EmptyString 2 1) solution_3
            (SubSolution.mk 3 1 (S754_finite false 3 0)) _ eq_refl _ eq_refl
            eq_refl eq_refl eq_refl eq_refl).
  - apply wf_processStageStatistics, wf_processStageDescriptions, wf_new.
  - lia.
Defined.

(** X28. The two ways to the table of a stage agree: in a consistent tree
    the node registered for a stage id has an index, and
    [getSolutionModel(index)] yields the table of the node that
    [getSolutionModel(stage_id)] yields; for an id that is not registered and
    for an index of another model both yield no table. *)
Theorem X28_solution_model_by_index_and_by_id :
  forall (m : RemoteTaskModel) (i : N) (n : nat),
    consistent m ->
    id_to_stage_ m !! i = Some n ->
    getSolutionModel_by_id m i = Some n
    /\ (exists idx, index_of m n = Some idx
                    /\ getSolutionModel m idx = Some (getSolutionModel_by_id m i))
    /\ (forall j, id_to_stage_ m !! j = None -> getSolutionModel_by_id m j = None)
    /\ (forall r c p, getSolutionModel m (Index r c p false) = Some None).
Proof.
  intros m i n [(W1 & _) Hok] Hi. unfold getSolutionModel_by_id, node_by_id.
  split_and!; try done.
  destruct (index_of_allocated m n Hok (W1 i n Hi)) as [idx Hidx].
  exists idx. split; [done|]. rewrite Hi. now apply index_of_node.
Qed.

Lemma X28_solution_model_by_index_and_by_id_witness :
  getSolutionModel_by_id small_tree 3 = Some 3%nat
  /\ (exists idx, index_of small_tree 3 = Some idx
                  /\ getSolutionModel small_tree idx
                     = Some (getSolutionModel_by_id small_tree 3))
  /\ (forall j, id_to_stage_ small_tree !! j = None ->
        getSolutionModel_by_id small_tree j = None)
  /\ (forall r c p, getSolutionModel small_tree (Index r c p false) = Some None).
Proof.
  apply (X28_solution_model_by_index_and_by_id small_tree 3 3).
  - apply small_tree_consistent.
  - reflexivity.
Defined.

(** ** The model as a whole *)

Lemma table_ok_new : table_ok new_RemoteSolutionModel.
Proof. split; [constructor|split; constructor]. Qed.

Lemma table_ok_processSolutionIDs (t : RemoteSolutionModel) (ids : list N)
    (c : spec_float) :
  table_ok t -> table_ok (state_of (processSolutionIDs t ids c)).
Proof.
  intros [Ha Hv]. split.
  - now apply processSolutionIDs_ascending.
  - exact (view_ok_table_operation t (table_processSolutionIDs ids c) Hv).
Qed.

Lemma table_ok_details_only (t t' : RemoteSolutionModel) :
  details_only t t' -> table_ok t -> table_ok t'.
Proof.
  intros (Hd & Hs & _) [Ha Hv].
  assert (Hids : id <$> data_ t' = id <$> data_ t).
  { apply (f_equal (fmap (fun x : N * N * N => x.1.1))) in Hd.
    rewrite <- !list_fmap_compose in Hd. exact Hd. }
  split.
  - unfold ascending_ids. now rewrite Hids.
  - apply (view_ok_grow t); [done| |done].
    rewrite <- (length_fmap id (data_ t)), <- Hids. now rewrite length_fmap.
Qed.

Lemma tables_ok_new : tables_ok new_RemoteTaskModel.
Proof.
  intros [|n] nd; simpl; [|now rewrite lookup_nil].
  intros [= <-]. apply table_ok_new.
Qed.

Lemma tables_ok_update_node (m : RemoteTaskModel) (n : nat) (f : Node -> Node) :
  (forall nd, heap m !! n = Some nd -> table_ok (solutions_ nd) ->
     table_ok (solutions_ (f nd))) ->
  tables_ok m -> tables_ok (update_node n f m).
Proof.
  intros Hf Hok k kd. simpl. destruct (decide (k = n)) as [->|Hne].
  - rewrite list_lookup_alter_eq. destruct (heap m !! n) as [nd|] eqn:Hn; [|done].
    intros [= <-]. apply Hf; [done|]. now apply (Hok n).
  - rewrite list_lookup_alter_ne by done. apply Hok.
Qed.

Lemma tables_ok_insert_node (m : RemoteTaskModel) (n : nat) (nd nd' : Node) :
  heap m !! n = Some nd -> solutions_ nd' = solutions_ nd ->
  tables_ok m -> tables_ok (set_heap (<[n := nd']> (heap m)) m).
Proof.
  intros Hn Hs Hok k kd. simpl. destruct (decide (k = n)) as [->|Hne].
  - rewrite list_lookup_insert_eq by (now apply lookup_lt_Some in Hn).
    intros [= <-]. rewrite Hs. now apply (Hok n).
  - rewrite list_lookup_insert_ne by done. apply Hok.
Qed.

Lemma tables_ok_heap (m m' : RemoteTaskModel) :
  heap m' = heap m -> tables_ok m -> tables_ok m'.
Proof. intros Hh Hok k kd. rewrite Hh. apply Hok. Qed.

Lemma tables_ok_create_node (parent : nat) (i : N) (m m' : RemoteTaskModel) (n : nat) :
  create_node parent i m = Ok n m' -> tables_ok m -> tables_ok m'.
Proof.
  intros (pnode & pidx & _ & _ & -> & Hh & _)%create_node_Ok Hok k kd. rewrite Hh.
  intros [Hk|[_ Hk]]%lookup_app_Some.
  - destruct (decide (k = parent)) as [->|Hne].
    + rewrite list_lookup_alter_eq in Hk.
      destruct (heap m !! parent) as [pn|] eqn:Hp; [|done].
      injection Hk as <-. exact (Hok parent pn Hp).
    + rewrite list_lookup_alter_ne in Hk by done. exact (Hok k kd Hk).
  - apply list_lookup_singleton_Some in Hk as [_ <-]. apply table_ok_new.
Qed.

Lemma tables_ok_set_content (s : StageDescription.t) (parent n : nat)
    (m : RemoteTaskModel) :
  tables_ok m -> tables_ok (state_of (set_content s parent n m)).
Proof.
  intros Hok.
  destruct (set_content_inv s parent n m _ eq_refl) as [->|(nd & Hn & _ & H)];
    [done|].
  destruct (update_content_fields s nd) as (_ & _ & _ & Hs & _).
  assert (Hw := tables_ok_insert_node m n nd (update_content s nd).1 Hn Hs Hok).
  destruct H as [[_ ->]|[(_ & _ & ->)|(_ & idx & _ & ->)]]; exact Hw.
Qed.

Lemma tables_ok_process_description (s : StageDescription.t) (m : RemoteTaskModel) :
  tables_ok m -> tables_ok (state_of (process_description s m)).
Proof.
  intros Hok. destruct (process_description_inv s m)
    as [[_ ->]|(parent & _ & [(n & _ & ->)|[(_ & _ & ->)|(Hi & n & m1 & Hc & ->)]])].
  - done.
  - now apply tables_ok_set_content.
  - done.
  - apply tables_ok_set_content. eapply tables_ok_create_node; eauto.
Qed.

Lemma tables_ok_index (m : RemoteTaskModel) (r c : Z) (parent : QModelIndex) :
  tables_ok m -> tables_ok (state_of (index m r c parent)).
Proof.
  intros Hok. destruct (index_inv m r c parent) as [[-> _]|(p & child & _ & _ & ->)];
    [done|]. now apply tables_ok_update_node.
Qed.

Lemma tables_ok_processStageDescriptions (m : RemoteTaskModel)
    (msg : list StageDescription.t) :
  tables_ok m -> tables_ok (state_of (processStageDescriptions m msg)).
Proof.
  intros Hok. destruct msg as [|s msg].
  - rewrite processStageDescriptions_empty. simpl.
    destruct (first_top_level m); [|done].
    apply tables_ok_update_node; [done|]. now apply tables_ok_update_node.
  - rewrite processStageDescriptions_cons.
    apply (for_each_preserves tables_ok); [apply tables_ok_process_description | done].
Qed.

Lemma tables_ok_on_solutions (n : nat) (ids : list N) (c : spec_float)
    (m : RemoteTaskModel) :
  tables_ok m ->
  tables_ok (state_of (on_solutions n (fun t => processSolutionIDs t ids c) m)).
Proof.
  intros Hok. unfold on_solutions. destruct (heap m !! n) as [nd|] eqn:Hn; [|done].
  pose proof (table_ok_processSolutionIDs (solutions_ nd) ids c (Hok n nd Hn)) as Ht.
  destruct (processSolutionIDs (solutions_ nd) ids c) as [b t|t]; simpl in *;
    apply tables_ok_update_node; try done; intros nd' _ _; exact Ht.
Qed.

Lemma tables_ok_processStageStatistics (m : RemoteTaskModel)
    (msg : list StageStatistics.t) :
  tables_ok m -> tables_ok (state_of (processStageStatistics m msg)).
Proof.
  apply (for_each_preserves tables_ok). intros s m' Hok. unfold process_statistics.
  destruct (id_to_stage_ m' !! StageStatistics.id s) as [n|]; [|done].
  assert (Hu : tables_ok (state_of (update_solutions s n m'))).
  { unfold update_solutions.
    pose proof (tables_ok_on_solutions n (StageStatistics.solved s) quiet_NaN m' Hok)
      as H1.
    destruct (on_solutions n _ m') as [[] m1|m1]; simpl in *; try exact H1.
    now apply tables_ok_on_solutions. }
  destruct (update_solutions s n m') as [changed m2|m2]; simpl in *; [|done].
  destruct (changed && was_visited m2 n); [|done].
  now destruct (index_of m2 n).
Qed.

Lemma tables_ok_setData (m : RemoteTaskModel) (i : QModelIndex) (value : string)
    (role : ItemDataRole) :
  tables_ok m -> tables_ok (state_of (setData m i value role)).
Proof.
  intros Hok. unfold setData. destruct (node m i) as [[n|]|]; try done.
  destruct (negb (column i =? 0)%Z || negb (bool_decide (role = EditRole)));
    [done|].
  simpl. apply tables_ok_update_node; [done|].
  apply tables_ok_update_node; [|done].
  intros nd _ H. now destruct (setName_fields nd value) as (_ & _ & _ & _ & _ & ->).
Qed.

Lemma tables_ok_operation (m : RemoteTaskModel) (o : Operation) :
  tables_ok m -> tables_ok (apply_operation m o).
Proof.
  intros H. destruct o as [msg|msg|r c parent|i value role]; simpl.
  - now apply tables_ok_processStageDescriptions.
  - now apply tables_ok_processStageStatistics.
  - now apply tables_ok_index.
  - now apply tables_ok_setData.
Qed.

Lemma tables_ok_only_details (m m' : RemoteTaskModel) :
  only_details m m' -> tables_ok m -> tables_ok m'.
Proof.
  intros [Hsame Hdet] Hok n nd' Hn'.
  pose proof (same_tree_lookup m m' Hsame n) as Hn. rewrite Hn' in Hn.
  destruct (heap m !! n) as [nd|] eqn:Hnd; [|done].
  destruct (Hdet n nd Hnd) as (nd2 & Hn2 & Hd).
  assert (nd2 = nd') as -> by congruence.
  apply (table_ok_details_only (solutions_ nd)); [done|]. now apply (Hok n).
Qed.

Lemma consistent_only_details (m m' : RemoteTaskModel) :
  only_details m m' -> consistent m -> consistent m'.
Proof.
  intros [Hsame _] [Hwf Hok].
  split; [now apply (wf_same_tree m)|now apply (tree_ok_same_tree m)].
Qed.

Lemma getSolution_state (d : SolutionStore)
    (client : option (N -> option Solution.t)) (index : option (nat * (Z * Z))) :
  state_of (getSolution d client index) = d
  \/ exists response,
       state_of (getSolution d client index)
       = state_of (processSolutionMessage d response).
Proof.
  unfold getSolution. destruct index as [[n [r c]]|]; [|now left].
  destruct (heap (model_ d) !! n) as [nd|]; [|now left].
  destruct (match table_index _ r 0 with Some _ => _ | None => _ end) as [v|];
    [|now left].
  destruct (id_to_solution_ d !! toUInt v); [now left|].
  destruct client as [call|]; [|now left].
  destruct (call (toUInt v)) as [response|]; [|now left].
  right. exists response. now destruct (processSolutionMessage d response).
Qed.

Lemma whole_store_operation (d : SolutionStore) (o : StoreOperation) :
  consistent (model_ d) /\ tables_ok (model_ d) ->
  consistent (model_ (apply_store_operation d o))
  /\ tables_ok (model_ (apply_store_operation d o)).
Proof.
  intros [Hc Ht].
  assert (Hmsg : forall msg,
    consistent (model_ (state_of (processSolutionMessage d msg)))
    /\ tables_ok (model_ (state_of (processSolutionMessage d msg)))).
  { intros msg.
    destruct (processSolutionMessage_details d msg (proj1 Hc)) as (d' & -> & Hd & _).
    split; [now apply (consistent_only_details (model_ d))
           |now apply (tables_ok_only_details (model_ d))]. }
  destruct o as [o|msg|client index]; simpl.
  - split; [now apply consistent_operation|now apply tables_ok_operation].
  - apply Hmsg.
  - destruct (getSolution_state d client index) as [->|(response & ->)];
      [done|apply Hmsg].
Qed.

(** X29. The model as a whole: starting from the constructed model with an
    empty cache, after every sequence of description batches, statistics
    batches, index requests, renamings, solution messages and requests for
    solutions (whether a call stops at an assertion or not) the tree is
    consistent and every table of every node has strictly ascending ids and
    a sound view: no position is displayed twice and every row refers to a
    stored record. *)
Theorem X29_model_and_tables_stay_sound :
  forall ops : list StoreOperation,
    let d := apply_store_operations (new_SolutionStore new_RemoteTaskModel) ops in
    consistent (model_ d)
    /\ forall n nd, heap (model_ d) !! n = Some nd ->
         ascending_ids (solutions_ nd)
         /\ NoDup (sorted_ (solutions_ nd))
         /\ Forall (fun pos => is_Some (data_ (solutions_ nd) !! pos))
              (sorted_ (solutions_ nd)).
Proof.
  intros ops d.
  assert (H : consistent (model_ d) /\ tables_ok (model_ d)).
  { subst d. unfold apply_store_operations.
    assert (H0 : consistent (model_ (new_SolutionStore new_RemoteTaskModel))
                 /\ tables_ok (model_ (new_SolutionStore new_RemoteTaskModel)))
      by (split; [apply consistent_new|apply tables_ok_new]).
    revert H0. generalize (new_SolutionStore new_RemoteTaskModel).
    induction ops as [|o ops IH]; intros d0 H0; simpl; [done|].
    apply IH. now apply whole_store_operation. }
  destruct H as [Hc Ht]. split; [done|]. intros n nd Hn.
  destruct (Ht n nd Hn) as [Ha [Hnd Hin]]. split_and!; try done.
  eapply Forall_impl; [exact Hin|]. simpl. intros pos Hpos.
  now apply lookup_lt_is_Some_2.
Qed.

(** * Notifications and the visited flag *)

Lemma update_content_node (s : StageDescription.t) (nd : Node) :
  (update_content s nd).1
  = mkNode (parent_ nd) (children_ nd)
      (if has_flag (node_flags_ nd) NAME_CHANGED then name_ nd
       else StageDescription.name s)
      (interface_flags_from (StageDescription.flags s))
      (node_flags_ nd) (solutions_ nd).
Proof.
  destruct (update_content_fields s nd) as (Hp & Hc & Hf & Hs & Hi & Hn).
  destruct (update_content s nd) as [[p c nm i f t] changed]. simpl in *.
  now subst.
Qed.

Lemma update_content_reports (s : StageDescription.t) (nd : Node) :
  (update_content s nd).2
  = negb (bool_decide
            ((has_flag (node_flags_ nd) NAME_CHANGED = true
              \/ StageDescription.name s = name_ nd)
             /\ interface_flags_from (StageDescription.flags s) = interface_flags_ nd)).
Proof.
  rewrite update_content_changed.
  destruct (has_flag (node_flags_ nd) NAME_CHANGED) eqn:Hnc; simpl;
    destruct (N.eqb_spec (interface_flags_from (StageDescription.flags s))
                (interface_flags_ nd)) as [Hf|Hf]; simpl;
    try destruct (bool_decide_reflect (StageDescription.name s = name_ nd)) as [Hn|Hn];
    simpl; symmetry;
    try (apply negb_false_iff, bool_decide_eq_true; tauto);
    apply negb_true_iff, bool_decide_eq_false; intros [[?|?] ?]; done.
Qed.

(** A list of solved ids with an id that is not stored yet: the call
    reports a change, if it runs to its end. *)
Lemma for_each_process_id_new_solved (ps : list (N * N)) (t t' : RemoteSolutionModel)
    (b b' : bool) :
  (exists p, p ∈ ps /\ p.1 ∉ id <$> data_ t) ->
  for_each (process_id quiet_NaN) ps (t, b) = Ok tt (t', b') ->
  b' = true.
Proof.
  revert t b. induction ps as [|p ps IH]; intros t b (q & Hq & Hnew);
    [now apply elem_of_nil in Hq|].
  cbn [for_each].
  destruct (process_id quiet_NaN p (t, b)) as [[] [t1 b1]|[t1 b1]] eqn:Hstep;
    cbn [bind]; [|done].
  intros Hrest. unfold process_id in Hstep.
  destruct (match last (data_ t) with Some back => id back <? p.1 | None => true end).
  - injection Hstep as <- <-.
    apply for_each_process_id_flag in Hrest as (_ & _ & ->).
    unfold isVisible, Data_new. simpl. now rewrite orb_true_r.
  - destruct (findById (data_ t) p.1) as [pos|] eqn:Hf; [|done].
    destruct (findById_Some _ _ _ Hf) as (item & Hpos & Hid).
    rewrite Hpos in Hstep. injection Hstep as <- <-.
    apply (IH _ _ ) in Hrest; [done|].
    apply elem_of_cons in Hq as [->|Hq].
    + exfalso. apply Hnew. rewrite <- Hid. apply list_elem_of_fmap_2.
      eapply list_elem_of_lookup_2, Hpos.
    + exists q. split; [done|]. simpl.
      now rewrite (ids_insert_same _ _ item).
Qed.

Lemma processSolutionIDs_new_solved (t t' : RemoteSolutionModel) (ids : list N)
    (b : bool) :
  (exists i, i ∈ ids /\ i ∉ id <$> data_ t) ->
  processSolutionIDs t ids quiet_NaN = Ok b t' -> b = true.
Proof.
  intros (i & Hi & Hnew). unfold processSolutionIDs.
  destruct (for_each _ _ _) as [[] [t1 b1]|[t1 b1]] eqn:Hloop; [|done].
  intros [= <- _]. apply (for_each_process_id_new_solved _ _ _ _ _) in Hloop; [done|].
  rewrite <- (ids_by_creation_perm ids) in Hi.
  apply list_elem_of_fmap in Hi as (p & -> & Hp). eauto.
Qed.

(** A list of ids that are all stored: the call runs to its end, appends
    nothing and reports no change. *)
Lemma for_each_process_id_known (c : spec_float) (ps : list (N * N))
    (t : RemoteSolutionModel) (b : bool) :
  ascending_ids t ->
  (forall p, p ∈ ps -> p.1 ∈ id <$> data_ t) ->
  exists t', for_each (process_id c) ps (t, b) = Ok tt (t', b)
             /\ id <$> data_ t' = id <$> data_ t.
Proof.
  revert t. induction ps as [|p ps IH]; intros t Hasc Hall; cbn [for_each]; [eauto|].
  assert (Hp : p.1 ∈ id <$> data_ t) by (apply Hall; left).
  rewrite (process_id_old c p t b Hasc).
  2:{ intros H. specialize (H _ Hp). lia. }
  destruct (findById (data_ t) p.1) as [pos|] eqn:Hf;
    [|now apply findById_None in Hf].
  destruct (findById_Some _ _ _ Hf) as (item & Hpos & Hid). rewrite Hpos.
  rewrite isVisible_set_cost_rank, eqb_reflx, orb_false_r. cbn [bind].
  assert (Hids : id <$> data_ (set_data_ t (<[pos := set_cost_rank item p.2]>
                                              (data_ t))) = id <$> data_ t)
    by (simpl; now apply (ids_insert_same _ _ item)).
  destruct (IH (set_data_ t (<[pos := set_cost_rank item p.2]> (data_ t))))
    as (t' & Hrun & Hids').
  - unfold ascending_ids. now rewrite Hids.
  - intros q Hq. rewrite Hids. apply Hall. now right.
  - exists t'. split; [done|congruence].
Qed.

Lemma processSolutionIDs_known (t : RemoteSolutionModel) (ids : list N)
    (c : spec_float) :
  ascending_ids t ->
  (forall i, i ∈ ids -> i ∈ id <$> data_ t) ->
  exists t', processSolutionIDs t ids c = Ok false t'
             /\ id <$> data_ t' = id <$> data_ t.
Proof.
  intros Hasc Hall. unfold processSolutionIDs.
  destruct (for_each_process_id_known c (ids_by_creation ids) t false Hasc)
    as (t' & -> & Hids).
  - intros p Hp. apply Hall. rewrite <- (ids_by_creation_perm ids).
    now apply list_elem_of_fmap_2.
  - exists (sortInternal t'). done.
Qed.

Lemma processSolutionIDs_accepted (t : RemoteSolutionModel) (ids : list N)
    (c : spec_float) :
  ascending_ids t ->
  (forall i, i ∈ ids ->
     i ∈ id <$> data_ t \/ forall j, j ∈ id <$> data_ t -> j < i) ->
  completed (processSolutionIDs t ids c) = true.
Proof.
  intros Hasc Hall. rewrite completed_processSolutionIDs.
  apply (for_each_process_id_completes c _ t false Hasc (ids_by_creation_sorted ids)).
  intros p Hp. apply Hall. rewrite <- (ids_by_creation_perm ids).
  now apply list_elem_of_fmap_2.
Qed.

(** C8, as stated, does not hold. (1) The empty batch on the never visited
    tree of scenario 1 emits [dataChanged] for the stage of row 0, which no
    observer has visited. (2) Statistics that add a failed solution to the
    visited stage change the number of its solutions from 0 to 1 and emit
    nothing. *)
Lemma C8_unvisited_notified_and_count_change_silent :
  ~ only_visited_notified one_stage (state_of (processStageDescriptions one_stage []))
  /\ ~ ((fun t => length (data_ t)) <$> table_of
          (state_of (processStageStatistics one_stage_visited [failed_only])) 1
        <> (fun t => length (data_ t)) <$> table_of one_stage_visited 1 ->
        exists topLeft bottomRight,
          signals (state_of (processStageStatistics one_stage_visited [failed_only]))
          = signals one_stage_visited ++ [dataChanged topLeft bottomRight]).
Proof.
  split.
  - intros (new & Hs & Hf). vm_compute in Hs. subst new.
    apply Forall_cons in Hf as [(n & Hn & Hv) _].
    vm_compute in Hn. injection Hn as <-. vm_compute in Hv. discriminate Hv.
  - intros H. destruct H as (topLeft & bottomRight & Hs).
    + vm_compute. discriminate.
    + vm_compute in Hs. discriminate Hs.
Qed.

(** C8, amended. (1) Every signal emitted by [processStageDescriptions] for a
    non-empty batch, and every signal emitted by [processStageStatistics], is
    about a node that was marked as visited before the call (the parent, for
    the two signals around a row insertion). (2) A description of an
    existing, visited stage stores the name (unless the name was set by
    hand) and the interface flags, and emits exactly one [dataChanged], from
    column 0 to column 2 of the row of the stage, when the name or the
    interface flags of the stage change, and nothing when neither changes.
    (3) Statistics of a visited stage whose list of solved ids has an id
    that is not stored yet emit exactly one [dataChanged], from column 1 to
    column 2 of the row of the stage, when they are processed to the end;
    and they are, when every solved id is stored already or greater than
    every stored id. Statistics whose ids are all stored already are
    processed to the end and emit nothing. Statistics whose only new ids are
    failed ones are not covered. (The ids of every table are ascending:
    [processSolutionIDs_ascending].) *)
Theorem C8_notifications_are_gated_by_the_visited_flag :
  (forall (m : RemoteTaskModel) (s : StageDescription.t)
          (msg : list StageDescription.t),
      only_visited_notified m (state_of (processStageDescriptions m (s :: msg))))
  /\ (forall (m : RemoteTaskModel) (msg : list StageStatistics.t),
        only_visited_notified m (state_of (processStageStatistics m msg)))
  /\ (forall (m : RemoteTaskModel) (s : StageDescription.t) (parent n : nat)
             (nd : Node) (idx : QModelIndex),
        id_to_stage_ m !! StageDescription.parent_id s = Some parent ->
        id_to_stage_ m !! StageDescription.id s = Some n ->
        heap m !! n = Some nd ->
        parent_ nd = Some parent ->
        has_flag (node_flags_ nd) WAS_VISITED = true ->
        index_of m n = Some idx ->
        exists m',
          process_description s m = Ok tt m'
          /\ heap m'
             = <[n := mkNode (parent_ nd) (children_ nd)
                        (if has_flag (node_flags_ nd) NAME_CHANGED then name_ nd
                         else StageDescription.name s)
                        (interface_flags_from (StageDescription.flags s))
                        (node_flags_ nd) (solutions_ nd)]> (heap m)
          /\ id_to_stage_ m' = id_to_stage_ m
          /\ flags_ m' = flags_ m
          /\ signals m'
             = signals m
               ++ (if bool_decide
                        ((has_flag (node_flags_ nd) NAME_CHANGED = true
                          \/ StageDescription.name s = name_ nd)
                         /\ interface_flags_from (StageDescription.flags s)
                            = interface_flags_ nd)
                   then []
                   else [dataChanged (sibling idx (row idx) 0)
                                     (sibling idx (row idx) 2)]))
  /\ (forall (m : RemoteTaskModel) (s : StageStatistics.t) (n : nat) (nd : Node)
             (idx : QModelIndex),
        id_to_stage_ m !! StageStatistics.id s = Some n ->
        heap m !! n = Some nd ->
        has_flag (node_flags_ nd) WAS_VISITED = true ->
        index_of m n = Some idx ->
        (forall m',
            process_statistics s m = Ok tt m' ->
            (exists i, i ∈ StageStatistics.solved s
                       /\ i ∉ id <$> data_ (solutions_ nd)) ->
            signals m'
            = signals m ++ [dataChanged (sibling idx (row idx) 1)
                                        (sibling idx (row idx) 2)])
        /\ (ascending_ids (solutions_ nd) ->
            (forall i, i ∈ StageStatistics.solved s ->
               i ∈ id <$> data_ (solutions_ nd)
               \/ forall j, j ∈ id <$> data_ (solutions_ nd) -> j < i) ->
            (exists i, i ∈ StageStatistics.solved s
                       /\ i ∉ id <$> data_ (solutions_ nd)) ->
            exists m',
              process_statistics s m = Ok tt m'
              /\ signals m'
                 = signals m ++ [dataChanged (sibling idx (row idx) 1)
                                             (sibling idx (row idx) 2)])
        /\ (ascending_ids (solutions_ nd) ->
            (forall i, i ∈ StageStatistics.solved s ++ StageStatistics.failed s ->
                       i ∈ id <$> data_ (solutions_ nd)) ->
            exists m', process_statistics s m = Ok tt m'
                       /\ signals m' = signals m)).
Proof.
  split_and!.
  - intros m s msg. rewrite processStageDescriptions_cons.
    apply for_each_gated. apply process_description_gated.
  - intros m msg. apply for_each_gated. apply process_statistics_gated.
  - intros m s parent n nd idx Hpar Hn Hnd Hp Hv Hidx.
    rewrite (process_description_visited s m parent n nd idx Hpar Hn Hnd Hp Hv Hidx).
    rewrite update_content_reports, update_content_node. cbn zeta.
    destruct (bool_decide _); simpl; eexists; split_and!; try done.
    now rewrite app_nil_r.
  - intros m s n nd idx Hn Hnd Hv Hidx.
    assert (Hvis : was_visited m n = true) by (unfold was_visited; now rewrite Hnd).
    assert (Hone : forall m2, update_solutions s n m = Ok true m2 ->
      process_statistics s m
      = Ok tt (emit (dataChanged (sibling idx (row idx) 1) (sibling idx (row idx) 2)) m2)
      /\ signals m2 = signals m).
    { intros m2 Hu. split.
      - exact (process_statistics_visited s m m2 n idx true Hn Hvis Hidx Hu).
      - pose proof (update_solutions_same_tree s n m) as Hsame. rewrite Hu in Hsame.
        apply Hsame. }
    split_and!.
    + intros m' Hrun Hnew.
      assert (Hu : exists m2, update_solutions s n m = Ok true m2).
      { unfold process_statistics in Hrun. rewrite Hn in Hrun.
        unfold update_solutions, on_solutions in *. rewrite Hnd in *.
        destruct (processSolutionIDs (solutions_ nd) (StageStatistics.solved s)
                    quiet_NaN) as [b t1|t1] eqn:Hp; [|done].
        rewrite (processSolutionIDs_new_solved _ _ _ _ Hnew Hp). cbn [bind]. eauto. }
      destruct Hu as (m2 & Hu). destruct (Hone m2 Hu) as [Hrun' Hsig].
      rewrite Hrun' in Hrun. injection Hrun as <-. simpl. now rewrite Hsig.
    + intros Hasc Hall Hnew.
      pose proof (processSolutionIDs_accepted (solutions_ nd)
                    (StageStatistics.solved s) quiet_NaN Hasc Hall) as Hdone.
      assert (Hu : exists m2, update_solutions s n m = Ok true m2).
      { unfold update_solutions, on_solutions. rewrite Hnd.
        destruct (processSolutionIDs (solutions_ nd) (StageStatistics.solved s)
                    quiet_NaN) as [b t1|t1] eqn:Hp; [|done].
        rewrite (processSolutionIDs_new_solved _ _ _ _ Hnew Hp). cbn [bind]. eauto. }
      destruct Hu as (m2 & Hu). destruct (Hone m2 Hu) as [Hrun' Hsig].
      eexists. split; [exact Hrun'|]. simpl. now rewrite Hsig.
    + intros Hasc Hall.
      destruct (processSolutionIDs_known (solutions_ nd) (StageStatistics.solved s)
                  quiet_NaN Hasc) as (t1 & Hp1 & Hids1).
      { intros i Hi. apply Hall, elem_of_app. now left. }
      destruct (processSolutionIDs_known t1 (StageStatistics.failed s) infinity)
        as (t2 & Hp2 & Hids2).
      { unfold ascending_ids. now rewrite Hids1. }
      { intros i Hi. rewrite Hids1. apply Hall, elem_of_app. now right. }
      assert (Hu : exists m2, update_solutions s n m = Ok false m2).
      { unfold update_solutions, on_solutions. rewrite Hnd, Hp1. cbn [bind].
        simpl. rewrite list_lookup_alter_eq, Hnd. simpl. rewrite Hp2. eauto. }
      destruct Hu as (m2 & Hu).
      rewrite (process_statistics_visited s m m2 n idx false Hn Hvis Hidx Hu).
      eexists. split; [done|].
      pose proof (update_solutions_same_tree s n m) as Hsame. rewrite Hu in Hsame.
      apply Hsame.
Qed.

(** Scenario 2 of the specification, where the visited stage is described
    under a new name; and statistics that bring the first solved solution of
    the visited stage. *)
Lemma C8_notifications_are_gated_by_the_visited_flag_witness :
  (exists m',
     process_description (StageDescription.mk 1 0 "renamed" 0) one_stage_visited
     = Ok tt m'
     /\ signals m' = [dataChanged (Index 0 0 root_ true) (Index 0 2 root_ true)])
  /\ signals (state_of (process_statistics solved_and_failed one_stage_visited))
     = [dataChanged (Index 0 1 root_ true) (Index 0 2 root_ true)].
Proof.
  destruct C8_notifications_are_gated_by_the_visited_flag as (_ & _ & Hd & Hs).
  split.
  - destruct (Hd one_stage_visited (StageDescription.mk 1 0 "renamed" 0)
                root_ 1%nat (set_node_flag WAS_VISITED root_stage_node)
                (Index 0 0 root_ true)
                eq_refl eq_refl eq_refl eq_refl eq_refl eq_refl)
      as (m' & Hrun & _ & _ & _ & Hsig).
    exists m'. split; [exact Hrun|exact Hsig].
  - destruct (Hs one_stage_visited solved_and_failed 1%nat
                (set_node_flag WAS_VISITED root_stage_node) (Index 0 0 root_ true)
                eq_refl eq_refl eq_refl eq_refl) as (_ & Hnew & _).
    destruct Hnew as (m' & Hrun & Hsig).
    + constructor.
    + intros i _. right. intros j Hj. now apply elem_of_nil in Hj.
    + exists 1. split; [compute_done|compute_done].
    + rewrite Hrun. exact Hsig.
Defined.
